(** * Animal-rescue incident toolkit: a shallow embedding of [utils.py]

    The Python module transforms pandas tables.  A table is modelled as the
    list of its rows, a row as a finite map from column labels to cells, and
    each pandas call used by the module as a function on such tables.  The
    functions of [utils.py] are then written statement by statement on top of
    these, followed by the properties established for them.

    The Python functions update the table they are given and return it; the
    model returns the updated table.  A call that raises is modelled by a
    result [Raise e].  What belongs to other libraries and is not fixed by
    the module (the holiday calendar, the tokenizer and the stop list of
    nltk, the geometries of geopandas) is a parameter of the function that
    uses it. *)

From Stdlib Require Import ZArith String Ascii List Bool Lia.
From Stdlib Require Import Floats.SpecFloat.
From stdpp Require Import gmap strings list fin_maps.
From stdpp Require Import pretty.

Local Open Scope string_scope.
Local Open Scope Z_scope.

(** ** Text: the [str] methods the module relies on

    Python strings are modelled by [string]; case mapping is the ASCII one
    (other characters are left alone). *)

Module Text.

(** [p in s] *)
Fixpoint contains (p s : string) {struct s} : bool :=
  if String.prefix p s then true
  else match s with
       | EmptyString => false
       | String _ s' => contains p s'
       end.

(** Left-to-right scan of [str.replace]: [skip] counts the characters of a
    match that are still to be dropped. *)
Fixpoint replace_from (old new : string) (skip : nat) (s : string) : string :=
  match s with
  | EmptyString => EmptyString
  | String c s' =>
      match skip with
      | S k => replace_from old new k s'
      | O =>
          if String.prefix old s
          then new ++ replace_from old new (Nat.pred (String.length old)) s'
          else String c (replace_from old new O s')
      end
  end.

(** With an empty pattern Python puts [new] around every character. *)
Fixpoint interleave (new s : string) : string :=
  match s with
  | EmptyString => new
  | String c s' => new ++ String c (interleave new s')
  end.

(** [s.replace(old, new)]: every non-overlapping occurrence, leftmost first. *)
Definition replace (old new s : string) : string :=
  match old with
  | EmptyString => interleave new s
  | _ => replace_from old new O s
  end.

(** [s.endswith(suffix)] *)
Fixpoint ends_with (suffix s : string) : bool :=
  String.eqb s suffix
  || match s with
     | EmptyString => false
     | String _ s' => ends_with suffix s'
     end.

Definition is_upper (c : ascii) : bool :=
  let n := nat_of_ascii c in (65 <=? n)%nat && (n <=? 90)%nat.

Definition lower_char (c : ascii) : ascii :=
  if is_upper c then ascii_of_nat (nat_of_ascii c + 32) else c.

(** [s.lower()] *)
Fixpoint lower (s : string) : string :=
  match s with
  | EmptyString => EmptyString
  | String c s' => String (lower_char c) (lower s')
  end.

(** [s.casefold()], which agrees with [lower] on ASCII text. *)
Definition casefold (s : string) : string := lower s.

(** ['|'.join(l)] is [String.concat "|" l].  The patterns built that way are
    read back as regular expressions; the fragment modelled is alternation of
    literal text, so a pattern is the list of its alternatives. *)
Fixpoint alternatives (pat : string) : list string :=
  match pat with
  | EmptyString => [EmptyString]
  | String c pat' =>
      if Ascii.eqb c "|" then EmptyString :: alternatives pat'
      else match alternatives pat' with
           | a :: r => String c a :: r
           | [] => [String c EmptyString]
           end
  end.

(** [re.search(pat, s) is not None] for such a pattern. *)
Definition re_search (pat s : string) : bool :=
  existsb (fun alt => contains alt s) (alternatives pat).

(** The characters with a special meaning in a regular expression. *)
Definition metachars : list ascii :=
  list_ascii_of_string ".^$*+?{}[]\|()".

Definition is_meta (c : ascii) : bool :=
  existsb (Ascii.eqb c) metachars.

Fixpoint literal (s : string) : bool :=
  match s with
  | EmptyString => true
  | String c s' => negb (is_meta c) && literal s'
  end.

End Text.

(** ** Tables *)

Module Frame.

(** A [Timestamp]: calendar date and nanoseconds since midnight. *)
Record timestamp := Timestamp { year : Z; month : Z; day : Z; nanos : Z }.

(** A cell of a table.  [NaN] stands for every missing value ([NaN], [NaT],
    [None]). *)
Inductive cell :=
  | NaN
  | Str (s : string)
  | Int (z : Z)
  | Stamp (t : timestamp).

Abbreviation row := (gmap string cell).
Abbreviation frame := (list row).

(** Exceptions that the modelled calls raise. *)
Inductive exn := AttributeError | KeyError | TypeError | ValueError.

Inductive result (A : Type) :=
  | Ok (a : A)
  | Raise (e : exn).
Arguments Ok {A} a.
Arguments Raise {A} e.

Definition bind {A B} (m : result A) (k : A -> result B) : result B :=
  match m with
  | Ok a => k a
  | Raise e => Raise e
  end.

(** A cell read from a row; a label the row does not carry reads as missing
    (tables are assumed to carry the columns the functions read). *)
Definition get (r : row) (c : string) : cell := default NaN (r !! c).

(** [df[c]] *)
Definition col (df : frame) (c : string) : list cell :=
  map (fun r => get r c) df.

(** [df.loc[:, c] = values] *)
Definition set_col (c : string) (values : list cell) (df : frame) : frame :=
  zip_with (fun v r => <[c := v]> r) values df.

(** One row of [df.loc[mask, c] = v]: a selected row takes [v]; in the other
    rows a column that did not exist yet is created missing. *)
Definition set_where (b : bool) (c : string) (v : cell) (r : row) : row :=
  if b then <[c := v]> r
  else match r !! c with
       | Some _ => r
       | None => <[c := NaN]> r
       end.

(** [df.loc[mask, c] = v] for a boolean mask. *)
Definition loc_set (mask : list bool) (c : string) (v : cell) (df : frame)
  : frame :=
  zip_with (fun b r => set_where b c v r) mask df.

(** The same with a mask that may hold missing values, as pandas 2 does it:
    it refuses to index with such a mask ("Cannot mask with non-boolean
    array containing NA / NaN values").  The model keeps no header: a table
    without rows carries the columns that are read, not yet the column [c]
    that the assignment creates, and pandas refuses to create a column of a
    table without rows from a scalar ("cannot set a frame with no defined
    index and a scalar"). *)
Definition loc_set_na (mask : list (option bool)) (c : string) (v : cell)
    (df : frame) : result frame :=
  match df with
  | [] => Raise ValueError
  | _ :: _ =>
      if forallb (fun o => match o with Some _ => true | None => false end)
           mask
      then Ok (loc_set (map (fun o => default false o) mask) c v df)
      else Raise ValueError
  end.

(** [series == s] *)
Definition eq_str (s : string) (c : cell) : bool :=
  match c with
  | Str s' => String.eqb s' s
  | _ => false
  end.

(** [series.isin(l)] for a list of strings *)
Definition isin_str (l : list string) (c : cell) : bool :=
  existsb (fun s => eq_str s c) l.

(** [series.str.replace(old, new)]: missing and non-string cells give a
    missing result. *)
Definition str_replace (old new : string) (c : cell) : cell :=
  match c with
  | Str s => Str (Text.replace old new s)
  | _ => NaN
  end.

(** [series.str.lower()] *)
Definition str_lower (c : cell) : cell :=
  match c with
  | Str s => Str (Text.lower s)
  | _ => NaN
  end.

(** [series.str.contains(pat)]: a missing cell stays missing. *)
Definition str_contains (pat : string) (c : cell) : option bool :=
  match c with
  | Str s => Some (Text.re_search pat s)
  | _ => None
  end.

End Frame.

(** ** [config.py] *)

Module Config.

(** The animal keyword lookup.  A Python dict iterates in insertion order, so
    it is kept as the list of its items. *)
Definition animal_keywords : list (string * list string) :=
  [ ("dog",
     ["dog"; "greyhound"; "jack russell"; "puppy"; "huskey";
      "german shepherd"; "terrier"; "chihuahua"; "jack russel";
      "puppies"; "labrador"]);
    ("cat", ["cat"; "kitten"; " k itten "]);
    ("bird",
     ["bird"; "pigeon"; "pidgeon"; "swift"; "falcon"; "crow"; "magpie";
      "kestrel"; "eagle"; "gull"; "heron"; "swan"; "goose"; "parrot";
      "sparrow"; "owl"; "starling"; "hawk"; "duck"; "duckling"; "budgie";
      "geese"; "mallard"; "duickling"; "kesterl"; "chick"; "swirft";
      "cygnet"; "gosling"]);
    ("horse", ["horse"; "foal"; "pony"; "dorse "]);
    ("cow", ["cow"; "calf"]);
    ("pig", ["pig"]);
    ("sheep", ["sheep"; "ewe"; "lamb"]);
    ("deer", ["deer"; " dear "]);
    ("fox", ["fox"; "fos "]);
    ("squirrel", ["squirrel"]);
    ("snake", ["snake"; "boa"]);
    ("small animal",
     ["hamster"; "guinea pig"; "rabbit"; "hedgehog"; "chinchilla"; "badger"])
  ].

End Config.

(** ** Calendar arithmetic behind the [dt] accessors *)

Module Calendar.
Import Frame.

(** Days since 1970-01-01 of a proleptic Gregorian date. *)
Definition days_from_civil (y m d : Z) : Z :=
  let y := if m <=? 2 then y - 1 else y in
  let era := y / 400 in
  let yoe := y - era * 400 in
  let mp := if 2 <? m then m - 3 else m + 9 in
  let doy := (153 * mp + 2) / 5 + d - 1 in
  let doe := yoe * 365 + yoe / 4 - yoe / 100 + doy in
  era * 146097 + doe - 719468.

(** The date that lies the given number of days after 1970-01-01. *)
Definition civil_from_days (z : Z) : Z * Z * Z :=
  let z := z + 719468 in
  let era := z / 146097 in
  let doe := z - era * 146097 in
  let yoe := (doe - doe / 1460 + doe / 36524 - doe / 146096) / 365 in
  let doy := doe - (365 * yoe + yoe / 4 - yoe / 100) in
  let mp := (5 * doy + 2) / 153 in
  let d := doy - (153 * mp + 2) / 5 + 1 in
  let m := if mp <? 10 then mp + 3 else mp - 9 in
  let y := yoe + era * 400 in
  (if m <=? 2 then y + 1 else y, m, d).

Definition ordinal (t : timestamp) : Z :=
  days_from_civil (year t) (month t) (day t).

(** [dt.day_of_week]: Monday is 0. *)
Definition day_of_week (t : timestamp) : Z := (ordinal t + 3) mod 7.

(** [dt.to_period('M').dt.start_time] *)
Definition month_start (t : timestamp) : timestamp :=
  Timestamp (year t) (month t) 1 0.

(** [dt.to_period('W').dt.start_time]: weeks run from Monday to Sunday. *)
Definition week_start (t : timestamp) : timestamp :=
  let '(y, m, d) := civil_from_days (ordinal t - day_of_week t) in
  Timestamp y m d 0.

(** [dt.to_period('Q-...').dt.qyear] for quarters of a year that ends with
    month [to_end]: pandas shifts the month back by [to_end] and moves to the
    next year unless that wraps around. *)
Definition qyear (to_end : Z) (t : timestamp) : Z :=
  if to_end =? 12 then year t
  else if month t - to_end <=? 0 then year t else year t + 1.

(** Order of timestamps. *)
Definition stamp_leb (a b : timestamp) : bool :=
  let ka := ordinal a in
  let kb := ordinal b in
  (ka <? kb) || ((ka =? kb) && (nanos a <=? nanos b)).

End Calendar.

(** ** [utils.py]: the functions that prepare the incident table *)

Module Utils.
Import Frame.

#[global] Instance result_bind : MBind result := fun A B k m => bind m k.

(** The [dt] accessor exists only on a datetime column: every cell is a
    timestamp or missing. *)
Definition dt (values : list cell) : result (list (option timestamp)) :=
  if forallb (fun c => match c with Stamp _ | NaN => true | _ => false end)
       values
  then Ok (map (fun c => match c with Stamp t => Some t | _ => None end)
             values)
  else Raise AttributeError.

Definition of_stamp (o : option timestamp) : cell :=
  match o with
  | Some t => Stamp t
  | None => NaN
  end.

Definition of_int (o : option Z) : cell :=
  match o with
  | Some z => Int z
  | None => NaN
  end.

(** [series.min()] and [series.max()] of a datetime column skip the missing
    values; with none left the result is [NaT]. *)
Definition stamp_min (l : list (option timestamp)) : option timestamp :=
  fold_left
    (fun acc o =>
       match acc, o with
       | Some a, Some t => Some (if Calendar.stamp_leb a t then a else t)
       | None, _ => o
       | _, None => acc
       end) l None.

Definition stamp_max (l : list (option timestamp)) : option timestamp :=
  fold_left
    (fun acc o =>
       match acc, o with
       | Some a, Some t => Some (if Calendar.stamp_leb a t then t else a)
       | None, _ => o
       | _, None => acc
       end) l None.

(** [range(a, b)] *)
Definition range (a b : Z) : list Z :=
  map (fun i => a + Z.of_nat i) (seq 0 (Z.to_nat (b - a))).

Section TimeDimensions.

(** [holidays.country_holidays('GB', subdiv='ENG', years=...)]: the public
    holidays of England in the given years, as (year, month, day). *)
Variable country_holidays : list Z -> list (Z * Z * Z).

Definition is_holiday (hol : list (Z * Z * Z)) (o : option timestamp) : bool :=
  match o with
  | Some t =>
      existsb (fun '(y, m, d) =>
                 (y =? year t) && (m =? month t) && (d =? day t)) hol
  | None => false
  end.

Definition isin_int (l : list Z) (c : cell) : bool :=
  match c with
  | Int z => existsb (Z.eqb z) l
  | _ => false
  end.

(** [add_time_dimensions(to_prep, date_col='Incdate')] *)
Definition add_time_dimensions (to_prep : frame) (date_col : string)
  : result frame :=
  dates ← dt (col to_prep date_col);
  (* the quarter year of a missing date reads -1, in an integer column *)
  let to_prep :=
    set_col "fin_year"
      (map (fun o => Int (default (-1) (option_map (Calendar.qyear 3) o) - 1))
         dates) to_prep in
  dates ← dt (col to_prep date_col);
  let to_prep :=
    set_col "month"
      (map (fun o => of_stamp (option_map Calendar.month_start o)) dates)
      to_prep in
  dates ← dt (col to_prep date_col);
  let to_prep :=
    set_col "week"
      (map (fun o => of_stamp (option_map Calendar.week_start o)) dates)
      to_prep in
  dates ← dt (col to_prep date_col);
  let to_prep :=
    set_col "weekday"
      (map (fun o => of_int (option_map Calendar.day_of_week o)) dates)
      to_prep in
  dates ← dt (col to_prep date_col);
  match stamp_min dates, stamp_max dates with
  | Some lo, Some hi =>
      let eng_hol := country_holidays (range (year lo) (year hi + 1)) in
      let to_prep :=
        map (fun r => <["BH_or_WE" := Str "No"]> r) to_prep in
      let to_prep :=
        loc_set (map (isin_int [5; 6]) (col to_prep "weekday"))
          "BH_or_WE" (Str "Weekend") to_prep in
      dates ← dt (col to_prep date_col);
      let to_prep :=
        loc_set (map (is_holiday eng_hol) dates)
          "BH_or_WE" (Str "Bank Holiday") to_prep in
      Ok to_prep
  | _, _ => Raise TypeError
  end.

End TimeDimensions.

(** [group_animals(to_prep, animal_kw_dict, desc_col='Incident Detail')] *)
Fixpoint group_animals (to_prep : frame)
    (animal_kw_dict : list (string * list string)) (desc_col : string)
  : result frame :=
  match animal_kw_dict with
  | [] => Ok to_prep
  | (animal, keyword_list) :: rest =>
      to_prep ←
        loc_set_na
          (map (str_contains (String.concat "|" keyword_list))
             (map str_lower (col to_prep desc_col)))
          "animal" (Str animal) to_prep;
      group_animals to_prep rest desc_col
  end.

(** [to_prep.loc[to_prep.Ward == name, ward_col] = new] *)
Definition rename_eq (name : string) (ward_col new : string) (df : frame)
  : frame :=
  loc_set (map (eq_str name) (col df "Ward")) ward_col (Str new) df.

(** [to_prep.loc[to_prep.Ward.isin(names), ward_col] = new] *)
Definition rename_in (names : list string) (ward_col new : string)
    (df : frame) : frame :=
  loc_set (map (isin_str names) (col df "Ward")) ward_col (Str new) df.

(** The first statement of [modify_wards]:
    [to_prep.loc[:, ward_col] = to_prep.Ward.str.replace(' Ward', '')].
    The text accessor is there for a column that holds a string; on a Ward
    column without any it raises before anything is written, which is left
    out here: what the model gives for such a table is not what the function
    returns. *)
Definition strip_ward (to_prep : frame) (ward_col : string) : frame :=
  set_col ward_col (map (str_replace " Ward" "") (col to_prep "Ward"))
    to_prep.

(** [modify_wards(to_prep, ward_col='Ward')] *)
Definition modify_wards (to_prep : frame) (ward_col : string) : frame :=
  let to_prep := strip_ward to_prep ward_col in
  let to_prep := rename_in ["St. Peter's"; "St Peter's"] ward_col "St Peters" to_prep in
  let to_prep := rename_eq "St. Michael's" ward_col "St Michael's" to_prep in
  let to_prep := rename_eq "St. Pauls" ward_col "St Pauls" to_prep in
  let to_prep := rename_eq "Bushbury South and Low Hill" ward_col "Bushbury South & Low Hill" to_prep in
  let to_prep := rename_eq "Bournville" ward_col "Bournville & Cotteridge" to_prep in
  let to_prep := rename_eq "Spring Vale" ward_col "Ettingshall South & Spring Vale" to_prep in
  let to_prep := rename_eq "Longbridge" ward_col "Longbridge & West Heath" to_prep in
  let to_prep := rename_eq "Sparkbrook" ward_col "Sparkbrook & Balsall Heath East" to_prep in
  let to_prep := rename_eq "Hodge Hill" ward_col "Bromford & Hodge Hill" to_prep in
  let to_prep := rename_eq "Moseley and Kings Heath" ward_col "Moseley" to_prep in
  let to_prep := rename_eq "Brandwood" ward_col "Brandwood & King's Heath" to_prep in
  let to_prep := rename_eq "Soho" ward_col "Soho & Jewellery Quarter" to_prep in
  let to_prep := rename_eq "Bilston East" ward_col "Bilston South" to_prep in
  let to_prep := rename_eq "Lozells and East Handsworth" ward_col "Lozells" to_prep in
  let to_prep := rename_eq "Ettingshall" ward_col "Ettingshall North" to_prep in
  let to_prep := rename_eq "Stechford and Yardley North" ward_col "Yardley West & Stechford" to_prep in
  let to_prep := rename_eq "Washwood Heath" ward_col "Bromford & Hodge Hill" to_prep in
  let to_prep := rename_eq "Sutton New Hall" ward_col "Sutton Walmley & Minworth" to_prep in
  let to_prep := rename_eq "Springfield" ward_col "Hall Green North" to_prep in
  let to_prep := rename_eq "Hall Green" ward_col "Hall Green South" to_prep in
  let to_prep := rename_eq "Kings Norton" ward_col "King's Norton South" to_prep in
  let to_prep := rename_eq "Tyburn" ward_col "Erdington" to_prep in
  let to_prep := rename_in ["Weoley"; "Selly Oak"] ward_col "Weoley & Selly Oak" to_prep in
  let to_prep :=
    loc_set (map (eq_str "Tipton Green") (col to_prep "Ward"))
      "District" (Str "Sandwell") to_prep in
  to_prep.

(** *** Joining the boundaries with the incident counts and the census

    The incident table is a [frame] as above.  The boundary table and the
    tables derived from it have a fixed set of columns and are kept as
    records.  Counts and populations are integers: pandas holds them in
    float64 columns, where integers of magnitude below 2^53 and their sums
    are exact.  Only the rate is a quotient, computed in binary64. *)

(** Sorted list without repetitions, as [groupby] orders its keys. *)
Fixpoint insert_sorted {A} (cmp : A -> A -> comparison) (x : A) (l : list A)
  : list A :=
  match l with
  | [] => [x]
  | y :: l' =>
      match cmp x y with
      | Lt => x :: l
      | Eq => l
      | Gt => y :: insert_sorted cmp x l'
      end
  end.

Definition sorted_unique {A} (cmp : A -> A -> comparison) (l : list A)
  : list A :=
  fold_right (insert_sorted cmp) [] l.

Definition lexico {A B} (ca : A -> A -> comparison)
    (cb : B -> B -> comparison) (x y : A * B) : comparison :=
  match ca (fst x) (fst y) with
  | Eq => cb (snd x) (snd y)
  | c => c
  end.

(** The key of an incident under [groupby(['fin_year', 'District', 'Ward'])];
    a row with a missing key belongs to no group. *)
Definition group_key (r : row) : option (Z * string * string) :=
  match get r "fin_year", get r "District", get r "Ward" with
  | Int y, Str d, Str w => Some (y, d, w)
  | _, _, _ => None
  end.

Definition key_eqb (a b : Z * string * string) : bool :=
  let '(y, d, w) := a in
  let '(y', d', w') := b in
  (y =? y') && String.eqb d d' && String.eqb w w'.

Definition key_compare : Z * string * string -> Z * string * string ->
  comparison :=
  lexico (lexico Z.compare String.compare) String.compare.

(** [.groupby([...]).size()]: every observed key with its number of rows. *)
Definition groupby_size (df : frame) : list ((Z * string * string) * Z) :=
  let keys := omap group_key df in
  map (fun k => (k, Z.of_nat (List.length (List.filter (key_eqb k) keys))))
    (sorted_unique key_compare keys).

Fixpoint assoc {K V} (eqb : K -> K -> bool) (k : K) (l : list (K * V))
  : option V :=
  match l with
  | [] => None
  | (k', v) :: l' => if eqb k k' then Some v else assoc eqb k l'
  end.

(** Sum of a list of numbers, the missing ones skipped. *)
Definition nansum (l : list (option Z)) : Z :=
  fold_right (fun o acc => default 0 o + acc) 0 l.

Definition sum (l : list Z) : Z := fold_right Z.add 0 l.

(** A row of the pivot: index [Ward], column [District], one column per
    fiscal year and [Total_Incidents]. *)
Record pivot_row := PivotRow {
  pv_Ward : string;
  pv_District : string;
  pv_years : list (Z * Z);
  pv_Total_Incidents : Z
}.

(** The fiscal years observed: the columns after [unstack('fin_year')]. *)
Definition fin_years (sizes : list ((Z * string * string) * Z)) : list Z :=
  sorted_unique Z.compare (map (fun kv => fst (fst (fst kv))) sizes).

(** [.unstack('fin_year').fillna(0)
     .assign(Total_Incidents=lambda x: x.sum(axis=1))
     .reset_index(level=0)] *)
Definition pivot (sizes : list ((Z * string * string) * Z))
  : list pivot_row :=
  let index :=
    sorted_unique (lexico String.compare String.compare)
      (map (fun kv => (snd (fst (fst kv)), snd (fst kv))) sizes) in
  map (fun dw =>
         let unstacked :=
           map (fun y => (y, assoc key_eqb (y, fst dw, snd dw) sizes))
             (fin_years sizes) in
         let filled := map (fun yc => (fst yc, default 0 (snd yc))) unstacked in
         PivotRow (snd dw) (fst dw) filled (sum (map snd filled)))
    index.

(** Conversion to binary64, rounding to nearest even. *)
Definition Z2F (z : Z) : spec_float := binary_normalize 53 1024 z 0 false.

(** Presentation labels of the fiscal-year columns after [rename]. *)
Inductive label :=
  | LInt (z : Z)
  | LStr (s : string).

Definition rename_year (y : Z) : label :=
  if y =? 2013 then LStr "2013" else
  if y =? 2014 then LStr "2014" else
  if y =? 2015 then LStr "2015" else
  if y =? 2016 then LStr "2016" else
  if y =? 2017 then LStr "2017" else
  if y =? 2018 then LStr "2018" else
  if y =? 2019 then LStr "2019" else
  if y =? 2020 then LStr "2020" else
  if y =? 2021 then LStr "2021" else
  if y =? 2022 then LStr "2022" else LInt y.

Definition label_eqb (a b : label) : bool :=
  match a, b with
  | LInt x, LInt y => x =? y
  | LStr x, LStr y => String.eqb x y
  | _, _ => false
  end.

Section Maps.

(** Boundary geometries and their union ([dissolve] merges the pieces of a
    ward) belong to geopandas and are left open. *)
Variable geometry : Type.
Variable unary_union : list geometry -> geometry.

(** A row of [kml_data]. *)
Record kml_row := KmlRow {
  kml_Ward : string;
  kml_geometry : geometry
}.

(** A row of [map_data] after the left join: the columns of the pivot are
    missing where no pivot row has the ward. *)
Record joined_row := JoinedRow {
  j_Ward : string;
  j_geometry : geometry;
  j_District : option string;
  j_years : list (Z * option Z);
  j_Total_Incidents : option Z
}.

(** [kml_data.join(pivot, how='left', on='Ward')] *)
Definition join_pivot (years : list Z) (kml_data : list kml_row)
    (pv : list pivot_row) : list joined_row :=
  flat_map
    (fun k =>
       match List.filter (fun p => String.eqb (pv_Ward p) (kml_Ward k)) pv with
       | [] =>
           [JoinedRow (kml_Ward k) (kml_geometry k) None
              (map (fun y => (y, None)) years) None]
       | matches =>
           map (fun p =>
                  JoinedRow (kml_Ward k) (kml_geometry k)
                    (Some (pv_District p))
                    (map (fun yc => (fst yc, Some (snd yc))) (pv_years p))
                    (Some (pv_Total_Incidents p)))
             matches
       end)
    kml_data.

Definition set_j_Ward (w : string) (r : joined_row) : joined_row :=
  JoinedRow w (j_geometry r) (j_District r) (j_years r)
    (j_Total_Incidents r).

(** A row of [map_data] after [dissolve]. *)
Record map_row := MapRow {
  m_Ward : string;
  m_geometry : geometry;
  m_District : cell;
  m_years : list (Z * Z);
  m_Total_Incidents : Z
}.

(** The sum of a column of strings concatenates them; with nothing to add
    the sum is the number 0. *)
Definition sum_str (l : list (option string)) : cell :=
  match omap id l with
  | [] => Int 0
  | s :: rest => Str (fold_left String.append rest s)
  end.

(** [map_data.dissolve(by='Ward', aggfunc='sum', numeric_only=False)
     .reset_index()] *)
Definition dissolve (years : list Z) (rows : list joined_row)
  : list map_row :=
  map (fun w =>
         let group :=
           List.filter (fun r => String.eqb (j_Ward r) w) rows in
         MapRow w
           (unary_union (map j_geometry group))
           (sum_str (map j_District group))
           (map (fun y =>
                   (y, nansum
                         (map (fun r => mjoin (assoc Z.eqb y (j_years r)))
                            group)))
              years)
           (nansum (map j_Total_Incidents group)))
    (sorted_unique String.compare (map j_Ward rows)).

Definition set_m_District (d : cell) (r : map_row) : map_row :=
  MapRow (m_Ward r) (m_geometry r) d (m_years r) (m_Total_Incidents r).

(** A row of the table returned by [combine_maps_w_data], under its
    presentation labels. *)
Record out_row := OutRow {
  Ward : string;
  geometry_ : geometry;
  District : cell;
  year_columns : list (label * Z);
  Total_Incidents : Z;
  Population_Census_2021 : Z;
  Incidents_per_10000 : spec_float
}.

(** Two's-complement wrap-around of the arithmetic on int64. *)
Definition wrap_int64 (z : Z) : Z := (z + 2 ^ 63) mod 2 ^ 64 - 2 ^ 63.

(** [x.Observation * 2], computed in the dtype of the column: on int64 the
    product wraps around; on float64 doubling is exact, so the product is
    the conversion of the doubled number. *)
Definition double_observation (is_int64 : bool) (observation : Z) : Z :=
  if is_int64 then wrap_int64 (observation * 2) else observation * 2.

(** [x[[2021, 2022]].sum(axis=1).div(x.Observation * 2).mul(10000)] on one
    row. *)
Definition inc_per_pop (is_int64 : bool) (c2021 c2022 observation : Z)
  : spec_float :=
  SFmul 53 1024
    (SFdiv 53 1024 (Z2F (c2021 + c2022))
       (Z2F (double_observation is_int64 observation)))
    (Z2F 10000).

(** [combine_maps_w_data(kml_data, inc_data, census_data)]; [census_data] is
    indexed by ward and carries the column [Observation]. *)
Definition combine_maps_w_data (kml_data : list kml_row) (inc_data : frame)
    (census_data : list (string * option Z)) : result (list out_row) :=
  let sizes := groupby_size inc_data in
  let years := fin_years sizes in
  let map_data := join_pivot years kml_data (pivot sizes) in
  let map_data :=
    map (fun r => set_j_Ward (Text.replace "'" "" (j_Ward r)) r) map_data in
  let map_data :=
    map (fun r =>
           if Text.re_search "Ettingshall" (j_Ward r)
           then set_j_Ward "Ettingshall" r else r) map_data in
  let map_data := dissolve years map_data in
  let map_data :=
    map (fun r =>
           if existsb (String.eqb (m_Ward r)) ["Castle Vale"; "Allens Cross"]
           then set_m_District (Str "Birmingham") r else r) map_data in
  let map_data :=
    map (fun r =>
           if String.eqb (m_Ward r) "Ettingshall"
           then set_m_District (Str "Wolverhampton") r else r) map_data in
  (* .join(census_data, how='left', on='Ward').fillna(0) *)
  let with_census :=
    flat_map
      (fun r =>
         match List.filter (fun c => String.eqb (fst c) (m_Ward r))
                 census_data with
         | [] => [(r, 0)]
         | matches => map (fun c => (r, default 0 (snd c))) matches
         end)
      map_data in
  (* Observation keeps the dtype int64 of the census when the census
     misses no observation and the join finds one for every ward; a missing
     value turns the column into float64 *)
  let observation_int64 :=
    forallb (fun c => match snd c with Some _ => true | None => false end)
      census_data
    && forallb
         (fun r => existsb (fun c => String.eqb (fst c) (m_Ward r))
                     census_data)
         map_data in
  (* .assign(inc_per_pop=...): the columns 2021 and 2022 must exist *)
  if existsb (Z.eqb 2021) years && existsb (Z.eqb 2022) years then
    Ok (map (fun '(r, observation) =>
               OutRow (m_Ward r) (m_geometry r) (m_District r)
                 (map (fun yc => (rename_year (fst yc), snd yc)) (m_years r))
                 (m_Total_Incidents r)
                 observation
                 (inc_per_pop observation_int64
                    (default 0 (assoc Z.eqb 2021 (m_years r)))
                    (default 0 (assoc Z.eqb 2022 (m_years r)))
                    observation))
          with_census)
  else Raise KeyError.

End Maps.

Arguments KmlRow {geometry} _ _.
Arguments kml_Ward {geometry} _.
Arguments kml_geometry {geometry} _.
Arguments JoinedRow {geometry} _ _ _ _ _.
Arguments j_Ward {geometry} _.
Arguments j_geometry {geometry} _.
Arguments j_District {geometry} _.
Arguments j_years {geometry} _.
Arguments j_Total_Incidents {geometry} _.
Arguments join_pivot {geometry} _ _ _.
Arguments set_j_Ward {geometry} _ _.
Arguments MapRow {geometry} _ _ _ _ _.
Arguments m_Ward {geometry} _.
Arguments m_geometry {geometry} _.
Arguments m_District {geometry} _.
Arguments m_years {geometry} _.
Arguments m_Total_Incidents {geometry} _.
Arguments dissolve {geometry} _ _ _.
Arguments set_m_District {geometry} _ _.
Arguments OutRow {geometry} _ _ _ _ _ _ _.
Arguments Ward {geometry} _.
Arguments geometry_ {geometry} _.
Arguments District {geometry} _.
Arguments year_columns {geometry} _.
Arguments Total_Incidents {geometry} _.
Arguments Population_Census_2021 {geometry} _.
Arguments Incidents_per_10000 {geometry} _.
Arguments combine_maps_w_data {geometry} _ _ _ _.

(** *** N-grams of the incident descriptions *)

Section Ngrams.

(** [nltk.tokenize.word_tokenize] and [stopwords.words("english")] come from
    nltk and are left open. *)
Variable word_tokenize : string -> list string.
Variable stopwords_english : list string.

(** [filter_stopwords(q)] *)
Definition filter_stopwords (q : string) : list string :=
  fold_left
    (fun filtered_list word =>
       if negb (existsb (String.eqb (Text.casefold word)) stopwords_english)
       then (filtered_list ++ [word])%list
       else filtered_list)
    (word_tokenize q) [].

(** [nltk.ngrams(s, n)]: the windows of [n] consecutive items. *)
Fixpoint ngrams {A} (s : list A) (n : nat) : list (list A) :=
  match n, s with
  | O, _ => []
  | _, [] => []
  | _, _ :: s' =>
      if (n <=? List.length s)%nat then take n s :: ngrams s' n else []
  end.

(** [get_ngrams(s, n=2)] *)
Definition get_ngrams (s : list string) (n : nat) : list (list string) :=
  ngrams s n.

Definition gram_eqb (a b : list string) : bool :=
  bool_decide (a = b).

(** One more occurrence of [x] in a tally kept in order of first
    appearance. *)
Fixpoint bump (x : list string) (acc : list (list string * nat))
  : list (list string * nat) :=
  match acc with
  | [] => [(x, 1%nat)]
  | (y, c) :: acc' =>
      if gram_eqb x y then (y, S c) :: acc' else (y, c) :: bump x acc'
  end.

(** Distinct values with their number of occurrences. *)
Definition tally (l : list (list string)) : list (list string * nat) :=
  fold_left (fun acc x => bump x acc) l [].

Fixpoint insert_desc (x : list string * nat) (l : list (list string * nat))
  : list (list string * nat) :=
  match l with
  | [] => [x]
  | y :: l' =>
      if (snd y <=? snd x)%nat then x :: l else y :: insert_desc x l'
  end.

(** [pd.Series(values).value_counts()]: the tally, most frequent first
    (pandas does not fix the order among equal counts; here the earlier
    value stays first). *)
Definition value_counts (l : list (list string))
  : list (list string * nat) :=
  fold_right insert_desc [] (tally l).

(** [data[col].apply(filter_stopwords)]: [word_tokenize] raises on a cell
    that is not a string. *)
Fixpoint apply_filter_stopwords (values : list cell)
  : result (list (list string)) :=
  match values with
  | [] => Ok []
  | Str q :: rest =>
      tokens ← apply_filter_stopwords rest;
      Ok (filter_stopwords q :: tokens)
  | _ :: _ => Raise TypeError
  end.

(** [ngram_counts(data, n=2, col='Incident Detail')] *)
Definition ngram_counts (data : frame) (n : nat) (col_ : string)
  : result (list (list string * nat)) :=
  tokens ← apply_filter_stopwords (col data col_);
  Ok (value_counts
        (concat (map (fun s => get_ngrams s n) tokens))).

End Ngrams.

(** *** Download of the ward boundaries *)

Section Download.

(** The network, the XML parser and the file system belong to the
    environment and are left open.  [exception] is the type of what they
    raise; [urlopen_read k url] is [urlopen(url).read()] when it is the
    request of iteration [k]; [placemark_text kml] is
    [ET.fromstring(kml)[0][1][1].text]; [Path] sends the text of a path to
    the file it names, and [write_error k p] is what writing the file [p]
    raises in iteration [k], if anything. *)
Context {P : Type} `{Countable P}.
Variable exception : Type.
Variable urlopen_read : nat -> string -> exception + list Byte.byte.
Variable placemark_text : list Byte.byte -> exception + option string.
Variable Path : string -> P.
Variable write_error : nat -> P -> option exception.

(** What the function acts on: the lines printed and the files written. *)
Record world := World {
  stdout : list Z;
  files : gmap P (list Byte.byte)
}.

(** [f"https://www.doogal.co.uk/kml/wards/E0{id}.kml"] *)
Definition url (id : Z) : string :=
  "https://www.doogal.co.uk/kml/wards/E0" ++ pretty id ++ ".kml".

(** [f'kml/{dist_name}.kml']: a missing text is formatted as [None]. *)
Definition kml_path (dist_name : option string) : string :=
  "kml/" ++ default "None" dist_name ++ ".kml".

(** The body of the inner loop, in iteration [k]. *)
Definition download_ward (k : nat) (id : Z) (w : world)
  : exception + world :=
  (* print(id) *)
  let w := World (stdout w ++ [id]) (files w) in
  match urlopen_read k (url id) with
  | inl e => inl e
  | inr kml =>
      match placemark_text kml with
      | inl e => inl e
      | inr dist_name =>
          let filename := Path (kml_path dist_name) in
          (* filename.write_bytes(kml) *)
          match write_error k filename with
          | Some e => inl e
          | None => inr (World (stdout w) (<[filename := kml]> (files w)))
          end
      end
  end.

(** [for id in range(kml_start, kml_end+1): ...], from iteration [k] on;
    the result carries the number of the next iteration. *)
Fixpoint download_range (k : nat) (ids : list Z) (w : world)
  : exception + (nat * world) :=
  match ids with
  | [] => inr (k, w)
  | id :: ids' =>
      match download_ward k id w with
      | inl e => inl e
      | inr w' => download_range (S k) ids' w'
      end
  end.

(** [for district, (kml_start, kml_end) in doogal_dict.items(): ...] *)
Fixpoint download_districts (k : nat)
    (doogal_dict : list (string * (Z * Z))) (w : world)
  : exception + (nat * world) :=
  match doogal_dict with
  | [] => inr (k, w)
  | (district, (kml_start, kml_end)) :: rest =>
      match download_range k (range kml_start (kml_end + 1)) w with
      | inl e => inl e
      | inr (k', w') => download_districts k' rest w'
      end
  end.

(** [download_district_kml(doogal_dict)] *)
Definition download_district_kml (doogal_dict : list (string * (Z * Z)))
    (w : world) : exception + world :=
  match download_districts O doogal_dict w with
  | inl e => inl e
  | inr (_, w') => inr w'
  end.

End Download.

End Utils.

(** ** Stand-ins for nltk

    Used where a property has to be evaluated on concrete text. *)

Module Nltk.

Fixpoint split_blank_aux (cur : string) (s : string) : list string :=
  match s with
  | EmptyString =>
      match cur with EmptyString => [] | _ => [cur] end
  | String c s' =>
      if Ascii.eqb c " " then
        match cur with
        | EmptyString => split_blank_aux EmptyString s'
        | _ => cur :: split_blank_aux EmptyString s'
        end
      else split_blank_aux (cur ++ String c EmptyString) s'
  end.

(** [word_tokenize] on text made of letters and blanks: the words between
    the blanks. *)
Definition split_blank (s : string) : list string :=
  split_blank_aux EmptyString s.

(** The English stop list of the stopwords corpus. *)
Definition english_stopwords : list string :=
  ["i"; "me"; "my"; "myself"; "we"; "our"; "ours"; "ourselves"; "you";
   "you're"; "you've"; "you'll"; "you'd"; "your"; "yours"; "yourself";
   "yourselves"; "he"; "him"; "his"; "himself"; "she"; "she's"; "her";
   "hers"; "herself"; "it"; "it's"; "its"; "itself"; "they"; "them";
   "their"; "theirs"; "themselves"; "what"; "which"; "who"; "whom"; "this";
   "that"; "that'll"; "these"; "those"; "am"; "is"; "are"; "was"; "were";
   "be"; "been"; "being"; "have"; "has"; "had"; "having"; "do"; "does";
   "did"; "doing"; "a"; "an"; "the"; "and"; "but"; "if"; "or"; "because";
   "as"; "until"; "while"; "of"; "at"; "by"; "for"; "with"; "about";
   "against"; "between"; "into"; "through"; "during"; "before"; "after";
   "above"; "below"; "to"; "from"; "up"; "down"; "in"; "out"; "on"; "off";
   "over"; "under"; "again"; "further"; "then"; "once"; "here"; "there";
   "when"; "where"; "why"; "how"; "all"; "any"; "both"; "each"; "few";
   "more"; "most"; "other"; "some"; "such"; "no"; "nor"; "not"; "only";
   "own"; "same"; "so"; "than"; "too"; "very"; "s"; "t"; "can"; "will";
   "just"; "don"; "don't"; "should"; "should've"; "now"; "d"; "ll"; "m";
   "o"; "re"; "ve"; "y"; "ain"; "aren"; "aren't"; "couldn"; "couldn't";
   "didn"; "didn't"; "doesn"; "doesn't"; "hadn"; "hadn't"; "hasn"; "hasn't";
   "haven"; "haven't"; "isn"; "isn't"; "ma"; "mightn"; "mightn't"; "mustn";
   "mustn't"; "needn"; "needn't"; "shan"; "shan't"; "shouldn"; "shouldn't";
   "wasn"; "wasn't"; "weren"; "weren't"; "won"; "won't"; "wouldn";
   "wouldn't"].

End Nltk.

(** ** Row-wise reading of the table statements

    Every statement of [modify_wards] and [group_animals] acts on each row
    independently; the definitions below give the effect on one row and are
    shown further down to agree with the table functions. *)

Module Views.
Import Frame Utils.

(** One row of [df.loc[test(df[src]), dst] = v] *)
Definition row_step (test : cell -> bool) (src dst : string) (v : cell)
    (r : row) : row :=
  set_where (test (get r src)) dst v r.

(** A renaming rule on a ward cell. *)
Definition rule (names : list string) (new : string) (c : cell) : cell :=
  if isin_str names c then Str new else c.

(** The renaming statements of [modify_wards], in order. *)
Definition ward_rules : list (list string * string) :=
  [ (["St. Peter's"; "St Peter's"], "St Peters");
    (["St. Michael's"], "St Michael's");
    (["St. Pauls"], "St Pauls");
    (["Bushbury South and Low Hill"], "Bushbury South & Low Hill");
    (["Bournville"], "Bournville & Cotteridge");
    (["Spring Vale"], "Ettingshall South & Spring Vale");
    (["Longbridge"], "Longbridge & West Heath");
    (["Sparkbrook"], "Sparkbrook & Balsall Heath East");
    (["Hodge Hill"], "Bromford & Hodge Hill");
    (["Moseley and Kings Heath"], "Moseley");
    (["Brandwood"], "Brandwood & King's Heath");
    (["Soho"], "Soho & Jewellery Quarter");
    (["Bilston East"], "Bilston South");
    (["Lozells and East Handsworth"], "Lozells");
    (["Ettingshall"], "Ettingshall North");
    (["Stechford and Yardley North"], "Yardley West & Stechford");
    (["Washwood Heath"], "Bromford & Hodge Hill");
    (["Sutton New Hall"], "Sutton Walmley & Minworth");
    (["Springfield"], "Hall Green North");
    (["Hall Green"], "Hall Green South");
    (["Kings Norton"], "King's Norton South");
    (["Tyburn"], "Erdington");
    (["Weoley"; "Selly Oak"], "Weoley & Selly Oak") ].

Definition apply_rules (rules : list (list string * string)) (c : cell)
  : cell :=
  fold_left (fun c e => rule (fst e) (snd e) c) rules c.

(** The ward cell of a row after [modify_wards]. *)
Definition normalize (c : cell) : cell :=
  apply_rules ward_rules (str_replace " Ward" "" c).

(** A row after [modify_wards]. *)
Definition modify_row (r : row) : row :=
  let w := normalize (get r "Ward") in
  set_where (eq_str "Tipton Green" w) "District" (Str "Sandwell")
    (<["Ward" := w]> r).

(** The renaming rules on a ward name. *)
Definition rename_names (rules : list (list string * string)) (s : string)
  : string :=
  fold_left
    (fun s e => if existsb (String.eqb s) (fst e) then snd e else s)
    rules s.

Definition sources (rules : list (list string * string)) : list string :=
  flat_map fst rules.

(** A ward cell is settled when one removal of " Ward" leaves no further
    occurrence behind. *)
Definition settled (c : cell) : bool :=
  match c with
  | Str s => negb (Text.contains " Ward" (Text.replace " Ward" "" s))
  | _ => true
  end.

Definition is_str (c : cell) : bool :=
  match c with
  | Str _ => true
  | _ => false
  end.

Definition is_datetime (c : cell) : bool :=
  match c with
  | Stamp _ | NaN => true
  | _ => false
  end.

Definition as_stamp (c : cell) : option timestamp :=
  match c with
  | Stamp t => Some t
  | _ => None
  end.

(** The columns that [add_time_dimensions] writes. *)
Definition derived_columns : list string :=
  ["fin_year"; "month"; "week"; "weekday"; "BH_or_WE"].

(** One row of [add_time_dimensions], given the holidays of the years that
    the table spans. *)
Definition time_row (eng_hol : list (Z * Z * Z)) (date_col : string)
    (r : row) : row :=
  let d := as_stamp (get r date_col) in
  let r :=
    <["fin_year" := Int (default (-1) (option_map (Calendar.qyear 3) d) - 1)]>
      r in
  let r := <["month" := of_stamp (option_map Calendar.month_start d)]> r in
  let r := <["week" := of_stamp (option_map Calendar.week_start d)]> r in
  let r := <["weekday" := of_int (option_map Calendar.day_of_week d)]> r in
  let r := <["BH_or_WE" := Str "No"]> r in
  let r :=
    set_where (isin_int [5; 6] (get r "weekday")) "BH_or_WE" (Str "Weekend")
      r in
  set_where (is_holiday eng_hol d) "BH_or_WE" (Str "Bank Holiday") r.

(** The description matches a keyword list: the mask of [group_animals]. *)
Definition matches (keyword_list : list string) (c : cell) : bool :=
  default false
    (str_contains (String.concat "|" keyword_list) (str_lower c)).

(** One row of [group_animals]. *)
Definition tag_row (lex : list (string * list string)) (desc_col : string)
    (r : row) : row :=
  fold_left
    (fun r e => row_step (matches (snd e)) desc_col "animal" (Str (fst e)) r)
    lex r.

(** The lowercased description [s] contains one of the keywords. *)
Definition mentions (s : string) (keyword_list : list string) : Prop :=
  exists k, In k keyword_list /\ Text.contains k (Text.lower s) = true.

(** [a] is the last category of the lexicon with a keyword in [s]. *)
Definition last_category (lex : list (string * list string)) (s a : string)
  : Prop :=
  exists l1 kws l2,
    lex = (l1 ++ (a, kws) :: l2)%list /\ mentions s kws /\
    Forall (fun e => ~ mentions s (snd e)) l2.

(** [a] is the one category of the lexicon with a keyword in [s]. *)
Definition only_category (lex : list (string * list string)) (s a : string)
  : Prop :=
  (exists kws, In (a, kws) lex /\ mentions s kws) /\
  (forall b kws, In (b, kws) lex -> mentions s kws -> b = a).

Definition no_category (lex : list (string * list string)) (s : string)
  : Prop :=
  forall b kws, In (b, kws) lex -> ~ mentions s kws.

(** Keyword lists that are not empty and hold literal text only. *)
Definition lexicon_ok (lex : list (string * list string)) : bool :=
  forallb
    (fun e =>
       match snd e with
       | [] => false
       | kws => forallb Text.literal kws
       end) lex.

(** A token is kept by [filter_stopwords]. *)
Definition kept (stopwords_english : list string) (word : string) : bool :=
  negb (existsb (String.eqb (Text.casefold word)) stopwords_english).

(** Number of occurrences of a window in a list of windows. *)
Definition occurrences (w : list string) (l : list (list string)) : nat :=
  List.length (List.filter (gram_eqb w) l).

(** The windows of all records, in order: what [ngram_counts] counts. *)
Definition all_ngrams (word_tokenize : string -> list string)
    (stopwords_english : list string) (n : nat) (values : list cell)
  : list (list string) :=
  concat
    (map (fun c =>
            match c with
            | Str q =>
                get_ngrams (filter_stopwords word_tokenize stopwords_english q)
                  n
            | _ => []
            end) values).

(** The windows of [n] consecutive items of a list, from left to right;
    there is none for [n = 0]. *)
Definition windows {A} (n : nat) (s : list A) : list (list A) :=
  match n with
  | O => []
  | S _ => map (fun i => take n (drop i s)) (seq 0 (List.length s + 1 - n))
  end.

(** The windows over the tokens of every description that are no stop word
    up to letter case, the tokens as they are written, in the order of the
    records. *)
Definition counted_windows (word_tokenize : string -> list string)
    (stopwords_english : list string) (n : nat) (values : list cell)
  : list (list string) :=
  concat
    (map (fun c =>
            match c with
            | Str q =>
                windows n
                  (List.filter (kept stopwords_english) (word_tokenize q))
            | _ => []
            end) values).

(** Two descriptions with the same tokens up to letter case. *)
Definition same_words (word_tokenize : string -> list string) (c1 c2 : cell)
  : Prop :=
  exists q1 q2,
    c1 = Str q1 /\ c2 = Str q2 /\
    map Text.casefold (word_tokenize q1)
    = map Text.casefold (word_tokenize q2).

(** The incident table has a row of the given fiscal year that enters the
    grouping. *)
Definition has_year (y : Z) (inc_data : frame) : bool :=
  existsb
    (fun r =>
       match group_key r with
       | Some (y', _, _) => y' =? y
       | None => false
       end) inc_data.

(** The value of a fiscal-year cell of a joined row, a missing one read
    as 0. *)
Definition cell_value {geometry} (r : joined_row geometry) (y : Z) : Z :=
  default 0 (mjoin (assoc Z.eqb y (j_years r))).

(** A joined row is consistent: its total is the sum of its fiscal-year
    cells, none of which is negative. *)
Definition joined_ok {geometry} (years : list Z) (r : joined_row geometry)
  : Prop :=
  default 0 (j_Total_Incidents r) = sum (map (cell_value r) years) /\
  forall y, 0 <= cell_value r y.

(** A dissolved row carries one non-negative count per fiscal year, and
    their sum as its total. *)
Definition map_ok {geometry} (years : list Z) (r : map_row geometry)
  : Prop :=
  exists h : Z -> Z,
    m_years r = map (fun y => (y, h y)) years /\
    m_Total_Incidents r = sum (map h years) /\
    forall y, 0 <= h y.

(** What holds of every row returned by [combine_maps_w_data]. *)
Definition out_ok {geometry} (census_data : list (string * option Z))
    (r : out_row geometry) : Prop :=
  sum (map snd (year_columns r)) = Total_Incidents r /\
  exists c2021 c2022,
    assoc label_eqb (LStr "2021") (year_columns r) = Some c2021 /\
    assoc label_eqb (LStr "2022") (year_columns r) = Some c2022 /\
    0 <= c2021 /\ 0 <= c2022 /\
    (exists is_int64,
       Incidents_per_10000 r
       = inc_per_pop is_int64 c2021 c2022 (Population_Census_2021 r)) /\
    (~ In (Ward r) (map fst census_data) -> Population_Census_2021 r = 0).

(** The text holds an uppercase letter. *)
Fixpoint has_upper (s : string) : bool :=
  match s with
  | EmptyString => false
  | String c s' => Text.is_upper c || has_upper s'
  end.

(** The rule of [modify_wards] that names [s], if any. *)
Definition lookup_rule (s : string) : option string :=
  option_map snd
    (List.find (fun e => existsb (String.eqb s) (fst e)) ward_rules).

(** The renaming statements with the tested ward cell [w0] held fixed, as
    they act on the cell [c] of another column. *)
Definition apply_rules_on (rules : list (list string * string))
    (w0 c : cell) : cell :=
  fold_left (fun c e => if isin_str (fst e) w0 then Str (snd e) else c)
    rules c.

(** The new name given by the last statement that names the ward cell
    [w0], if any. *)
Definition last_rule (rules : list (list string * string)) (w0 : cell)
  : option string :=
  fold_left (fun acc e => if isin_str (fst e) w0 then Some (snd e) else acc)
    rules None.

(** A row after [modify_wards] with a ward column other than "Ward". *)
Definition modify_row_into (ward_col : string) (r : row) : row :=
  let w0 := get r "Ward" in
  let r :=
    <[ward_col := apply_rules_on ward_rules w0 (str_replace " Ward" "" w0)]>
      r in
  set_where (eq_str "Tipton Green" (get r "Ward")) "District"
    (Str "Sandwell") r.

(** The ward name of a boundary as [combine_maps_w_data] keys it: without
    apostrophes, and "Ettingshall" for every name that contains it. *)
Definition collapse_ward (w : string) : string :=
  let w := Text.replace "'" "" w in
  if Text.re_search "Ettingshall" w then "Ettingshall" else w.

(** Number of grouped incidents of fiscal year [y] in ward [w]. *)
Definition incidents_in (inc_data : frame) (y : Z) (w : string) : Z :=
  Z.of_nat
    (List.length
       (List.filter
          (fun r =>
             match group_key r with
             | Some (y', _, w') => (y' =? y) && String.eqb w' w
             | None => false
             end) inc_data)).

(** A list in strictly increasing order of [cmp]. *)
Fixpoint ascending {A} (cmp : A -> A -> comparison) (l : list A) : bool :=
  match l with
  | [] => true
  | x :: l' =>
      forallb (fun y => match cmp x y with Lt => true | _ => false end) l'
      && ascending cmp l'
  end.

(** The boundary rows that [combine_maps_w_data] merges into ward [w]. *)
Definition pieces {geometry} (kml_data : list (kml_row geometry))
    (w : string) : list (kml_row geometry) :=
  List.filter (fun k => String.eqb (collapse_ward (kml_Ward k)) w) kml_data.

(** Number of grouped incidents of fiscal year [y] counted for ward [w]:
    every boundary row merged into [w] brings the incidents recorded under
    its own name. *)
Definition ward_count {geometry} (kml_data : list (kml_row geometry))
    (inc_data : frame) (w : string) (y : Z) : Z :=
  sum (map (fun k => incidents_in inc_data y (kml_Ward k))
         (pieces kml_data w)).

(** The (district, ward) pairs with a grouped incident, in increasing
    order: the index of the pivot. *)
Definition pivot_index (inc_data : frame) : list (string * string) :=
  sorted_unique (lexico String.compare String.compare)
    (map (fun kv => (snd (fst (fst kv)), snd (fst kv)))
       (groupby_size inc_data)).

(** The districts in which ward [w] has grouped incidents. *)
Definition districts_of (inc_data : frame) (w : string) : list string :=
  map fst (List.filter (fun dw => String.eqb (snd dw) w)
             (pivot_index inc_data)).

(** A list of counts in non-increasing order. *)
Fixpoint descending (l : list nat) : bool :=
  match l with
  | [] => true
  | x :: l' => forallb (fun y => (y <=? x)%nat) l' && descending l'
  end.

(** The identifiers that [download_district_kml] walks through, in order. *)
Definition ward_ids (doogal_dict : list (string * (Z * Z))) : list Z :=
  flat_map (fun e => range (fst (snd e)) (snd (snd e) + 1)) doogal_dict.

(** What iteration [k] does for the identifier [id]: the exception it
    raises, or the file it writes with its content. *)
Definition outcome {P exception : Type}
    (urlopen_read : nat -> string -> exception + list Byte.byte)
    (placemark_text : list Byte.byte -> exception + option string)
    (Path : string -> P) (write_error : nat -> P -> option exception)
    (k : nat) (id : Z) : exception + (P * list Byte.byte) :=
  match urlopen_read k (url id) with
  | inl e => inl e
  | inr kml =>
      match placemark_text kml with
      | inl e => inl e
      | inr dist_name =>
          match write_error k (Path (kml_path dist_name)) with
          | Some e => inl e
          | None => inr (Path (kml_path dist_name), kml)
          end
      end
  end.

End Views.

(** ** Tables used as concrete instances *)

Module Examples.
Import Frame.

Definition wards : frame :=
  [ {[ "Ward" := Str "Hall Green Ward"; "District" := Str "Birmingham" ]};
    {[ "Ward" := Str "Tipton Green Ward"; "District" := Str "Dudley" ]};
    {[ "Ward" := NaN; "District" := Str "Walsall" ]} ].

Definition unsettled : frame :=
  [ {[ "Ward" := Str "Tipton Green W Wardard"; "District" := Str "Dudley" ]} ].

Definition hall_green : row := {[ "Ward" := Str "Hall Green Ward" ]}.

Definition east_ward_park : frame := [ {[ "Ward" := Str "East Ward Park" ]} ].

Definition bournville : row :=
  {[ "Ward" := Str "Bournville"; "District" := Str "Birmingham";
     "Incident Detail" := Str "cat in tree" ]}.

Definition friday : row :=
  {[ "Incdate" := Stamp (Timestamp 2020 3 27 0);
     "Incident Detail" := Str "stray dog seen near park" ]}.

Definition catapult : row :=
  {[ "Incident Detail" := Str "Stray DOG seen near catapult" ]}.

Definition cat_upper : row := {[ "Incident Detail" := Str "Cat stuck in the Tree" ]}.

Definition cat_lower : row := {[ "Incident Detail" := Str "cat stuck in THE tree" ]}.

Definition pigeon : row :=
  {[ "Incident Detail" := Str "Pigeon trapped in netting" ]}.

Definition bournville_ward : row :=
  {[ "Ward" := Str "Bournville Ward"; "District" := Str "Birmingham" ]}.

Definition undated : row :=
  {[ "Incdate" := NaN; "Incident Detail" := NaN ]}.

(** Incidents of the fiscal years 2021 and 2022 in three wards. *)
Definition incidents : frame :=
  [ {[ "fin_year" := Int 2021; "District" := Str "Sandwell";
       "Ward" := Str "Tipton Green" ]};
    {[ "fin_year" := Int 2022; "District" := Str "Sandwell";
       "Ward" := Str "Tipton Green" ]};
    {[ "fin_year" := Int 2022; "District" := Str "Wolverhampton";
       "Ward" := Str "Ettingshall North" ]};
    {[ "fin_year" := Int 2013; "District" := Str "Wolverhampton";
       "Ward" := Str "Ettingshall South & Spring Vale" ]} ].

(** Boundaries, with the list of their pieces as geometry. *)
Definition boundaries : list (Utils.kml_row (list nat)) :=
  [ Utils.KmlRow "Tipton Green" [1%nat];
    Utils.KmlRow "Ettingshall North" [2%nat];
    Utils.KmlRow "Ettingshall South & Spring Vale" [3%nat];
    Utils.KmlRow "King's Norton South" [4%nat] ].

Definition census : list (string * option Z) :=
  [ ("Tipton Green", Some 10000) ].

(** One district with a range of two identifiers. *)
Definition coventry : list (string * (Z * Z)) :=
  [ ("Coventry", (5001218, 5001219)) ].

(** A ward drawn as two boundary rows of the same name. *)
Definition two_pieces : list (Utils.kml_row (list nat)) :=
  [ Utils.KmlRow "Tipton Green" [1%nat];
    Utils.KmlRow "Tipton Green" [5%nat] ].

End Examples.

(** * Properties *)

Import Frame Utils Views.

(** ** Text *)

Section TextFacts.

#[local] Arguments String.append : simpl nomatch.

Lemma contains_cons_false p c s :
  Text.contains p (String c s) = false ->
  String.prefix p (String c s) = false /\ Text.contains p s = false.
Proof.
  cbn [Text.contains].
  destruct (String.prefix p (String c s)); [discriminate | auto].
Qed.

Lemma replace_from_absent old new s :
  Text.contains old s = false -> Text.replace_from old new O s = s.
Proof.
  induction s as [|c s IH]; intros H; [reflexivity|].
  apply contains_cons_false in H as [Hp Hs].
  cbn [Text.replace_from]. rewrite Hp. f_equal. auto.
Qed.

(** A text without the pattern is left as it is. *)
Lemma replace_absent old new s :
  old <> EmptyString ->
  Text.contains old s = false -> Text.replace old new s = s.
Proof.
  intros Hne H. unfold Text.replace.
  destruct old; [congruence|]. by apply replace_from_absent.
Qed.

Lemma replace_from_length old k s :
  (String.length (Text.replace_from old "" k s) <= String.length s)%nat.
Proof.
  revert k. induction s as [|c s IH]; intros k; [done|].
  cbn [Text.replace_from]. destruct k as [|k].
  - destruct (String.prefix old (String c s)).
    + change ("" ++ ?x) with x. specialize (IH (Nat.pred (String.length old))).
      simpl. lia.
    + specialize (IH O). simpl. lia.
  - specialize (IH k). simpl. lia.
Qed.

(** Removing a pattern that occurs makes the text shorter. *)
Lemma replace_from_present old s :
  old <> EmptyString ->
  Text.contains old s = true ->
  (String.length (Text.replace_from old "" O s) < String.length s)%nat.
Proof.
  intros Hne. induction s as [|c s IH]; cbn [Text.contains Text.replace_from].
  - destruct old; [congruence | discriminate].
  - destruct (String.prefix old (String c s)) eqn:E.
    + intros _. change ("" ++ ?x) with x.
      pose proof (replace_from_length old (Nat.pred (String.length old)) s).
      simpl. lia.
    + intros H. specialize (IH H). simpl. lia.
Qed.

Lemma replace_present old s :
  old <> EmptyString ->
  Text.contains old s = true -> Text.replace old "" s <> s.
Proof.
  intros Hne H Heq. unfold Text.replace in Heq.
  destruct old as [|a old]; [congruence|].
  pose proof (replace_from_present _ _ Hne H) as Hlt.
  rewrite Heq in Hlt. lia.
Qed.

Lemma prefix_length p s :
  String.prefix p s = true -> (String.length p <= String.length s)%nat.
Proof.
  revert s. induction p as [|a p IH]; intros [|b s]; simpl; try lia;
    try discriminate.
  destruct (ascii_dec a b); [|discriminate]. intros H. apply IH in H. lia.
Qed.

(** A match of " Ward" cannot run into a " Ward" that follows the text. *)
Lemma prefix_ward_app q :
  q <> EmptyString ->
  String.prefix " Ward" (q ++ " Ward") = String.prefix " Ward" q.
Proof.
  intros Hq.
  destruct q as [|c1 [|c2 [|c3 [|c4 [|c5 q]]]]]; [congruence| | | | |];
    cbn -[ascii_dec];
    repeat match goal with
           | |- context [ascii_dec ?a ?b] =>
               destruct (ascii_dec a b); try subst; cbn -[ascii_dec];
               try congruence
           end.
  all: destruct q; reflexivity.
Qed.

Lemma replace_from_ward_app k p :
  (k <= String.length p)%nat ->
  Text.replace_from " Ward" "" k (p ++ " Ward")
  = Text.replace_from " Ward" "" k p.
Proof.
  revert k. induction p as [|c p IH]; intros k Hk.
  - assert (k = O) as -> by (simpl in Hk; lia). reflexivity.
  - cbn [String.append Text.replace_from]. destruct k as [|k].
    + change (String c (p ++ " Ward")) with (String c p ++ " Ward").
      rewrite prefix_ward_app by discriminate.
      destruct (String.prefix " Ward" (String c p)) eqn:Hp.
      * apply prefix_length in Hp. simpl in Hp.
        rewrite IH; [reflexivity | simpl; lia].
      * rewrite IH; [reflexivity | lia].
    + apply IH. simpl in Hk. lia.
Qed.

(** Removing " Ward" everywhere always takes a trailing " Ward" away. *)
Lemma replace_ward_suffix p :
  Text.replace " Ward" "" (p ++ " Ward") = Text.replace " Ward" "" p.
Proof. apply replace_from_ward_app. lia. Qed.

Lemma literal_no_bar c s :
  Text.literal (String c s) = true ->
  Ascii.eqb c "|" = false /\ Text.literal s = true.
Proof.
  cbn [Text.literal]. intros [Hc Hs]%andb_true_iff. split; [|done].
  destruct (Ascii.eqb_spec c "|") as [->|]; [discriminate | done].
Qed.

Lemma alternatives_nonempty pat : Text.alternatives pat <> [].
Proof.
  induction pat as [|c pat IH]; cbn [Text.alternatives]; [done|].
  destruct (Ascii.eqb c "|"); [done|].
  destruct (Text.alternatives pat); done.
Qed.

Lemma alternatives_literal k :
  Text.literal k = true -> Text.alternatives k = [k].
Proof.
  induction k as [|c k IH]; [reflexivity|].
  intros [Hc Hk]%literal_no_bar. cbn [Text.alternatives].
  rewrite Hc, (IH Hk). reflexivity.
Qed.

Lemma alternatives_literal_bar k pat :
  Text.literal k = true ->
  Text.alternatives (k ++ String "|" pat) = k :: Text.alternatives pat.
Proof.
  induction k as [|c k IH]; [reflexivity|].
  intros [Hc Hk]%literal_no_bar. cbn [String.append Text.alternatives].
  rewrite Hc, (IH Hk). reflexivity.
Qed.

(** Joining literal keywords with "|" and reading the result back as a
    pattern gives the keywords again. *)
Lemma alternatives_join kws :
  kws <> [] -> forallb Text.literal kws = true ->
  Text.alternatives (String.concat "|" kws) = kws.
Proof.
  induction kws as [|k kws IH]; [done|]. intros _.
  cbn [forallb]. intros [Hk Hkws]%andb_true_iff.
  destruct kws as [|k' kws].
  - simpl. by apply alternatives_literal.
  - cbn [String.concat]. cbn [String.concat] in IH.
    change (k ++ "|" ++ ?x) with (k ++ String "|" x).
    rewrite alternatives_literal_bar by done. f_equal. by apply IH.
Qed.

Lemma re_search_join kws s :
  kws <> [] -> forallb Text.literal kws = true ->
  Text.re_search (String.concat "|" kws) s
  = existsb (fun k => Text.contains k s) kws.
Proof.
  intros. unfold Text.re_search. by rewrite alternatives_join.
Qed.

End TextFacts.

(** ** Tables, row by row *)

Section FrameFacts.

Lemma get_insert_eq (r : row) k c : get (<[k := c]> r) k = c.
Proof. unfold get. by rewrite lookup_insert_eq. Qed.

Lemma get_insert_ne (r : row) k k' c :
  k <> k' -> get (<[k := c]> r) k' = get r k'.
Proof. intros. unfold get. by rewrite lookup_insert_ne. Qed.

Lemma get_set_where_ne b k v (r : row) k' :
  k <> k' -> get (set_where b k v r) k' = get r k'.
Proof.
  intros. unfold set_where. destruct b; [by apply get_insert_ne|].
  destruct (r !! k); [done | by apply get_insert_ne].
Qed.

Lemma get_set_where b k v (r : row) :
  get (set_where b k v r) k = if b then v else get r k.
Proof.
  unfold set_where. destruct b; [by apply get_insert_eq|].
  destruct (r !! k) eqn:E; [done|].
  rewrite get_insert_eq. unfold get. by rewrite E.
Qed.

Lemma lookup_set_where_ne b k v (r : row) k' :
  k <> k' -> set_where b k v r !! k' = r !! k'.
Proof.
  intros. unfold set_where. destruct b; [by rewrite lookup_insert_ne|].
  destruct (r !! k); [done | by rewrite lookup_insert_ne].
Qed.

Lemma zip_with_map_diag {A B C} (f : B -> A -> C) (g : A -> B) (l : list A) :
  zip_with f (map g l) l = map (fun x => f (g x) x) l.
Proof. induction l as [|x l IH]; simpl; [done | by rewrite IH]. Qed.

(** [df.loc[test(df[src]), dst] = v] acts on every row by itself. *)
Lemma loc_set_rowwise test src dst v (df : frame) :
  loc_set (map test (col df src)) dst v df = map (row_step test src dst v) df.
Proof.
  unfold loc_set, col. rewrite map_map.
  apply (zip_with_map_diag (fun b r => set_where b dst v r)).
Qed.

Lemma set_col_rowwise f src dst (df : frame) :
  set_col dst (map f (col df src)) df
  = map (fun r => <[dst := f (get r src)]> r) df.
Proof.
  unfold set_col, col. rewrite map_map.
  apply (zip_with_map_diag (fun v r => <[dst := v]> r)).
Qed.

Lemma rename_eq_rowwise name c new (df : frame) :
  rename_eq name c new df
  = map (row_step (isin_str [name]) "Ward" c (Str new)) df.
Proof.
  unfold rename_eq. rewrite loc_set_rowwise. apply map_ext. intros r.
  unfold row_step, isin_str. simpl. by rewrite orb_false_r.
Qed.

Lemma rename_in_rowwise names c new (df : frame) :
  rename_in names c new df
  = map (row_step (isin_str names) "Ward" c (Str new)) df.
Proof. unfold rename_in. apply loc_set_rowwise. Qed.

Lemma row_step_rule names k new c (r : row) :
  row_step (isin_str names) k k (Str new) (<[k := c]> r)
  = <[k := rule names new c]> r.
Proof.
  unfold row_step, rule, set_where. rewrite get_insert_eq.
  destruct (isin_str names c).
  - apply insert_insert_eq.
  - by rewrite lookup_insert_eq.
Qed.

(** [modify_wards], with the default ward column, row by row. *)
Lemma modify_wards_rowwise (df : frame) :
  modify_wards df "Ward" = map modify_row df.
Proof.
  unfold modify_wards. cbv zeta.
  rewrite loc_set_rowwise.
  rewrite !rename_eq_rowwise, !rename_in_rowwise.
  repeat (rewrite rename_eq_rowwise || rewrite rename_in_rowwise).
  unfold strip_ward. rewrite set_col_rowwise.
  rewrite !map_map. apply map_ext. intros r. cbv beta.
  repeat rewrite row_step_rule.
  unfold row_step. rewrite get_insert_eq.
  unfold modify_row, normalize, apply_rules, ward_rules.
  cbn [fold_left fst snd]. reflexivity.
Qed.

End FrameFacts.

(** ** Ward names *)

Section WardFacts.

#[local] Arguments String.append : simpl nomatch.

Lemma ends_with_spec suffix s :
  Text.ends_with suffix s = true <-> exists p, s = p ++ suffix.
Proof.
  induction s as [|c s IH]; cbn [Text.ends_with].
  - rewrite orb_false_r, String.eqb_eq.
    split; [intros <-; by exists "" | intros [[|] H]; simpl in H; congruence].
  - rewrite orb_true_iff, String.eqb_eq, IH. split.
    + intros [<- | [p ->]]; [by exists "" | by exists (String c p)].
    + intros [[|c' p] H]; simpl in H; [by left|].
      right. exists p. congruence.
Qed.

Lemma isin_str_not_str names c :
  is_str c = false -> isin_str names c = false.
Proof.
  intros H. unfold isin_str. induction names as [|n names IH]; [done|].
  simpl. rewrite IH. by destruct c.
Qed.

Lemma apply_rules_not_str rules c :
  is_str c = false -> apply_rules rules c = c.
Proof.
  intros H. induction rules as [|e rules IH]; [done|].
  unfold apply_rules in *. simpl. unfold rule at 2.
  by rewrite isin_str_not_str.
Qed.

Lemma apply_rules_str rules s :
  apply_rules rules (Str s) = Str (rename_names rules s).
Proof.
  revert s. induction rules as [|e rules IH]; intros s; [done|].
  unfold apply_rules, rename_names in *. simpl. unfold rule at 2.
  unfold isin_str. simpl.
  destruct (existsb (String.eqb s) e.1); apply IH.
Qed.

Lemma normalize_str s :
  normalize (Str s)
  = Str (rename_names ward_rules (Text.replace " Ward" "" s)).
Proof. apply apply_rules_str. Qed.

Lemma normalize_not_str c : is_str c = false -> normalize c = NaN.
Proof.
  intros H. unfold normalize.
  replace (str_replace " Ward" "" c) with NaN by (by destruct c).
  by apply apply_rules_not_str.
Qed.

(** A name that no rule mentions is left alone. *)
Lemma rename_names_other rules s :
  ~ In s (sources rules) -> rename_names rules s = s.
Proof.
  induction rules as [|e rules IH]; [done|]. intros Hs.
  unfold rename_names, sources in *. simpl in *.
  rewrite in_app_iff in Hs.
  destruct (existsb (String.eqb s) e.1) eqn:E.
  - apply existsb_exists in E as (n & Hn & ->%String.eqb_eq). tauto.
  - apply IH. tauto.
Qed.

(** The new names contain no " Ward" and are renamed no further. *)
Lemma targets_fixed :
  forallb
    (fun s =>
       let t := rename_names ward_rules s in
       String.eqb (Text.replace " Ward" "" t) t
       && String.eqb (rename_names ward_rules t) t)
    (sources ward_rules) = true.
Proof. vm_compute. reflexivity. Qed.

Lemma rename_names_stable y :
  Text.replace " Ward" "" y = y ->
  let t := rename_names ward_rules y in
  Text.replace " Ward" "" t = t /\ rename_names ward_rules t = t.
Proof.
  intros Hy t. subst t.
  destruct (in_dec string_dec y (sources ward_rules)) as [Hin|Hout].
  - pose proof targets_fixed as H.
    rewrite forallb_forall in H. specialize (H y Hin). cbv zeta in H.
    apply andb_true_iff in H as [H1 H2].
    by rewrite String.eqb_eq in H1, H2.
  - rewrite (rename_names_other _ _ Hout). split; [done|].
    by apply rename_names_other.
Qed.

Lemma normalize_idempotent c :
  settled c = true -> normalize (normalize c) = normalize c.
Proof.
  intros Hc.
  destruct (is_str c) eqn:E.
  2: { rewrite (normalize_not_str c E). by apply normalize_not_str. }
  destruct c as [|s|z|t]; try discriminate.
  simpl in Hc. apply negb_true_iff in Hc.
  rewrite !normalize_str.
  set (y := Text.replace " Ward" "" s) in *.
  assert (Hy : Text.replace " Ward" "" y = y) by (by apply replace_absent).
  destruct (rename_names_stable y Hy) as [H1 H2].
  by rewrite H1, H2.
Qed.

Lemma set_where_idempotent b k v (r : row) :
  set_where b k v (set_where b k v r) = set_where b k v r.
Proof.
  unfold set_where. destruct b; [apply insert_insert_eq|].
  destruct (r !! k) eqn:E; [by rewrite E|].
  by rewrite lookup_insert_eq.
Qed.

Lemma get_modify_row_ward (r : row) :
  get (modify_row r) "Ward" = normalize (get r "Ward").
Proof.
  unfold modify_row. cbv zeta.
  rewrite get_set_where_ne by done. apply get_insert_eq.
Qed.

Lemma modify_row_idempotent (r : row) :
  settled (get r "Ward") = true -> modify_row (modify_row r) = modify_row r.
Proof.
  intros Hs. unfold modify_row at 1. cbv zeta.
  rewrite get_modify_row_ward, (normalize_idempotent _ Hs).
  rewrite (insert_id (modify_row r)).
  - apply set_where_idempotent.
  - unfold modify_row. cbv zeta. rewrite lookup_set_where_ne by done.
    apply lookup_insert_eq.
Qed.

End WardFacts.

(** ** [modify_wards] *)

(** C3, as amended: [modify_wards] is idempotent on every table whose ward
    names are settled, that is, in which one removal of every " Ward" leaves
    no further " Ward" behind: applying it twice yields the same table, and
    so the same ward and district columns, as applying it once. *)
Theorem modify_wards_idempotent_settled (df : frame) :
  Forall (fun r => settled (get r "Ward") = true) df ->
  modify_wards (modify_wards df "Ward") "Ward" = modify_wards df "Ward".
Proof.
  intros H. rewrite !modify_wards_rowwise, map_map.
  apply map_ext_in. intros r Hr.
  apply modify_row_idempotent.
  rewrite List.Forall_forall in H. by apply H.
Qed.

Lemma modify_wards_idempotent_settled_witness :
  Forall (fun r => settled (get r "Ward") = true) Examples.wards /\
  modify_wards (modify_wards Examples.wards "Ward") "Ward"
  = modify_wards Examples.wards "Ward".
Proof.
  assert (H : Forall (fun r => settled (get r "Ward") = true) Examples.wards)
    by (repeat constructor).
  split; [exact H | exact (modify_wards_idempotent_settled _ H)].
Defined.

(** C3, as stated, fails: removing " Ward" from "Tipton Green W Wardard"
    leaves "Tipton Green Ward", which a second application rewrites again,
    and only then is the district forced. *)
Lemma modify_wards_not_idempotent :
  col (modify_wards (modify_wards Examples.unsettled "Ward") "Ward") "Ward"
    <> col (modify_wards Examples.unsettled "Ward") "Ward" /\
  col (modify_wards (modify_wards Examples.unsettled "Ward") "Ward")
    "District"
    <> col (modify_wards Examples.unsettled "Ward") "District".
Proof. split; vm_compute; discriminate. Qed.

(** C7, as amended: the first step of [modify_wards] removes every
    occurrence of " Ward" from every ward name.  A name is unchanged exactly
    when it does not contain " Ward"; a name that ends with " Ward" loses
    that suffix, together with the occurrences before it, so exactly the
    suffix when there are none. *)
Theorem strip_ward_removes_every_occurrence (df : frame) (i : nat) (r : row)
    (s : string) :
  df !! i = Some r -> get r "Ward" = Str s ->
  exists r',
    strip_ward df "Ward" !! i = Some r' /\
    get r' "Ward" = Str (Text.replace " Ward" "" s) /\
    (Text.contains " Ward" s = false -> get r' "Ward" = Str s) /\
    (Text.contains " Ward" s = true -> get r' "Ward" <> Str s) /\
    (Text.ends_with " Ward" s = true ->
     exists p, s = p ++ " Ward" /\
       get r' "Ward" = Str (Text.replace " Ward" "" p) /\
       (Text.contains " Ward" p = false -> get r' "Ward" = Str p)).
Proof.
  intros Hi Hs. unfold strip_ward. rewrite set_col_rowwise.
  eexists. split.
  { change map with (@fmap list _) at 1.
    rewrite list_lookup_fmap, Hi. reflexivity. }
  rewrite get_insert_eq, Hs. cbn [str_replace].
  split; [done|]. split; [|split].
  - intros H. by rewrite replace_absent.
  - intros H [= Heq]. by apply (replace_present " Ward" s).
  - intros [p ->]%ends_with_spec. exists p. split; [done|].
    rewrite replace_ward_suffix. split; [done|].
    intros H. by rewrite replace_absent.
Qed.

Lemma strip_ward_removes_every_occurrence_witness :
  exists r',
    strip_ward [Examples.hall_green] "Ward" !! O = Some r' /\
    get r' "Ward" = Str (Text.replace " Ward" "" "Hall Green Ward") /\
    (Text.contains " Ward" "Hall Green Ward" = false ->
     get r' "Ward" = Str "Hall Green Ward") /\
    (Text.contains " Ward" "Hall Green Ward" = true ->
     get r' "Ward" <> Str "Hall Green Ward") /\
    (Text.ends_with " Ward" "Hall Green Ward" = true ->
     exists p, "Hall Green Ward" = p ++ " Ward" /\
       get r' "Ward" = Str (Text.replace " Ward" "" p) /\
       (Text.contains " Ward" p = false -> get r' "Ward" = Str p)).
Proof.
  exact (strip_ward_removes_every_occurrence [Examples.hall_green] O
           Examples.hall_green "Hall Green Ward" eq_refl eq_refl).
Defined.

(** C7, as stated, fails: "East Ward Park" does not end with " Ward", yet
    the first step changes it. *)
Lemma strip_ward_changes_inner_occurrence :
  Text.ends_with " Ward" "East Ward Park" = false /\
  col Examples.east_ward_park "Ward" = [Str "East Ward Park"] /\
  col (strip_ward Examples.east_ward_park "Ward") "Ward"
    <> col Examples.east_ward_park "Ward".
Proof. split; [|split]; vm_compute; [reflexivity|reflexivity|discriminate]. Qed.

(** C8: [modify_wards] leaves every column other than the ward and the
    district as it was; the district of a record changes only when its ward
    is "Tipton Green", where it is forced to "Sandwell" whatever it was; a
    record with ward "Bournville" and district "Birmingham" comes out with
    ward "Bournville & Cotteridge" and district "Birmingham". *)
Theorem modify_wards_frame (df : frame) (i : nat) (r : row) :
  df !! i = Some r ->
  exists r',
    modify_wards df "Ward" !! i = Some r' /\
    (forall c, c <> "Ward" -> c <> "District" -> r' !! c = r !! c) /\
    get r' "District"
      = (if eq_str "Tipton Green" (get r' "Ward") then Str "Sandwell"
         else get r "District") /\
    (get r "Ward" = Str "Bournville" ->
     get r "District" = Str "Birmingham" ->
     get r' "Ward" = Str "Bournville & Cotteridge" /\
     get r' "District" = Str "Birmingham").
Proof.
  intros Hi. rewrite modify_wards_rowwise. exists (modify_row r).
  split.
  { change map with (@fmap list _). by rewrite list_lookup_fmap, Hi. }
  assert (HD : get (modify_row r) "District"
               = if eq_str "Tipton Green" (get (modify_row r) "Ward")
                 then Str "Sandwell" else get r "District").
  { rewrite get_modify_row_ward. unfold modify_row. cbv zeta.
    rewrite get_set_where. by rewrite get_insert_ne. }
  split; [|split; [exact HD|]].
  - intros c Hw Hd. unfold modify_row. cbv zeta.
    rewrite lookup_set_where_ne by done. by rewrite lookup_insert_ne.
  - intros Hw Hd. rewrite HD, get_modify_row_ward, Hw, Hd.
    split; vm_compute; reflexivity.
Qed.

Lemma modify_wards_frame_witness :
  exists r',
    modify_wards [Examples.bournville] "Ward" !! O = Some r' /\
    (forall c, c <> "Ward" -> c <> "District" ->
               r' !! c = Examples.bournville !! c) /\
    get r' "District"
      = (if eq_str "Tipton Green" (get r' "Ward") then Str "Sandwell"
         else get Examples.bournville "District") /\
    (get Examples.bournville "Ward" = Str "Bournville" ->
     get Examples.bournville "District" = Str "Birmingham" ->
     get r' "Ward" = Str "Bournville & Cotteridge" /\
     get r' "District" = Str "Birmingham").
Proof.
  exact (modify_wards_frame [Examples.bournville] O Examples.bournville
           eq_refl).
Defined.

(** The scenario of the specification: "St. Peter's Ward" is normalised to
    "St Peters". *)
Example st_peters_ward :
  col (modify_wards [ {[ "Ward" := Str "St. Peter's Ward" ]} ] "Ward") "Ward"
  = [Str "St Peters"].
Proof. vm_compute. reflexivity. Qed.

(** ** [add_time_dimensions] *)

Section TimeFacts.

Variable country_holidays : list Z -> list (Z * Z * Z).

Lemma dt_datetime (values : list cell) :
  Forall (fun c => is_datetime c = true) values ->
  dt values = Ok (map as_stamp values).
Proof.
  intros H. unfold dt.
  replace (forallb _ values) with true; [reflexivity|].
  symmetry. apply forallb_forall. intros c Hc.
  rewrite List.Forall_forall in H. specialize (H c Hc). by destruct c.
Qed.

Lemma col_map_preserved (F : row -> row) c (df : frame) :
  (forall r, get (F r) c = get r c) -> col (map F df) c = col df c.
Proof.
  intros H. unfold col. rewrite map_map. apply map_ext. intros r. apply H.
Qed.

Lemma stamp_min_some_acc l a : exists lo, fold_left
    (fun acc o =>
       match acc, o with
       | Some a, Some t => Some (if Calendar.stamp_leb a t then a else t)
       | None, _ => o
       | _, None => acc
       end) l (Some a) = Some lo.
Proof.
  revert a. induction l as [|o l IH]; intros a; [by eexists|].
  simpl. destruct o; apply IH.
Qed.

Lemma stamp_max_some_acc l a : exists hi, fold_left
    (fun acc o =>
       match acc, o with
       | Some a, Some t => Some (if Calendar.stamp_leb a t then t else a)
       | None, _ => o
       | _, None => acc
       end) l (Some a) = Some hi.
Proof.
  revert a. induction l as [|o l IH]; intros a; [by eexists|].
  simpl. destruct o; apply IH.
Qed.

(** With a timestamp in the column, its minimum and maximum exist. *)
Lemma stamp_min_some l t : In (Some t) l -> exists lo, stamp_min l = Some lo.
Proof.
  unfold stamp_min. induction l as [|o l IH]; [done|].
  intros [->|Hin]; simpl.
  - apply stamp_min_some_acc.
  - destruct o; [apply stamp_min_some_acc | by apply IH].
Qed.

Lemma stamp_max_some l t : In (Some t) l -> exists hi, stamp_max l = Some hi.
Proof.
  unfold stamp_max. induction l as [|o l IH]; [done|].
  intros [->|Hin]; simpl.
  - apply stamp_max_some_acc.
  - destruct o; [apply stamp_max_some_acc | by apply IH].
Qed.

Lemma bind_ok {A B} (a : A) (k : A -> result B) : (x ← Ok a; k x) = k a.
Proof. reflexivity. Qed.

Lemma zip_with_map2 {A B C D} (f : B -> C -> D) (h : A -> B) (F : A -> C)
    (l : list A) :
  zip_with f (map h l) (map F l) = map (fun x => f (h x) (F x)) l.
Proof. induction l as [|x l IH]; simpl; [done | by rewrite IH]. Qed.

Lemma set_col_dates g dst dc (F : row -> row) (df : frame) :
  set_col dst (map g (map as_stamp (col df dc))) (map F df)
  = map (fun r => <[dst := g (as_stamp (get r dc))]> (F r)) df.
Proof.
  unfold set_col, col. rewrite !map_map.
  apply (zip_with_map2 (fun v r => <[dst := v]> r)).
Qed.

Lemma loc_set_dates h dst v dc (F : row -> row) (df : frame) :
  loc_set (map h (map as_stamp (col df dc))) dst v (map F df)
  = map (fun r => set_where (h (as_stamp (get r dc))) dst v (F r)) df.
Proof.
  unfold loc_set, col. rewrite !map_map.
  apply (zip_with_map2 (fun b r => set_where b dst v r)).
Qed.

Lemma set_col_dates0 g dst dc (df : frame) :
  set_col dst (map g (map as_stamp (col df dc))) df
  = map (fun r => <[dst := g (as_stamp (get r dc))]> r) df.
Proof. rewrite map_map. apply (set_col_rowwise (fun c => g (as_stamp c))). Qed.

(** On a datetime column that holds a timestamp, [add_time_dimensions]
    returns, and its result is [time_row] on every row. *)
Lemma add_time_dimensions_rowwise (df : frame) (date_col : string) lo hi :
  ~ In date_col derived_columns ->
  Forall (fun c => is_datetime c = true) (col df date_col) ->
  stamp_min (map as_stamp (col df date_col)) = Some lo ->
  stamp_max (map as_stamp (col df date_col)) = Some hi ->
  add_time_dimensions country_holidays df date_col
  = Ok (map (time_row (country_holidays (range (year lo) (year hi + 1)))
               date_col) df).
Proof.
  intros Hcol Hdt Hlo Hhi.
  assert (Hne : forall c, In c derived_columns -> c <> date_col)
    by (intros c Hc ->; done).
  assert (H1 : "fin_year" <> date_col) by (apply Hne; simpl; tauto).
  assert (H2 : "month" <> date_col) by (apply Hne; simpl; tauto).
  assert (H3 : "week" <> date_col) by (apply Hne; simpl; tauto).
  assert (H4 : "weekday" <> date_col) by (apply Hne; simpl; tauto).
  assert (H5 : "BH_or_WE" <> date_col) by (apply Hne; simpl; tauto).
  unfold add_time_dimensions. cbv zeta.
  rewrite (dt_datetime _ Hdt), bind_ok.
  rewrite !set_col_dates0.
  do 4 (rewrite (col_map_preserved _ date_col)
          by (intros ?; rewrite ?get_set_where_ne, ?get_insert_ne by done;
              reflexivity);
        rewrite (dt_datetime _ Hdt), bind_ok; cbv beta;
        rewrite ?set_col_dates).
  rewrite Hlo, Hhi. rewrite map_map, loc_set_rowwise, map_map.
  rewrite (col_map_preserved _ date_col)
    by (intros ?; unfold row_step;
        rewrite ?get_set_where_ne, ?get_insert_ne by done; reflexivity).
  rewrite (dt_datetime _ Hdt), bind_ok.
  rewrite loc_set_dates. f_equal.
Qed.



End TimeFacts.



(** The scenario of the specification: an incident dated 2020-03-27 falls
    on a Friday of fiscal year 2019 and is neither weekend nor holiday. *)
Example friday_2020_03_27 :
  match add_time_dimensions (fun _ => [(2020, 4, 10)]) [Examples.friday]
          "Incdate" with
  | Ok df =>
      (col df "fin_year", col df "weekday", col df "BH_or_WE")
      = ([Int 2019], [Int 4], [Str "No"])
  | Raise _ => False
  end.
Proof. vm_compute. reflexivity. Qed.

(** ** [group_animals] *)

Section AnimalFacts.

Lemma loc_set_na_total (mask : list (option bool)) c v (df : frame) :
  df <> [] -> Forall is_Some mask ->
  loc_set_na mask c v df = Ok (loc_set (map (default false) mask) c v df).
Proof.
  intros Hdf H. unfold loc_set_na. destruct df as [|r0 df]; [done|].
  replace (forallb _ mask) with true; [reflexivity|].
  symmetry. apply forallb_forall. intros o Ho.
  rewrite List.Forall_forall in H. by destruct (H o Ho) as [b ->].
Qed.

Lemma loc_set_na_missing (mask : list (option bool)) c v (df : frame) :
  In None mask -> loc_set_na mask c v df = Raise ValueError.
Proof.
  intros H. unfold loc_set_na. destruct df as [|r0 df]; [done|].
  replace (forallb _ mask) with false; [reflexivity|].
  symmetry. apply not_true_is_false. rewrite forallb_forall.
  intros Hall. by specialize (Hall None H).
Qed.

Lemma str_step_preserved kws a c (r : row) :
  is_str (get r c) = true ->
  is_str (get (row_step (matches kws) c "animal" (Str a) r) c) = true.
Proof.
  intros H. unfold row_step.
  destruct (string_dec "animal" c) as [<-|Hne].
  - rewrite get_set_where. by destruct (matches kws _).
  - by rewrite get_set_where_ne.
Qed.

Lemma mask_matches kws (values : list cell) :
  map (default false)
    (map (str_contains (String.concat "|" kws)) (map str_lower values))
  = map (matches kws) values.
Proof. rewrite !map_map. reflexivity. Qed.

(** On a table with at least one record and every description a string,
    [group_animals] returns and acts on every row by itself. *)
Lemma group_animals_rowwise lex c (df : frame) :
  df <> [] ->
  Forall (fun r => is_str (get r c) = true) df ->
  group_animals df lex c = Ok (map (tag_row lex c) df).
Proof.
  revert df. induction lex as [|[a kws] lex IH]; intros df Hdf H.
  - simpl. by rewrite map_id.
  - cbn [group_animals]. rewrite loc_set_na_total.
    + rewrite mask_matches.
      rewrite (loc_set_rowwise (matches kws) c "animal" (Str a) df).
      rewrite bind_ok, IH, map_map; [reflexivity| |].
      * by destruct df.
      * apply List.Forall_forall. intros r' [r [<- Hr]]%in_map_iff.
        apply str_step_preserved.
        rewrite List.Forall_forall in H. by apply H.
    + done.
    + apply List.Forall_forall. intros o Ho. unfold col in Ho.
      rewrite !map_map in Ho. apply in_map_iff in Ho as [r [<- Hr]].
      rewrite List.Forall_forall in H. specialize (H r Hr).
      destruct (get r c); try discriminate. by eexists.
Qed.

(** With a description that is not a string, the first category already
    fails. *)
Lemma group_animals_raises a kws lex c (df : frame) :
  Exists (fun r => is_str (get r c) = false) df ->
  group_animals df ((a, kws) :: lex) c = Raise ValueError.
Proof.
  intros H. cbn [group_animals]. rewrite loc_set_na_missing; [reflexivity|].
  apply List.Exists_exists in H as [r [Hr Hs]].
  unfold col. rewrite !map_map. apply in_map_iff. exists r. split; [|done].
  by destruct (get r c).
Qed.

Lemma tag_row_app l1 l2 c (r : row) :
  tag_row (l1 ++ l2)%list c r = tag_row l2 c (tag_row l1 c r).
Proof. unfold tag_row. apply fold_left_app. Qed.

Lemma tag_row_desc lex c (r : row) :
  c <> "animal" -> get (tag_row lex c r) c = get r c.
Proof.
  intros Hc. revert r. induction lex as [|e lex IH]; intros r; [done|].
  unfold tag_row in *. simpl. rewrite IH. unfold row_step.
  by rewrite get_set_where_ne.
Qed.

Lemma tag_row_no_match lex c (r : row) :
  c <> "animal" ->
  Forall (fun e => matches (snd e) (get r c) = false) lex ->
  get (tag_row lex c r) "animal" = get r "animal".
Proof.
  intros Hc. revert r. induction lex as [|e lex IH]; intros r H; [done|].
  inversion H as [|? ? He Hlex]; subst.
  unfold tag_row in *. simpl. rewrite IH.
  - unfold row_step. by rewrite get_set_where, He.
  - unfold row_step. by rewrite get_set_where_ne.
Qed.

Lemma tag_row_last_match l1 a kws l2 c (r : row) :
  c <> "animal" ->
  matches kws (get r c) = true ->
  Forall (fun e => matches (snd e) (get r c) = false) l2 ->
  get (tag_row (l1 ++ (a, kws) :: l2)%list c r) "animal" = Str a.
Proof.
  intros Hc Hm Hl2. rewrite tag_row_app.
  change ((a, kws) :: l2) with ([(a, kws)] ++ l2)%list.
  rewrite tag_row_app. rewrite tag_row_no_match; [|done|].
  - change (tag_row [(a, kws)] c ?x)
      with (row_step (matches kws) c "animal" (Str a) x).
    unfold row_step. by rewrite get_set_where, tag_row_desc, Hm.
  - by rewrite !tag_row_desc.
Qed.

(** On literal keywords the mask is substring search for any keyword. *)
Lemma matches_mentions kws s :
  kws <> [] -> forallb Text.literal kws = true ->
  matches kws (Str s) = true <-> mentions s kws.
Proof.
  intros Hne Hlit. unfold mentions.
  change (matches kws (Str s))
    with (Text.re_search (String.concat "|" kws) (Text.lower s)).
  rewrite re_search_join by done.
  rewrite existsb_exists. reflexivity.
Qed.

Lemma lexicon_ok_entry lex a kws :
  lexicon_ok lex = true -> In (a, kws) lex ->
  kws <> [] /\ forallb Text.literal kws = true.
Proof.
  unfold lexicon_ok. rewrite forallb_forall. intros H Hin.
  specialize (H _ Hin). simpl in H. by destruct kws.
Qed.

(** Among the entries that satisfy a test there is a last one. *)
Lemma last_such {A} (f : A -> bool) (l : list A) :
  existsb f l = true ->
  exists l1 e l2,
    l = (l1 ++ e :: l2)%list /\ f e = true /\ existsb f l2 = false.
Proof.
  induction l as [|x l IH]; [discriminate|]. simpl. intros H.
  destruct (existsb f l) eqn:E.
  - destruct (IH eq_refl) as (l1 & e & l2 & -> & He & Hl2).
    by exists (x :: l1), e, l2.
  - rewrite orb_false_r in H. by exists [], x, l.
Qed.

Lemma existsb_false_Forall {A} (f : A -> bool) (l : list A) :
  existsb f l = false -> Forall (fun x => f x = false) l.
Proof.
  induction l as [|x l IH]; simpl; [constructor|].
  intros [? ?]%orb_false_iff. constructor; auto.
Qed.

Lemma matches_entry lex e s :
  lexicon_ok lex = true -> In e lex ->
  matches (snd e) (Str s) = true <-> mentions s (snd e).
Proof.
  intros Hok Hin. destruct e as [a kws].
  destruct (lexicon_ok_entry _ _ _ Hok Hin). by apply matches_mentions.
Qed.

Lemma tag_row_last_category lex c (r : row) s a :
  lexicon_ok lex = true -> c <> "animal" -> get r c = Str s ->
  last_category lex s a -> get (tag_row lex c r) "animal" = Str a.
Proof.
  intros Hok Hc Hs (l1 & kws & l2 & -> & Hm & Hl2).
  apply tag_row_last_match; [done| |].
  - rewrite Hs. apply (matches_entry _ (a, kws) s Hok); [|done].
    apply in_elt.
  - rewrite Hs. apply List.Forall_forall. intros e He.
    apply not_true_is_false. intros Hme.
    rewrite List.Forall_forall in Hl2. apply (Hl2 e He).
    apply (matches_entry _ e s Hok); [|done].
    apply in_or_app. right. by right.
Qed.

Lemma only_category_last lex s a :
  lexicon_ok lex = true -> only_category lex s a -> last_category lex s a.
Proof.
  intros Hok [(kws & Hin & Hm) Huniq].
  destruct (last_such (fun e => matches (snd e) (Str s)) lex)
    as (l1 & [b kws'] & l2 & Hlex & Hb & Hl2).
  { apply existsb_exists. exists (a, kws). split; [done|].
    by apply (matches_entry lex (a, kws) s Hok). }
  assert (Hbin : In (b, kws') lex) by (rewrite Hlex; apply in_elt).
  assert (Hbm : mentions s kws')
    by (by apply (matches_entry lex (b, kws') s Hok)).
  rewrite (Huniq b kws' Hbin Hbm) in Hlex.
  exists l1, kws', l2. split; [done|]. split; [done|].
  apply List.Forall_forall. intros e He Hme.
  apply existsb_false_Forall in Hl2. rewrite List.Forall_forall in Hl2.
  specialize (Hl2 e He). cbv beta in Hl2.
  assert (In e lex) by (rewrite Hlex; apply in_or_app; right; by right).
  apply (matches_entry lex e s Hok) in Hme; [|done]. congruence.
Qed.

Lemma tag_row_no_category lex c (r : row) s :
  lexicon_ok lex = true -> c <> "animal" -> get r c = Str s ->
  no_category lex s -> get (tag_row lex c r) "animal" = get r "animal".
Proof.
  intros Hok Hc Hs Hno. apply tag_row_no_match; [done|].
  apply List.Forall_forall. intros [b kws] He. rewrite Hs.
  apply not_true_is_false. intros Hme.
  apply (Hno b kws He). by apply (matches_entry lex (b, kws) s Hok).
Qed.

(** C2: with a lexicon of literal keywords (as [animal_keywords] is) and on
    a table of at least one record whose descriptions are all present,
    [group_animals] returns and, for every record, sets the animal column to the one category whose
    keywords occur in the lowercased description, to the last such category
    in the order of the lexicon when there are several, and leaves a null
    animal value null when no keyword of any category occurs. *)
Theorem group_animals_last_match_wins
    (lex : list (string * list string)) (desc_col : string) (df : frame) :
  lexicon_ok lex = true -> desc_col <> "animal" -> df <> [] ->
  Forall (fun r => is_str (get r desc_col) = true) df ->
  exists df',
    group_animals df lex desc_col = Ok df' /\
    forall i r s,
      df !! i = Some r -> get r desc_col = Str s ->
      exists r',
        df' !! i = Some r' /\
        (forall a, only_category lex s a -> get r' "animal" = Str a) /\
        (forall a, last_category lex s a -> get r' "animal" = Str a) /\
        (no_category lex s -> get r "animal" = NaN ->
         get r' "animal" = NaN).
Proof.
  intros Hok Hc Hdf Hstr. eexists.
  split; [by apply group_animals_rowwise|].
  intros i r s Hi Hs. exists (tag_row lex desc_col r). split.
  { change map with (@fmap list _). by rewrite list_lookup_fmap, Hi. }
  split; [|split].
  - intros a Ha. apply (tag_row_last_category lex desc_col r s a); try done.
    by apply only_category_last.
  - intros a Ha. by apply (tag_row_last_category lex desc_col r s a).
  - intros Hno Hnull. rewrite <- Hnull.
    by apply (tag_row_no_category lex desc_col r s).
Qed.


End AnimalFacts.

Lemma group_animals_last_match_wins_witness :
  exists df',
    group_animals [Examples.friday; Examples.catapult]
      Config.animal_keywords "Incident Detail" = Ok df' /\
    forall i r s,
      [Examples.friday; Examples.catapult] !! i = Some r ->
      get r "Incident Detail" = Str s ->
      exists r',
        df' !! i = Some r' /\
        (forall a, only_category Config.animal_keywords s a ->
                   get r' "animal" = Str a) /\
        (forall a, last_category Config.animal_keywords s a ->
                   get r' "animal" = Str a) /\
        (no_category Config.animal_keywords s -> get r "animal" = NaN ->
         get r' "animal" = NaN).
Proof.
  assert (H1 : lexicon_ok Config.animal_keywords = true)
    by (vm_compute; reflexivity).
  assert (H2 : "Incident Detail" <> "animal") by discriminate.
  assert (H3 : [Examples.friday; Examples.catapult] <> []) by discriminate.
  assert (H4 : Forall (fun r => is_str (get r "Incident Detail") = true)
                 [Examples.friday; Examples.catapult])
    by (repeat constructor).
  exact (group_animals_last_match_wins Config.animal_keywords
           "Incident Detail" [Examples.friday; Examples.catapult]
           H1 H2 H3 H4).
Defined.

(** The scenarios of the specification: "stray dog seen near park" is a
    dog; with keywords of both "dog" and "cat" the later category "cat"
    wins, also when "cat" only occurs inside another word. *)
Example group_animals_scenarios :
  match group_animals [Examples.friday; Examples.catapult]
          Config.animal_keywords "Incident Detail" with
  | Ok df' => col df' "animal" = [Str "dog"; Str "cat"]
  | Raise _ => False
  end.
Proof. vm_compute. reflexivity. Qed.



(** ** N-gram counts *)

Section NgramFacts.

Variable word_tokenize : string -> list string.
Variable stopwords_english : list string.

Lemma filter_stopwords_fold (l acc : list string) :
  fold_left
    (fun filtered_list word =>
       if negb (existsb (String.eqb (Text.casefold word)) stopwords_english)
       then (filtered_list ++ [word])%list
       else filtered_list) l acc
  = (acc ++ List.filter (kept stopwords_english) l)%list.
Proof.
  revert acc. induction l as [|w l IH]; intros acc; simpl.
  - by rewrite app_nil_r.
  - rewrite IH. unfold kept at 2.
    destruct (negb _); [by rewrite <- app_assoc | done].
Qed.

(** [filter_stopwords] keeps, in order and unchanged, the tokens whose
    case-folded form is not a stop word. *)
Lemma filter_stopwords_filter q :
  filter_stopwords word_tokenize stopwords_english q
  = List.filter (kept stopwords_english) (word_tokenize q).
Proof. unfold filter_stopwords. by rewrite filter_stopwords_fold. Qed.

Lemma kept_casefold w1 w2 :
  Text.casefold w1 = Text.casefold w2 ->
  kept stopwords_english w1 = kept stopwords_english w2.
Proof. unfold kept. by intros ->. Qed.

Lemma filter_kept_casefold (l1 l2 : list string) :
  map Text.casefold l1 = map Text.casefold l2 ->
  map Text.casefold (List.filter (kept stopwords_english) l1)
  = map Text.casefold (List.filter (kept stopwords_english) l2).
Proof.
  revert l2. induction l1 as [|w1 l1 IH]; intros [|w2 l2] H;
    try discriminate; [done|].
  injection H as Hw Hl. simpl. rewrite (kept_casefold _ _ Hw).
  destruct (kept stopwords_english w2); simpl; [rewrite Hw; f_equal|];
    by apply IH.
Qed.

Lemma ngrams_map {A B} (f : A -> B) (s : list A) n :
  ngrams (map f s) n = map (map f) (ngrams s n).
Proof.
  destruct n as [|n]; [by destruct s|].
  induction s as [|x s IH]; [done|].
  change (ngrams (map f (x :: s)) (S n))
    with (if (S n <=? List.length (map f (x :: s)))%nat
          then take (S n) (map f (x :: s)) :: ngrams (map f s) (S n)
          else []).
  change (ngrams (x :: s) (S n))
    with (if (S n <=? List.length (x :: s))%nat
          then take (S n) (x :: s) :: ngrams s (S n)
          else []).
  rewrite length_map.
  destruct (S n <=? List.length (x :: s))%nat; [|done].
  cbn [map]. rewrite IH. f_equal.
  change (f x :: map f s) with (map f (x :: s)).
  change map with (@fmap list _). by rewrite fmap_take.
Qed.

Lemma apply_filter_stopwords_total (values : list cell) :
  Forall (fun c => is_str c = true) values ->
  apply_filter_stopwords word_tokenize stopwords_english values
  = Ok (map (fun c =>
               match c with
               | Str q => filter_stopwords word_tokenize stopwords_english q
               | _ => []
               end) values).
Proof.
  induction values as [|c values IH]; [done|].
  intros H. inversion H as [|? ? Hc Hv]; subst.
  destruct c; try discriminate. cbn [apply_filter_stopwords].
  by rewrite (IH Hv).
Qed.

(** On descriptions that are all strings [ngram_counts] returns the counts
    of [all_ngrams]. *)
Lemma ngram_counts_total (data : frame) n c :
  Forall (fun x => is_str x = true) (col data c) ->
  ngram_counts word_tokenize stopwords_english data n c
  = Ok (value_counts
          (all_ngrams word_tokenize stopwords_english n (col data c))).
Proof.
  intros H. unfold ngram_counts.
  rewrite (apply_filter_stopwords_total _ H), bind_ok.
  unfold all_ngrams. rewrite map_map. do 3 f_equal.
  apply map_ext. intros x. destruct x; try done; by destruct n.
Qed.

(** Descriptions with the same words up to letter case give windows that
    are the same up to letter case, one by one. *)
Lemma all_ngrams_casefold n (v1 v2 : list cell) :
  Forall2 (same_words word_tokenize) v1 v2 ->
  map (map Text.casefold)
    (all_ngrams word_tokenize stopwords_english n v1)
  = map (map Text.casefold)
      (all_ngrams word_tokenize stopwords_english n v2).
Proof.
  unfold all_ngrams. induction 1 as [|c1 c2 v1 v2 Hc Hv IH]; [done|].
  cbn [map concat]. rewrite !map_app, IH. f_equal.
  destruct Hc as (q1 & q2 & -> & -> & Hq).
  unfold get_ngrams. rewrite <- !ngrams_map, !filter_stopwords_filter.
  by rewrite (filter_kept_casefold _ _ Hq).
Qed.

End NgramFacts.

Section CountFacts.

Lemma gram_eqb_eq a b : gram_eqb a b = true <-> a = b.
Proof. unfold gram_eqb. apply bool_decide_eq_true. Qed.

Lemma assoc_bump w x acc :
  assoc gram_eqb w (bump x acc)
  = if gram_eqb w x then Some (S (default O (assoc gram_eqb w acc)))
    else assoc gram_eqb w acc.
Proof.
  induction acc as [|[y c] acc IH]; [done|].
  cbn [bump]. unfold gram_eqb in *.
  repeat case_bool_decide; subst; cbn [assoc]; unfold gram_eqb;
    repeat case_bool_decide; subst; try done.
Qed.

Lemma keys_bump x acc k :
  In k (map fst (bump x acc)) <-> k = x \/ In k (map fst acc).
Proof.
  induction acc as [|[y c] acc IH]; simpl; [intuition congruence|].
  unfold gram_eqb. case_bool_decide; subst; simpl; [intuition congruence|].
  rewrite IH. intuition congruence.
Qed.

Lemma NoDup_bump x acc :
  List.NoDup (map fst acc) -> List.NoDup (map fst (bump x acc)).
Proof.
  induction acc as [|[y c] acc IH]; simpl; intros H.
  - constructor; [by intros [] | constructor].
  - inversion H as [|? ? Hy Hacc]; subst.
    unfold gram_eqb. case_bool_decide; subst; simpl.
    + by constructor.
    + constructor; [|by apply IH].
      rewrite keys_bump. intros [->|Hin]; [congruence | by apply Hy].
Qed.

Lemma assoc_tally_acc l acc w :
  assoc gram_eqb w (fold_left (fun acc x => bump x acc) l acc)
  = match occurrences w l with
    | O => assoc gram_eqb w acc
    | S k => Some (S k + default O (assoc gram_eqb w acc))%nat
    end.
Proof.
  revert acc. induction l as [|x l IH]; intros acc; [done|].
  cbn [fold_left]. rewrite IH, assoc_bump. unfold occurrences.
  cbn [List.filter]. destruct (gram_eqb w x); cbn [List.length default].
  - destruct (List.length _); unfold id; f_equal; lia.
  - done.
Qed.

Lemma NoDup_tally_acc l acc :
  List.NoDup (map fst acc) ->
  List.NoDup (map fst (fold_left (fun acc x => bump x acc) l acc)).
Proof.
  revert acc. induction l as [|x l IH]; intros acc H; [done|].
  simpl. by apply IH, NoDup_bump.
Qed.

Lemma assoc_In w k (l : list (list string * nat)) :
  List.NoDup (map fst l) ->
  In (w, k) l <-> assoc gram_eqb w l = Some k.
Proof.
  induction l as [|[y c] l IH]; simpl; intros H; [intuition congruence|].
  inversion H as [|? ? Hy Hl]; subst. unfold gram_eqb.
  case_bool_decide; subst.
  - split; [|intros [= ->]; by left]. intros [Heq|Hin]; [congruence|].
    destruct Hy. apply in_map_iff. by exists (y, k).
  - rewrite <- (IH Hl). intuition congruence.
Qed.

Lemma insert_desc_perm x l : Permutation (insert_desc x l) (x :: l).
Proof.
  induction l as [|y l IH]; simpl; [done|].
  destruct (snd y <=? snd x)%nat; [done|].
  rewrite IH. apply perm_swap.
Qed.

Lemma value_counts_perm l : Permutation (value_counts l) (tally l).
Proof.
  unfold value_counts. induction (tally l) as [|x t IH]; simpl; [done|].
  by rewrite insert_desc_perm, IH.
Qed.

(** [value_counts] lists every distinct value once, with the number of its
    occurrences. *)
Lemma value_counts_spec (l : list (list string)) :
  List.NoDup (map fst (value_counts l)) /\
  forall w k,
    In (w, k) (value_counts l) <-> k = occurrences w l /\ (0 < k)%nat.
Proof.
  assert (Hnd : List.NoDup (map fst (tally l)))
    by (apply NoDup_tally_acc; constructor).
  split.
  - eapply Permutation_NoDup; [|exact Hnd].
    apply Permutation_map. symmetry. apply value_counts_perm.
  - intros w k.
    rewrite (Permutation_in' (eq_refl (w, k)) (value_counts_perm l)).
    rewrite (assoc_In w k _ Hnd). unfold tally.
    rewrite assoc_tally_acc. cbn [assoc default].
    destruct (occurrences w l); split; intros H; try done.
    + lia.
    + injection H as <-. lia.
    + destruct H as [-> _]. f_equal. lia.
Qed.

End CountFacts.

Section WindowFacts.

Lemma ngrams_cons {A} (x : A) s n :
  ngrams (x :: s) (S n)
  = if (S n <=? List.length (x :: s))%nat
    then take (S n) (x :: s) :: ngrams s (S n) else [].
Proof. reflexivity. Qed.

Lemma ngrams_windows {A} (s : list A) n :
  ngrams s (S n)
  = map (fun i => take (S n) (drop i s)) (seq 0 (List.length s + 1 - S n)).
Proof.
  induction s as [|x s IH]; [done|].
  rewrite ngrams_cons. cbn [List.length].
  destruct (Nat.leb_spec (S n) (S (List.length s))) as [Hle|Hgt].
  - replace (S (List.length s) + 1 - S n)%nat
      with (S (List.length s + 1 - S n))%nat by lia.
    cbn [seq map]. rewrite <- seq_shift, map_map.
    by rewrite IH.
  - by replace (S (List.length s) + 1 - S n)%nat with O by lia.
Qed.

Lemma get_ngrams_is_windows (s : list string) n :
  get_ngrams s n = windows n s.
Proof.
  unfold get_ngrams, windows. destruct n as [|n]; [by destruct s|].
  apply ngrams_windows.
Qed.

(** What [ngram_counts] counts are the windows over the kept tokens. *)
Lemma all_ngrams_windows (word_tokenize : string -> list string)
    (stopwords_english : list string) n (values : list cell) :
  all_ngrams word_tokenize stopwords_english n values
  = counted_windows word_tokenize stopwords_english n values.
Proof.
  unfold all_ngrams, counted_windows. f_equal. apply map_ext.
  intros [| q | |]; try done.
  by rewrite get_ngrams_is_windows, filter_stopwords_filter.
Qed.

Lemma occurrences_count_occ w (l : list (list string)) :
  occurrences w l = count_occ (List.list_eq_dec string_dec) l w.
Proof.
  unfold occurrences. induction l as [|x l IH]; [done|].
  cbn [List.filter count_occ]. unfold gram_eqb at 1.
  destruct (List.list_eq_dec string_dec x w) as [->|Hne].
  - rewrite bool_decide_eq_true_2 by done. cbn [List.length].
    by rewrite IH.
  - rewrite bool_decide_eq_false_2 by congruence. exact IH.
Qed.

(** Every token of a window is a token of the list, as it is written. *)
Lemma windows_tokens {A} n (s : list A) w x :
  In w (windows n s) -> In x w -> In x s.
Proof.
  unfold windows. destruct n as [|n]; [done|].
  intros (i & <- & _)%in_map_iff Hx.
  apply list_elem_of_In. apply list_elem_of_In in Hx.
  by apply (subseteq_drop i s), (subseteq_take (S n)).
Qed.

Lemma counted_windows_tokens (word_tokenize : string -> list string)
    (stopwords_english : list string) n (values : list cell) w tok :
  In w (counted_windows word_tokenize stopwords_english n values) ->
  In tok w ->
  exists q,
    In (Str q) values /\ In tok (word_tokenize q) /\
    ~ In (Text.casefold tok) stopwords_english.
Proof.
  unfold counted_windows. intros (l & Hl & Hw)%in_concat Htok.
  apply in_map_iff in Hl as (c & <- & Hc).
  destruct c as [| q | |]; try done.
  apply (windows_tokens _ _ _ tok) in Hw; [|done].
  apply filter_In in Hw as [Hin Hk]. exists q.
  split; [done|]. split; [done|].
  unfold kept in Hk. apply negb_true_iff in Hk.
  intros Hs. apply not_true_iff_false in Hk. apply Hk.
  apply existsb_exists. exists (Text.casefold tok).
  split; [done | apply String.eqb_refl].
Qed.

End WindowFacts.

(** C9, as amended: [ngram_counts] case-folds a token only to look it up in
    the stop list; the tokens it keeps, and the windows formed from them,
    keep their letter case.  The result lists every distinct window over
    the kept tokens as they are written exactly once, with the number of
    its occurrences across all records, so that windows that differ in
    letter case are counted apart, and every token of a counted window is a
    token of a description, letter for letter, whose casefolded form is not
    a stop word.  For two tables whose descriptions have the same tokens up
    to letter case, the same tokens are kept and the windows counted are
    the same up to letter case, one by one. *)
Theorem ngram_counts_up_to_case (word_tokenize : string -> list string)
    (stopwords_english : list string) (n : nat) (col_ : string)
    (data1 data2 : frame) :
  Forall2 (same_words word_tokenize) (col data1 col_) (col data2 col_) ->
  exists counts1 counts2,
    ngram_counts word_tokenize stopwords_english data1 n col_ = Ok counts1 /\
    ngram_counts word_tokenize stopwords_english data2 n col_ = Ok counts2 /\
    (forall data counts,
       (data = data1 /\ counts = counts1) \/
       (data = data2 /\ counts = counts2) ->
       List.NoDup (map fst counts) /\
       (forall w k,
          In (w, k) counts
          <-> k = count_occ (List.list_eq_dec string_dec)
                    (counted_windows word_tokenize stopwords_english n
                       (col data col_)) w /\
              (0 < k)%nat) /\
       (forall w tok,
          In w (counted_windows word_tokenize stopwords_english n
                  (col data col_)) ->
          In tok w ->
          exists q,
            In (Str q) (col data col_) /\ In tok (word_tokenize q) /\
            ~ In (Text.casefold tok) stopwords_english)) /\
    Forall2
      (fun c1 c2 =>
         exists q1 q2,
           c1 = Str q1 /\ c2 = Str q2 /\
           map Text.casefold
             (List.filter (kept stopwords_english) (word_tokenize q1))
           = map Text.casefold
               (List.filter (kept stopwords_english) (word_tokenize q2)))
      (col data1 col_) (col data2 col_) /\
    map (map Text.casefold)
      (counted_windows word_tokenize stopwords_english n (col data1 col_))
    = map (map Text.casefold)
        (counted_windows word_tokenize stopwords_english n (col data2 col_)).
Proof.
  intros H.
  assert (H1 : Forall (fun x => is_str x = true) (col data1 col_)).
  { clear -H. induction H as [|c1 c2 v1 v2 (q1 & q2 & -> & -> & _) _ IH];
      by constructor. }
  assert (H2 : Forall (fun x => is_str x = true) (col data2 col_)).
  { clear -H. induction H as [|c1 c2 v1 v2 (q1 & q2 & -> & -> & _) _ IH];
      by constructor. }
  eexists. eexists.
  split; [by apply ngram_counts_total|].
  split; [by apply ngram_counts_total|].
  split; [|split].
  - intros data counts [[-> ->]|[-> ->]];
      rewrite all_ngrams_windows;
      (split; [apply value_counts_spec|]);
      (split; [|intros w tok; apply counted_windows_tokens]);
      intros w k; rewrite <- occurrences_count_occ;
      apply value_counts_spec.
  - clear H1 H2.
    induction H as [|c1 c2 v1 v2 (q1 & q2 & -> & -> & Hq) _ IH];
      constructor; [|done].
    exists q1, q2. split; [done|]. split; [done|].
    by apply filter_kept_casefold.
  - rewrite <- !all_ngrams_windows. by apply all_ngrams_casefold.
Qed.

Lemma ngram_counts_up_to_case_witness :
  exists counts1 counts2,
    ngram_counts Nltk.split_blank Nltk.english_stopwords
      [Examples.cat_upper] 2 "Incident Detail" = Ok counts1 /\
    ngram_counts Nltk.split_blank Nltk.english_stopwords
      [Examples.cat_lower] 2 "Incident Detail" = Ok counts2 /\
    In (["Cat"; "stuck"], 1%nat) counts1 /\
    In (["cat"; "stuck"], 1%nat) counts2 /\
    ~ In ["cat"; "stuck"] (map fst counts1).
Proof.
  assert (H : Forall2 (same_words Nltk.split_blank)
                (col [Examples.cat_upper] "Incident Detail")
                (col [Examples.cat_lower] "Incident Detail")).
  { constructor; [|constructor].
    exists "Cat stuck in the Tree", "cat stuck in THE tree".
    split; [reflexivity|]. split; [reflexivity|].
    vm_compute. reflexivity. }
  destruct (ngram_counts_up_to_case Nltk.split_blank Nltk.english_stopwords
              2 "Incident Detail" [Examples.cat_upper] [Examples.cat_lower]
              H)
    as (counts1 & counts2 & Hok1 & Hok2 & Hspec & _).
  exists counts1, counts2. split; [exact Hok1|]. split; [exact Hok2|].
  destruct (Hspec [Examples.cat_upper] counts1 (or_introl (conj eq_refl
              eq_refl))) as (_ & Hc1 & _).
  destruct (Hspec [Examples.cat_lower] counts2 (or_intror (conj eq_refl
              eq_refl))) as (_ & Hc2 & _).
  split; [apply Hc1; by vm_compute|].
  split; [apply Hc2; by vm_compute|].
  intros ([w k] & Hw & Hin)%in_map_iff. simpl in Hw. subst w.
  apply Hc1 in Hin as [Hk Hpos]. vm_compute in Hk. lia.
Defined.

(** C9, as stated, fails: "Cat stuck in the Tree" and "cat stuck in THE
    tree" differ only in letter case, but their bigram counts differ. *)
Lemma ngram_counts_case_sensitive :
  Text.lower "Cat stuck in the Tree" = Text.lower "cat stuck in THE tree" /\
  ngram_counts Nltk.split_blank Nltk.english_stopwords
    [Examples.cat_upper] 2 "Incident Detail"
  = Ok [(["Cat"; "stuck"], 1%nat); (["stuck"; "Tree"], 1%nat)] /\
  ngram_counts Nltk.split_blank Nltk.english_stopwords
    [Examples.cat_lower] 2 "Incident Detail"
  = Ok [(["cat"; "stuck"], 1%nat); (["stuck"; "tree"], 1%nat)] /\
  ngram_counts Nltk.split_blank Nltk.english_stopwords
    [Examples.cat_upper] 2 "Incident Detail"
  <> ngram_counts Nltk.split_blank Nltk.english_stopwords
       [Examples.cat_lower] 2 "Incident Detail".
Proof.
  split; [|split; [|split]]; vm_compute; try reflexivity. discriminate.
Qed.

(** ** Binary64 conversion of a count *)

Section FloatFacts.

Lemma digits2_pos_lower p : 2 ^ (Zpos (digits2_pos p) - 1) <= Zpos p.
Proof.
  induction p as [p IH|p IH|]; cbn [digits2_pos]; [| |done].
  - rewrite Pos2Z.inj_succ.
    replace (Z.succ (Zpos (digits2_pos p)) - 1)
      with (Z.succ (Zpos (digits2_pos p) - 1)) by lia.
    rewrite Z.pow_succ_r by lia. lia.
  - rewrite Pos2Z.inj_succ.
    replace (Z.succ (Zpos (digits2_pos p)) - 1)
      with (Z.succ (Zpos (digits2_pos p) - 1)) by lia.
    rewrite Z.pow_succ_r by lia. lia.
Qed.

Lemma shr_1_m mrs :
  0 <= shr_m mrs -> shr_m (shr_1 mrs) = Z.div2 (shr_m mrs).
Proof.
  destruct mrs as [m r s]. cbn [shr_m]. intros H. unfold shr_1.
  destruct m as [|[p|p|]|p]; try reflexivity. lia.
Qed.

Lemma iter_shr_1_m k mrs :
  0 <= shr_m mrs ->
  shr_m (SpecFloat.iter_pos shr_1 k mrs) = Z.shiftr (shr_m mrs) (Zpos k).
Proof.
  revert mrs. induction k as [k IH|k IH|]; intros mrs H; cbn [SpecFloat.iter_pos].
  - assert (H1 : 0 <= shr_m (shr_1 mrs))
      by (rewrite shr_1_m by done; by apply Z.div2_nonneg).
    assert (H2 : 0 <= shr_m (SpecFloat.iter_pos shr_1 k (shr_1 mrs)))
      by (rewrite IH by done; by apply Z.shiftr_nonneg).
    rewrite IH, IH, shr_1_m by done.
    rewrite Z.div2_spec, !Z.shiftr_shiftr by lia. f_equal. lia.
  - assert (H2 : 0 <= shr_m (SpecFloat.iter_pos shr_1 k mrs))
      by (rewrite IH by done; by apply Z.shiftr_nonneg).
    rewrite IH, IH by done. rewrite Z.shiftr_shiftr by lia. f_equal. lia.
  - rewrite shr_1_m by done. apply Z.div2_spec.
Qed.

(** Shifting a positive mantissa to its format exponent leaves it
    positive, as long as the exponent is not below the least one. *)
Lemma shr_fexp_pos m e l :
  0 < m -> emin 53 1024 <= e ->
  0 < shr_m (fst (shr_fexp 53 1024 m e l)) /\
  emin 53 1024 <= snd (shr_fexp 53 1024 m e l).
Proof.
  intros Hm He. unfold shr_fexp, shr.
  assert (Hrec : shr_m (shr_record_of_loc m l) = m)
    by (by destruct l as [|[]]).
  destruct (fexp 53 1024 (Zdigits2 m + e) - e) as [|k|k] eqn:Hn;
    cbn [fst snd]; try (rewrite Hrec; split; lia).
  rewrite iter_shr_1_m by (rewrite Hrec; lia). rewrite Hrec.
  destruct m as [|p|p]; try lia. cbn [Zdigits2] in Hn.
  pose proof (digits2_pos_lower p) as Hd.
  unfold fexp, emin in *. split; [|lia].
  rewrite Z.shiftr_div_pow2 by lia.
  apply Z.div_str_pos. split; [lia|].
  etransitivity; [|exact Hd]. apply Z.pow_le_mono_r; lia.
Qed.

Lemma round_nearest_even_pos m l : 0 < m -> 0 < round_nearest_even m l.
Proof.
  intros H. unfold round_nearest_even.
  destruct l as [|[]]; try lia. destruct (Z.even m); lia.
Qed.

Lemma binary_round_aux_pos m e l :
  0 < m -> emin 53 1024 <= e ->
  (exists m' e', binary_round_aux 53 1024 false m e l
                 = S754_finite false m' e') \/
  binary_round_aux 53 1024 false m e l = S754_infinity false.
Proof.
  intros Hm He. unfold binary_round_aux.
  destruct (shr_fexp 53 1024 m e l) as [mrs' e'] eqn:E1.
  pose proof (shr_fexp_pos m e l Hm He) as [H1 H1e].
  rewrite E1 in H1, H1e. cbn [fst snd] in H1, H1e.
  pose proof (round_nearest_even_pos _ (loc_of_shr_record mrs') H1) as Hr.
  destruct (shr_fexp 53 1024
              (round_nearest_even (shr_m mrs') (loc_of_shr_record mrs'))
              e' loc_Exact) as [mrs'' e''] eqn:E2.
  pose proof (shr_fexp_pos _ e' loc_Exact Hr H1e) as [H2 _].
  rewrite E2 in H2. cbn [fst] in H2.
  destruct (shr_m mrs'') as [|p|p]; try lia.
  destruct (e'' <=? 1024 - 53); [left; by eexists _, _ | by right].
Qed.

(** A positive integer converts to a positive finite number or, beyond the
    range, to plus infinity. *)
Lemma Z2F_pos z :
  0 < z ->
  (exists m e, Z2F z = S754_finite false m e) \/ Z2F z = S754_infinity false.
Proof.
  intros Hz. destruct z as [|p|p]; try lia.
  unfold Z2F, binary_normalize, binary_round.
  destruct (shl_align p 0 (fexp 53 1024 (Zpos (digits2_pos p) + 0)))
    as [mz ez] eqn:E.
  apply binary_round_aux_pos; [lia|].
  unfold shl_align in E.
  destruct (fexp 53 1024 (Zpos (digits2_pos p) + 0) - 0) eqn:En;
    injection E as <- <-; unfold fexp, emin in *; lia.
Qed.

(** The rate on a zero population: plus infinity for a positive count, not
    a number for a zero count. *)
Lemma double_observation_zero b : double_observation b 0 = 0.
Proof. by destruct b. Qed.

(** Below 2^62 in absolute value the doubling does not wrap around. *)
Lemma double_observation_small b p :
  - 2 ^ 62 <= p < 2 ^ 62 -> double_observation b p = p * 2.
Proof.
  intros Hp. destruct b; [|done]. unfold double_observation, wrap_int64.
  rewrite Z.mod_small; lia.
Qed.

Lemma inc_per_pop_zero_population b c2021 c2022 :
  (0 < c2021 + c2022 ->
   inc_per_pop b c2021 c2022 0 = S754_infinity false) /\
  (c2021 + c2022 = 0 -> inc_per_pop b c2021 c2022 0 = S754_nan).
Proof.
  unfold inc_per_pop. rewrite double_observation_zero.
  change (Z2F 0) with (S754_zero false).
  split.
  - intros H. destruct (Z2F_pos _ H) as [(m & e & ->) | ->];
      cbn [SFdiv xorb]; by vm_compute.
  - intros ->. reflexivity.
Qed.

End FloatFacts.

(** ** [combine_maps_w_data] *)

Section SumFacts.

Lemma sum_zero {A} (l : list A) : sum (map (fun _ => 0) l) = 0.
Proof. induction l as [|x l IH]; simpl; [done | by rewrite IH]. Qed.

Lemma sum_add {A} (f g : A -> Z) (l : list A) :
  sum (map (fun x => f x + g x) l) = sum (map f l) + sum (map g l).
Proof. induction l as [|x l IH]; simpl; [done | rewrite IH; lia]. Qed.

(** Summing a table of numbers by rows or by columns gives the same. *)
Lemma sum_exchange {A B} (g : A -> B -> Z) (xs : list A) (ys : list B) :
  sum (map (fun y => sum (map (fun x => g x y) xs)) ys)
  = sum (map (fun x => sum (map (g x) ys)) xs).
Proof.
  induction xs as [|x xs IH]; simpl.
  - apply sum_zero.
  - rewrite <- IH. apply sum_add.
Qed.

Lemma sum_nonneg (l : list Z) : Forall (fun z => 0 <= z) l -> 0 <= sum l.
Proof. induction 1; simpl; lia. Qed.

Lemma nansum_sum {A} (f : A -> option Z) (l : list A) :
  nansum (map f l) = sum (map (fun x => default 0 (f x)) l).
Proof. induction l as [|x l IH]; simpl; [done | by rewrite IH]. Qed.

Lemma sum_map_snd_keyed {K} (k : Z -> K) (h : Z -> Z) (ys : list Z) :
  sum (map snd (map (fun y => (k y, h y)) ys)) = sum (map h ys).
Proof. by rewrite map_map. Qed.

End SumFacts.

Section SortFacts.

Context {A : Type} (cmp : A -> A -> comparison).
Hypothesis cmp_eq : forall a b, cmp a b = Eq -> a = b.

Lemma insert_sorted_In x a l :
  In x (insert_sorted cmp a l) <-> x = a \/ In x l.
Proof.
  induction l as [|y l IH]; simpl; [intuition|].
  destruct (cmp a y) eqn:E; simpl.
  - apply cmp_eq in E as ->. intuition.
  - intuition.
  - rewrite IH. intuition.
Qed.

(** Sorting without repetitions neither loses nor invents an element. *)
Lemma sorted_unique_In x l : In x (sorted_unique cmp l) <-> In x l.
Proof.
  induction l as [|a l IH]; simpl; [done|].
  rewrite insert_sorted_In, IH. intuition.
Qed.

End SortFacts.

Section KeyFacts.

Lemma string_compare_eq a b : String.compare a b = Eq -> a = b.
Proof. apply String.compare_eq_iff. Qed.

Lemma lexico_eq {A B} (ca : A -> A -> comparison)
    (cb : B -> B -> comparison) :
  (forall a b, ca a b = Eq -> a = b) ->
  (forall a b, cb a b = Eq -> a = b) ->
  forall x y, lexico ca cb x y = Eq -> x = y.
Proof.
  intros Ha Hb [a b] [a' b']. unfold lexico. simpl.
  destruct (ca a a') eqn:E; try discriminate.
  intros H. by rewrite (Ha _ _ E), (Hb _ _ H).
Qed.

Lemma key_compare_eq a b : key_compare a b = Eq -> a = b.
Proof.
  apply lexico_eq; [apply lexico_eq|]; auto using Z.compare_eq,
    string_compare_eq.
Qed.

Lemma assoc_keyed {V} (g : Z -> V) y ys :
  assoc Z.eqb y (map (fun y' => (y', g y')) ys)
  = if existsb (Z.eqb y) ys then Some (g y) else None.
Proof.
  induction ys as [|y' ys IH]; simpl; [done|].
  destruct (Z.eqb_spec y y') as [->|]; simpl; [done | exact IH].
Qed.

Lemma existsb_In y ys : existsb (Z.eqb y) ys = true <-> In y ys.
Proof.
  rewrite existsb_exists. split.
  - by intros (x & Hx & ->%Z.eqb_eq).
  - intros H. exists y. split; [done | apply Z.eqb_refl].
Qed.

(** A fiscal year with a grouped incident is one of the pivot's columns. *)
Lemma has_year_column y (inc_data : frame) :
  has_year y inc_data = true ->
  existsb (Z.eqb y) (fin_years (groupby_size inc_data)) = true.
Proof.
  intros H. apply existsb_In. unfold has_year in H.
  apply existsb_exists in H as (r & Hr & Hk).
  destruct (group_key r) as [[[y' d] w]|] eqn:E; [|discriminate].
  apply Z.eqb_eq in Hk as ->.
  unfold fin_years, groupby_size. rewrite map_map. cbn [fst].
  apply (sorted_unique_In _ Z.compare_eq).
  apply in_map_iff. exists (y, d, w). split; [done|].
  apply (sorted_unique_In _ key_compare_eq).
  apply list_elem_of_In, list_elem_of_omap. exists r.
  split; [by apply list_elem_of_In | done].
Qed.

Lemma groupby_size_nonneg (df : frame) :
  Forall (fun kv => 0 <= snd kv) (groupby_size df).
Proof.
  unfold groupby_size. apply List.Forall_forall.
  intros kv (k & <- & _)%in_map_iff. simpl. lia.
Qed.

Lemma assoc_nonneg {K} (eqb : K -> K -> bool) k (l : list (K * Z)) :
  Forall (fun kv => 0 <= snd kv) l -> 0 <= default 0 (assoc eqb k l).
Proof.
  induction 1 as [|[k' v] l Hv Hl IH]; simpl; [done|].
  destruct (eqb k k'); simpl in *; lia.
Qed.

Lemma label_eqb_rename y0 y :
  In y0 [2021; 2022] ->
  label_eqb (rename_year y0) (rename_year y) = (y0 =? y).
Proof.
  intros H.
  assert (Hy0 : y0 = 2021 \/ y0 = 2022) by (simpl in H; intuition).
  unfold rename_year at 2.
  repeat match goal with
         | |- context [if ?y =? ?c then _ else _] =>
             destruct (Z.eqb_spec y c); [subst; destruct Hy0 as [->| ->];
                                         reflexivity|]
         end.
  destruct Hy0 as [->| ->];
    (transitivity false;
     [reflexivity | symmetry; apply Z.eqb_neq; congruence]).
Qed.

Lemma assoc_rename y0 (l : list (Z * Z)) :
  In y0 [2021; 2022] ->
  assoc label_eqb (rename_year y0)
    (map (fun yc => (rename_year (fst yc), snd yc)) l)
  = assoc Z.eqb y0 l.
Proof.
  intros H. induction l as [|[y c] l IH]; simpl; [done|].
  by rewrite label_eqb_rename, IH.
Qed.

End KeyFacts.

Section MapFacts.

Variable geometry : Type.
Variable unary_union : list geometry -> geometry.

(** A row of the pivot has one non-negative count per observed fiscal year
    and their sum as its total. *)
Lemma pivot_row_shape sizes p :
  Forall (fun kv => 0 <= snd kv) sizes -> In p (pivot sizes) ->
  exists f : Z -> Z,
    (forall y, 0 <= f y) /\
    pv_years p = map (fun y => (y, f y)) (fin_years sizes) /\
    pv_Total_Incidents p = sum (map f (fin_years sizes)).
Proof.
  intros Hs (dw & <- & _)%in_map_iff.
  exists (fun y => default 0 (assoc key_eqb (y, fst dw, snd dw) sizes)).
  split; [|split].
  - intros y. by apply assoc_nonneg.
  - cbn [pv_years]. by rewrite map_map.
  - cbn [pv_Total_Incidents]. by rewrite !map_map.
Qed.

Lemma cell_value_missing (years : list Z) w g d t y :
  cell_value (JoinedRow (geometry := geometry) w g d
                (map (fun y => (y, None)) years) t) y = 0.
Proof.
  unfold cell_value. cbn [j_years].
  rewrite (assoc_keyed (fun _ => None)). by destruct (existsb _ years).
Qed.

Lemma cell_value_matched (years : list Z) (f : Z -> Z) w g d t y :
  cell_value (JoinedRow (geometry := geometry) w g d
                (map (fun yc => (fst yc, Some (snd yc)))
                   (map (fun y => (y, f y)) years)) t) y
  = if existsb (Z.eqb y) years then f y else 0.
Proof.
  unfold cell_value. cbn [j_years]. rewrite map_map. cbn [fst snd].
  rewrite (assoc_keyed (fun y => Some (f y))).
  by destruct (existsb _ years).
Qed.

(** Every row of the left join is consistent. *)
Lemma join_pivot_ok sizes (kml_data : list (kml_row geometry)) r :
  Forall (fun kv => 0 <= snd kv) sizes ->
  In r (join_pivot (fin_years sizes) kml_data (pivot sizes)) ->
  joined_ok (fin_years sizes) r.
Proof.
  intros Hs. unfold join_pivot. rewrite in_flat_map.
  intros (k & _ & Hr).
  destruct (List.filter _ (pivot sizes)) as [|p0 ps] eqn:E.
  - destruct Hr as [<-|[]]. split.
    + cbn [j_Total_Incidents default]. symmetry.
      erewrite map_ext; [apply sum_zero|].
      intros y. apply cell_value_missing.
    + intros y. by rewrite cell_value_missing.
  - apply in_map_iff in Hr as (p & <- & Hp).
    assert (Hin : In p (pivot sizes)).
    { rewrite <- E in Hp. by apply filter_In in Hp as [? _]. }
    destruct (pivot_row_shape sizes p Hs Hin) as (f & Hf & -> & ->).
    split.
    + cbn [j_Total_Incidents default]. apply (f_equal sum).
      apply map_ext_in. intros y Hy. rewrite cell_value_matched.
      by rewrite (proj2 (existsb_In y _) Hy).
    + intros y. rewrite cell_value_matched.
      destruct (existsb _ _); [apply Hf | done].
Qed.

Lemma set_j_Ward_ok years w (r : joined_row geometry) :
  joined_ok years r -> joined_ok years (set_j_Ward w r).
Proof. by intros H. Qed.

Lemma set_j_Ward_if_ok years (b : bool) w (r : joined_row geometry) :
  joined_ok years r -> joined_ok years (if b then set_j_Ward w r else r).
Proof. intros H. by destruct b. Qed.

(** Every row of the dissolved table carries its counts and their sum. *)
Lemma dissolve_ok years (rows : list (joined_row geometry)) m :
  Forall (joined_ok years) rows ->
  In m (dissolve unary_union years rows) -> map_ok years m.
Proof.
  intros Hrows (w & <- & _)%in_map_iff.
  set (group := List.filter (fun r => String.eqb (j_Ward r) w) rows).
  assert (Hg : Forall (joined_ok years) group).
  { apply List.Forall_forall. intros r [Hr _]%filter_In.
    rewrite List.Forall_forall in Hrows. by apply Hrows. }
  exists (fun y => sum (map (fun r => cell_value r y) group)).
  cbn [m_years m_Total_Incidents]. split; [|split].
  - apply map_ext. intros y. f_equal.
    apply (nansum_sum (fun r => mjoin (assoc Z.eqb y (j_years r)))).
  - rewrite (nansum_sum j_Total_Incidents).
    rewrite (sum_exchange (fun r y => cell_value r y)).
    apply (f_equal sum). apply map_ext_in. intros r Hr.
    rewrite List.Forall_forall in Hg. by destruct (Hg r Hr).
  - intros y. apply sum_nonneg. apply List.Forall_forall.
    intros z (r & <- & Hr)%in_map_iff.
    rewrite List.Forall_forall in Hg. by destruct (Hg r Hr) as [_ H].
Qed.

Lemma set_m_District_ok years (b : bool) d (m : map_row geometry) :
  map_ok years m -> map_ok years (if b then set_m_District d m else m).
Proof. intros H. by destruct b. Qed.

(** With incidents in both fiscal years 2021 and 2022,
    [combine_maps_w_data] returns, and every row it returns is consistent. *)
Lemma combine_rows (kml_data : list (kml_row geometry)) (inc_data : frame)
    (census_data : list (string * option Z)) :
  has_year 2021 inc_data = true -> has_year 2022 inc_data = true ->
  exists out,
    combine_maps_w_data unary_union kml_data inc_data census_data = Ok out /\
    Forall (out_ok census_data) out.
Proof.
  intros H21 H22. unfold combine_maps_w_data. cbv zeta.
  set (sizes := groupby_size inc_data).
  set (years := fin_years sizes).
  assert (Hy21 : existsb (Z.eqb 2021) years = true)
    by (by apply has_year_column).
  assert (Hy22 : existsb (Z.eqb 2022) years = true)
    by (by apply has_year_column).
  rewrite Hy21, Hy22. cbn [andb]. eexists. split; [reflexivity|].
  apply List.Forall_forall. intros o Ho.
  apply in_map_iff in Ho as ([m obs] & <- & Hmo).
  apply in_flat_map in Hmo as (m' & Hm' & Hobs).
  assert (Hm : m' = m /\
               (~ In (m_Ward m) (map fst census_data) -> obs = 0)).
  { destruct (List.filter _ census_data) as [|c0 cs] eqn:E.
    - destruct Hobs as [[= -> <-]|[]]. by split.
    - apply in_map_iff in Hobs as (c & [= -> <-] & Hc). split; [done|].
      intros Hno. destruct Hno. rewrite <- E in Hc.
      apply filter_In in Hc as [Hc Heq%String.eqb_eq].
      rewrite <- Heq. by apply in_map. }
  destruct Hm as [-> Hcensus]. clear Hobs.
  assert (Hok : map_ok years m).
  { apply in_map_iff in Hm' as (m1 & <- & Hm1).
    apply in_map_iff in Hm1 as (m0 & <- & Hm0).
    assert (H0 : map_ok years m0).
    { eapply dissolve_ok; [|exact Hm0].
      apply List.Forall_forall. intros r Hr.
      apply in_map_iff in Hr as (r1 & <- & Hr1).
      apply in_map_iff in Hr1 as (r0 & <- & Hr0).
      assert (joined_ok years r0)
        by (apply (join_pivot_ok sizes kml_data);
            [apply groupby_size_nonneg | exact Hr0]).
      by apply set_j_Ward_if_ok, set_j_Ward_ok. }
    by apply set_m_District_ok, set_m_District_ok. }
  destruct Hok as (h & Hyears & Htotal & Hh).
  split.
  { cbn [year_columns Total_Incidents]. rewrite Hyears, !map_map.
    by rewrite Htotal. }
  exists (h 2021), (h 2022). cbn [year_columns Incidents_per_10000
    Population_Census_2021 Ward].
  change (LStr "2021") with (rename_year 2021).
  change (LStr "2022") with (rename_year 2022).
  rewrite !assoc_rename by (simpl; tauto).
  rewrite Hyears, !assoc_keyed, Hy21, Hy22.
  repeat split; auto. eexists. reflexivity.
Qed.

(** C5: in the output of [combine_maps_w_data] (which returns when the
    incidents cover the fiscal years 2021 and 2022), the per-fiscal-year
    count columns of every ward row add up to its total-incidents column;
    zero-filled wards and wards merged by the Ettingshall collapse and the
    dissolve are rows like any other. *)
Theorem combine_maps_total_is_sum_of_years
    (kml_data : list (kml_row geometry)) (inc_data : frame)
    (census_data : list (string * option Z)) :
  has_year 2021 inc_data = true -> has_year 2022 inc_data = true ->
  exists out,
    combine_maps_w_data unary_union kml_data inc_data census_data = Ok out /\
    Forall (fun r => sum (map snd (year_columns r)) = Total_Incidents r) out.
Proof.
  intros H21 H22.
  destruct (combine_rows kml_data inc_data census_data H21 H22)
    as (out & Hout & Hrows).
  exists out. split; [done|].
  eapply List.Forall_impl; [|exact Hrows]. by intros r [H _].
Qed.

(** C4: in the output of [combine_maps_w_data], the rate of every ward row
    with population P and counts c2021 and c2022 in the columns "2021" and
    "2022" is the binary64 value of ((c2021 + c2022) / (P * 2)) * 10000:
    the correctly rounded quotient of the two numbers, times 10000,
    correctly rounded.  P is a population below 2^62 in absolute value, so
    that its double is the int64 the code computes. *)
Theorem combine_maps_rate_formula
    (kml_data : list (kml_row geometry)) (inc_data : frame)
    (census_data : list (string * option Z)) :
  has_year 2021 inc_data = true -> has_year 2022 inc_data = true ->
  exists out,
    combine_maps_w_data unary_union kml_data inc_data census_data = Ok out /\
    Forall
      (fun r =>
         exists c2021 c2022,
           assoc label_eqb (LStr "2021") (year_columns r) = Some c2021 /\
           assoc label_eqb (LStr "2022") (year_columns r) = Some c2022 /\
           (- 2 ^ 62 <= Population_Census_2021 r < 2 ^ 62 ->
            Incidents_per_10000 r
            = SFmul 53 1024
                (SFdiv 53 1024 (Z2F (c2021 + c2022))
                   (Z2F (Population_Census_2021 r * 2)))
                (Z2F 10000)))
      out.
Proof.
  intros H21 H22.
  destruct (combine_rows kml_data inc_data census_data H21 H22)
    as (out & Hout & Hrows).
  exists out. split; [done|].
  eapply List.Forall_impl; [|exact Hrows].
  intros r (_ & c21 & c22 & Ha & Hb & _ & _ & [b Hrate] & _).
  exists c21, c22. split; [done|]. split; [done|].
  intros Hp. rewrite Hrate. unfold inc_per_pop.
  by rewrite double_observation_small.
Qed.

(** C10: [combine_maps_w_data] returns also when a ward row has population
    zero, as every ward absent from the census has after the zero-fill: the
    rate of such a row is plus infinity when its 2021 and 2022 counts add up
    to a positive number and not-a-number when they add up to zero, and the
    counts are never negative. *)
Theorem combine_maps_zero_population
    (kml_data : list (kml_row geometry)) (inc_data : frame)
    (census_data : list (string * option Z)) :
  has_year 2021 inc_data = true -> has_year 2022 inc_data = true ->
  exists out,
    combine_maps_w_data unary_union kml_data inc_data census_data = Ok out /\
    Forall
      (fun r =>
         (~ In (Ward r) (map fst census_data) ->
          Population_Census_2021 r = 0) /\
         exists c2021 c2022,
           assoc label_eqb (LStr "2021") (year_columns r) = Some c2021 /\
           assoc label_eqb (LStr "2022") (year_columns r) = Some c2022 /\
           0 <= c2021 + c2022 /\
           (Population_Census_2021 r = 0 ->
            (0 < c2021 + c2022 ->
             Incidents_per_10000 r = S754_infinity false) /\
            (c2021 + c2022 = 0 -> Incidents_per_10000 r = S754_nan)))
      out.
Proof.
  intros H21 H22.
  destruct (combine_rows kml_data inc_data census_data H21 H22)
    as (out & Hout & Hrows).
  exists out. split; [done|].
  eapply List.Forall_impl; [|exact Hrows].
  intros r (_ & c21 & c22 & Ha & Hb & H1 & H2 & [b Hrate] & Hcensus).
  split; [done|]. exists c21, c22.
  split; [done|]. split; [done|]. split; [lia|].
  intros Hpop. rewrite Hrate, Hpop. apply inc_per_pop_zero_population.
Qed.

End MapFacts.

Lemma combine_maps_total_is_sum_of_years_witness :
  exists out,
    combine_maps_w_data (@concat nat) Examples.boundaries
      Examples.incidents Examples.census = Ok out /\
    Forall (fun r => sum (map snd (year_columns r)) = Total_Incidents r) out.
Proof.
  assert (H21 : has_year 2021 Examples.incidents = true)
    by (vm_compute; reflexivity).
  assert (H22 : has_year 2022 Examples.incidents = true)
    by (vm_compute; reflexivity).
  exact (combine_maps_total_is_sum_of_years (list nat) (@concat nat)
           Examples.boundaries Examples.incidents Examples.census H21 H22).
Defined.

Lemma combine_maps_rate_formula_witness :
  exists out,
    combine_maps_w_data (@concat nat) Examples.boundaries
      Examples.incidents Examples.census = Ok out /\
    Forall
      (fun r =>
         exists c2021 c2022,
           assoc label_eqb (LStr "2021") (year_columns r) = Some c2021 /\
           assoc label_eqb (LStr "2022") (year_columns r) = Some c2022 /\
           (- 2 ^ 62 <= Population_Census_2021 r < 2 ^ 62 ->
            Incidents_per_10000 r
            = SFmul 53 1024
                (SFdiv 53 1024 (Z2F (c2021 + c2022))
                   (Z2F (Population_Census_2021 r * 2)))
                (Z2F 10000)))
      out.
Proof.
  assert (H21 : has_year 2021 Examples.incidents = true)
    by (vm_compute; reflexivity).
  assert (H22 : has_year 2022 Examples.incidents = true)
    by (vm_compute; reflexivity).
  exact (combine_maps_rate_formula (list nat) (@concat nat)
           Examples.boundaries Examples.incidents Examples.census H21 H22).
Defined.

Lemma combine_maps_zero_population_witness :
  exists out,
    combine_maps_w_data (@concat nat) Examples.boundaries
      Examples.incidents Examples.census = Ok out /\
    Forall
      (fun r =>
         (~ In (Ward r) (map fst Examples.census) ->
          Population_Census_2021 r = 0) /\
         exists c2021 c2022,
           assoc label_eqb (LStr "2021") (year_columns r) = Some c2021 /\
           assoc label_eqb (LStr "2022") (year_columns r) = Some c2022 /\
           0 <= c2021 + c2022 /\
           (Population_Census_2021 r = 0 ->
            (0 < c2021 + c2022 ->
             Incidents_per_10000 r = S754_infinity false) /\
            (c2021 + c2022 = 0 -> Incidents_per_10000 r = S754_nan)))
      out.
Proof.
  assert (H21 : has_year 2021 Examples.incidents = true)
    by (vm_compute; reflexivity).
  assert (H22 : has_year 2022 Examples.incidents = true)
    by (vm_compute; reflexivity).
  exact (combine_maps_zero_population (list nat) (@concat nat)
           Examples.boundaries Examples.incidents Examples.census H21 H22).
Defined.

(** The three example wards: one incident in each of 2021 and 2022 on a
    population of 10000 gives the rate 1; the merged Ettingshall ward and
    King's Norton South are absent from the census, so their population is
    0 and their rates are plus infinity and not-a-number. *)
Example combine_maps_example :
  match combine_maps_w_data (@concat nat) Examples.boundaries
          Examples.incidents Examples.census with
  | Ok out =>
      map (fun r => (Ward r, geometry_ r, District r, year_columns r,
                     Total_Incidents r, Population_Census_2021 r,
                     Incidents_per_10000 r)) out
      = [ ("Ettingshall", [2; 3]%nat, Str "Wolverhampton",
           [(LStr "2013", 1); (LStr "2021", 0); (LStr "2022", 1)], 2, 0,
           S754_infinity false);
          ("Kings Norton South", [4%nat], Int 0,
           [(LStr "2013", 0); (LStr "2021", 0); (LStr "2022", 0)], 0, 0,
           S754_nan);
          ("Tipton Green", [1%nat], Str "Sandwell",
           [(LStr "2013", 0); (LStr "2021", 1); (LStr "2022", 1)], 2, 10000,
           Z2F 1) ]
  | Raise _ => False
  end.
Proof. vm_compute. reflexivity. Qed.

(** * Further properties *)

(** ** [add_time_dimensions]: when it returns, and what it writes *)

Section TimeMore.

Variable country_holidays : list Z -> list (Z * Z * Z).

(** On a datetime column the result is decided by the presence of a
    timestamp: the years handed to the holiday calendar come from the
    earliest and the latest one. *)
Lemma add_time_dimensions_datetime (df : frame) (date_col : string) :
  ~ In date_col derived_columns ->
  Forall (fun c => is_datetime c = true) (col df date_col) ->
  add_time_dimensions country_holidays df date_col
  = match stamp_min (map as_stamp (col df date_col)),
          stamp_max (map as_stamp (col df date_col)) with
    | Some lo, Some hi =>
        Ok (map (time_row (country_holidays (range (year lo) (year hi + 1)))
                   date_col) df)
    | _, _ => Raise TypeError
    end.
Proof.
  intros Hcol Hdt.
  destruct (stamp_min (map as_stamp (col df date_col))) as [lo|] eqn:Hlo;
    [destruct (stamp_max (map as_stamp (col df date_col))) as [hi|] eqn:Hhi|].
  - by apply add_time_dimensions_rowwise.
  - assert (Hne : forall c, In c derived_columns -> c <> date_col)
      by (intros c Hc ->; done).
    assert (H1 : "fin_year" <> date_col) by (apply Hne; simpl; tauto).
    assert (H2 : "month" <> date_col) by (apply Hne; simpl; tauto).
    assert (H3 : "week" <> date_col) by (apply Hne; simpl; tauto).
    assert (H4 : "weekday" <> date_col) by (apply Hne; simpl; tauto).
    unfold add_time_dimensions. cbv zeta.
    rewrite (dt_datetime _ Hdt), bind_ok.
    rewrite !set_col_dates0.
    do 4 (rewrite (col_map_preserved _ date_col)
            by (intros ?; rewrite ?get_set_where_ne, ?get_insert_ne by done;
                reflexivity);
          rewrite (dt_datetime _ Hdt), bind_ok; cbv beta;
          rewrite ?set_col_dates).
    by rewrite Hlo, Hhi.
  - assert (Hne : forall c, In c derived_columns -> c <> date_col)
      by (intros c Hc ->; done).
    assert (H1 : "fin_year" <> date_col) by (apply Hne; simpl; tauto).
    assert (H2 : "month" <> date_col) by (apply Hne; simpl; tauto).
    assert (H3 : "week" <> date_col) by (apply Hne; simpl; tauto).
    assert (H4 : "weekday" <> date_col) by (apply Hne; simpl; tauto).
    unfold add_time_dimensions. cbv zeta.
    rewrite (dt_datetime _ Hdt), bind_ok.
    rewrite !set_col_dates0.
    do 4 (rewrite (col_map_preserved _ date_col)
            by (intros ?; rewrite ?get_set_where_ne, ?get_insert_ne by done;
                reflexivity);
          rewrite (dt_datetime _ Hdt), bind_ok; cbv beta;
          rewrite ?set_col_dates).
    by rewrite Hlo.
Qed.

Lemma stamp_fold_none (f : timestamp -> timestamp -> timestamp) l :
  fold_left
    (fun acc o =>
       match acc, o with
       | Some a, Some t => Some (f a t)
       | None, _ => o
       | _, None => acc
       end) l None = None ->
  Forall (fun o => o = None) l.
Proof.
  induction l as [|o l IH]; [constructor|]. simpl. destruct o as [t|].
  - intros H. exfalso. revert H. generalize t. clear.
    induction l as [|o l IH]; intros a; simpl; [discriminate|].
    destruct o; apply IH.
  - intros H. constructor; auto.
Qed.

Lemma stamp_min_none l : stamp_min l = None -> Forall (fun o => o = None) l.
Proof.
  apply (stamp_fold_none
           (fun a t => if Calendar.stamp_leb a t then a else t)).
Qed.

Lemma dt_not_datetime (values : list cell) :
  Exists (fun c => is_datetime c = false) values ->
  dt values = Raise AttributeError.
Proof.
  intros H. unfold dt. replace (forallb _ values) with false; [done|].
  symmetry. apply not_true_is_false. rewrite forallb_forall. intros Hall.
  apply List.Exists_exists in H as (c & Hc & Hd).
  specialize (Hall c Hc). by destruct c.
Qed.






Lemma time_row_other h dc (r : row) c :
  ~ In c derived_columns -> time_row h dc r !! c = r !! c.
Proof.
  intros Hc.
  assert (Hne : forall c', In c' derived_columns -> c' <> c)
    by (intros c' Hc' ->; done).
  unfold time_row. cbv zeta.
  rewrite !lookup_set_where_ne by (apply Hne; simpl; tauto).
  rewrite !lookup_insert_ne by (apply Hne; simpl; tauto).
  reflexivity.
Qed.


(** With a timestamp in a datetime column the function returns the table
    of its rows' [time_row]s. *)
Lemma add_time_dimensions_rows (df : frame) (date_col : string) t :
  ~ In date_col derived_columns ->
  Forall (fun c => is_datetime c = true) (col df date_col) ->
  In (Stamp t) (col df date_col) ->
  exists lo hi,
    stamp_min (map as_stamp (col df date_col)) = Some lo /\
    stamp_max (map as_stamp (col df date_col)) = Some hi /\
    add_time_dimensions country_holidays df date_col
    = Ok (map (time_row (country_holidays (range (year lo) (year hi + 1)))
                 date_col) df).
Proof.
  intros Hcol Hdt Ht.
  assert (Hin : In (Some t) (map as_stamp (col df date_col)))
    by (apply in_map_iff; by exists (Stamp t)).
  destruct (stamp_min_some _ _ Hin) as [lo Hlo].
  destruct (stamp_max_some _ _ Hin) as [hi Hhi].
  exists lo, hi. split; [done|]. split; [done|].
  by apply add_time_dimensions_rowwise.
Qed.

Lemma forallb_false_Exists {A} (f : A -> bool) (l : list A) :
  forallb f l = false -> Exists (fun x => f x = false) l.
Proof.
  induction l as [|x l IH]; [discriminate|]. simpl.
  destruct (f x) eqn:E; [|by left]. intros H. right. by apply IH.
Qed.

Lemma stamp_min_all_none l :
  Forall (fun o => o = None) l -> stamp_min l = None.
Proof.
  unfold stamp_min. induction 1 as [|o l -> _ IH]; [done | exact IH].
Qed.

Lemma stamp_or_none (l : list cell) :
  (exists t, In (Stamp t) l) \/
  Forall (fun o => o = None) (map as_stamp l).
Proof.
  induction l as [|c l [[t Ht]|IH]].
  - right. constructor.
  - left. exists t. by right.
  - destruct c as [| | |t]; try (right; by constructor).
    left. exists t. by left.
Qed.

(** Whenever [add_time_dimensions] returns, the date column is a datetime
    column with at least one timestamp. *)
Lemma add_time_dimensions_ok_dated (df df' : frame) (date_col : string) :
  ~ In date_col derived_columns ->
  add_time_dimensions country_holidays df date_col = Ok df' ->
  Forall (fun c => is_datetime c = true) (col df date_col) /\
  exists t, In (Stamp t) (col df date_col).
Proof.
  intros Hcol Hok.
  destruct (forallb is_datetime (col df date_col)) eqn:E.
  - assert (Hdt : Forall (fun c => is_datetime c = true)
                    (col df date_col)).
    { apply List.Forall_forall. intros c Hc.
      rewrite forallb_forall in E. by apply E. }
    split; [done|].
    rewrite (add_time_dimensions_datetime df date_col Hcol Hdt) in Hok.
    destruct (stamp_or_none (col df date_col)) as [H|H]; [done|].
    rewrite (stamp_min_all_none _ H) in Hok. discriminate.
  - exfalso. unfold add_time_dimensions in Hok.
    rewrite dt_not_datetime in Hok; [discriminate|].
    by apply forallb_false_Exists.
Qed.




(** X4: [add_time_dimensions] keeps the number of records and every column
    other than the five it writes. *)
Theorem add_time_dimensions_frame (df df' : frame) (date_col : string) :
  ~ In date_col derived_columns ->
  add_time_dimensions country_holidays df date_col = Ok df' ->
  List.length df' = List.length df /\
  forall i r c,
    df !! i = Some r -> ~ In c derived_columns ->
    exists r', df' !! i = Some r' /\ r' !! c = r !! c.
Proof.
  intros Hcol Hok.
  destruct (add_time_dimensions_ok_dated df df' date_col Hcol Hok)
    as [Hdt [t Ht]].
  destruct (add_time_dimensions_rows df date_col t Hcol Hdt Ht)
    as (lo & hi & _ & _ & H).
  rewrite H in Hok. injection Hok as <-. split; [apply length_map|].
  intros i r c Hi Hc. eexists. split.
  { change map with (@fmap list _). by rewrite list_lookup_fmap, Hi. }
  by apply time_row_other.
Qed.

End TimeMore.

Section CalendarFacts.






End CalendarFacts.

(** The extras of this part on a table of one dated and one undated
    record, with 2020-03-27 declared a holiday. *)




Lemma add_time_dimensions_frame_witness :
  exists df',
    add_time_dimensions (fun _ => [(2020, 3, 27)])
      [Examples.friday; Examples.undated] "Incdate" = Ok df' /\
    List.length df' = 2%nat /\
    forall i r c,
      [Examples.friday; Examples.undated] !! i = Some r ->
      ~ In c derived_columns ->
      exists r', df' !! i = Some r' /\ r' !! c = r !! c.
Proof.
  assert (H1 : ~ In "Incdate" derived_columns)
    by (simpl; intros H; intuition discriminate).
  assert (H2 : Forall (fun c => is_datetime c = true)
                 (col [Examples.friday; Examples.undated] "Incdate"))
    by (repeat constructor).
  pose proof (add_time_dimensions_datetime (fun _ => [(2020, 3, 27)])
                [Examples.friday; Examples.undated] "Incdate" H1 H2) as H.
  cbn [col map as_stamp] in H.
  eexists. split; [exact H|].
  exact (add_time_dimensions_frame (fun _ => [(2020, 3, 27)])
           [Examples.friday; Examples.undated] _ "Incdate" H1 H).
Defined.


(** ** [group_animals]: what it leaves alone *)

Section AnimalMore.

Lemma tag_row_other lex dc (r : row) c :
  c <> "animal" -> tag_row lex dc r !! c = r !! c.
Proof.
  intros Hc. revert r. induction lex as [|e lex IH]; intros r; [done|].
  unfold tag_row in *. simpl. rewrite IH. unfold row_step.
  by rewrite lookup_set_where_ne.
Qed.

Lemma tag_row_animal lex dc (r : row) :
  get (tag_row lex dc r) "animal" = get r "animal" \/
  exists a kws, In (a, kws) lex /\ get (tag_row lex dc r) "animal" = Str a.
Proof.
  revert r. induction lex as [|[a kws] lex IH]; intros r; [by left|].
  change (tag_row ((a, kws) :: lex) dc r)
    with (tag_row lex dc (row_step (matches kws) dc "animal" (Str a) r)).
  destruct (IH (row_step (matches kws) dc "animal" (Str a) r))
    as [H | (b & kws' & Hin & H)].
  - rewrite H. unfold row_step. rewrite get_set_where.
    destruct (matches kws _); [|by left].
    right. exists a, kws. split; [by left | done].
  - right. exists b, kws'. split; [by right | done].
Qed.

(** Whenever it returns, [group_animals] acted on every row by itself. *)
Lemma group_animals_ok_rows lex dc (df df' : frame) :
  group_animals df lex dc = Ok df' -> df' = map (tag_row lex dc) df.
Proof.
  intros Hok. destruct lex as [|[a kws] lex].
  - injection Hok as <-. by rewrite map_id.
  - destruct df as [|r0 df]; [discriminate|].
    destruct (forallb is_str (col (r0 :: df) dc)) eqn:E.
    + rewrite group_animals_rowwise in Hok; [by injection Hok | done |].
      apply List.Forall_forall. intros r Hr.
      rewrite forallb_forall in E. apply E.
      apply in_map_iff. by exists r.
    + rewrite group_animals_raises in Hok; [discriminate|].
      apply forallb_false_Exists in E.
      apply List.Exists_exists in E as (c & Hc & Hs).
      apply in_map_iff in Hc as (r & <- & Hr).
      apply List.Exists_exists. by exists r.
Qed.

(** X6: whenever [group_animals] returns, it has kept the number of
    records and every column other than "animal", and the animal of a
    record is what it was or a category name of the lexicon. *)
Theorem group_animals_frame (lex : list (string * list string))
    (desc_col : string) (df df' : frame) :
  group_animals df lex desc_col = Ok df' ->
  List.length df' = List.length df /\
  forall i r,
    df !! i = Some r ->
    exists r',
      df' !! i = Some r' /\
      (forall c, c <> "animal" -> r' !! c = r !! c) /\
      (get r' "animal" = get r "animal" \/
       exists a kws, In (a, kws) lex /\ get r' "animal" = Str a).
Proof.
  intros Hok. apply group_animals_ok_rows in Hok as ->.
  split; [apply length_map|]. intros i r Hi.
  exists (tag_row lex desc_col r). split.
  { change map with (@fmap list _). by rewrite list_lookup_fmap, Hi. }
  split; [intros c Hc; by apply tag_row_other | apply tag_row_animal].
Qed.




Lemma lower_char_not_upper c : Text.is_upper (Text.lower_char c) = false.
Proof. destruct c as [[] [] [] [] [] [] [] []]; reflexivity. Qed.

Lemma lower_no_upper s : has_upper (Text.lower s) = false.
Proof.
  induction s as [|c s IH]; [done|]. cbn [Text.lower has_upper].
  by rewrite lower_char_not_upper, IH.
Qed.

Lemma prefix_has_upper k s :
  String.prefix k s = true -> has_upper k = true -> has_upper s = true.
Proof.
  revert s. induction k as [|a k IH]; intros [|b s]; simpl; try discriminate.
  destruct (ascii_dec a b) as [->|]; [|discriminate].
  intros Hp [Ha|Hk]%orb_true_iff; apply orb_true_iff; [by left|].
  right. by apply IH.
Qed.

Lemma contains_has_upper k s :
  Text.contains k s = true -> has_upper k = true -> has_upper s = true.
Proof.
  induction s as [|c s IH]; cbn [Text.contains].
  - destruct (String.prefix k "") eqn:E; [|discriminate].
    intros _. by apply prefix_has_upper.
  - destruct (String.prefix k (String c s)) eqn:E.
    + intros _. by apply prefix_has_upper.
    + intros H Hk. cbn [has_upper]. apply orb_true_iff. right. by apply IH.
Qed.

(** A keyword with an uppercase letter is never found, the description
    being lowercased first. *)
Lemma matches_uppercase_keywords kws c :
  kws <> [] -> forallb Text.literal kws = true ->
  forallb has_upper kws = true -> matches kws c = false.
Proof.
  intros Hne Hlit Hup. destruct c as [|s| |]; try reflexivity.
  apply not_true_is_false. intros H.
  apply (matches_mentions kws s Hne Hlit) in H as (k & Hin & Hk).
  rewrite forallb_forall in Hup.
  pose proof (contains_has_upper _ _ Hk (Hup k Hin)) as Hs.
  by rewrite lower_no_upper in Hs.
Qed.

Lemma tag_row_animal_matched lex dc (r : row) :
  dc <> "animal" ->
  get (tag_row lex dc r) "animal" = get r "animal" \/
  exists a kws,
    In (a, kws) lex /\ matches kws (get r dc) = true /\
    get (tag_row lex dc r) "animal" = Str a.
Proof.
  intros Hdc. revert r.
  induction lex as [|[a kws] lex IH]; intros r; [by left|].
  change (tag_row ((a, kws) :: lex) dc r)
    with (tag_row lex dc (row_step (matches kws) dc "animal" (Str a) r)).
  destruct (IH (row_step (matches kws) dc "animal" (Str a) r))
    as [H | (b & kws' & Hin & Hm & H)].
  - rewrite H. unfold row_step. rewrite get_set_where.
    destruct (matches kws _) eqn:E; [|by left].
    right. exists a, kws. split; [by left | done].
  - right. exists b, kws'. split; [by right|]. split; [|done].
    unfold row_step in Hm. by rewrite get_set_where_ne in Hm.
Qed.

(** X8: the keywords are compared with the lowercased description as they
    are, so a category all of whose keywords hold an uppercase letter is
    never assigned: a record that ends with that category had it before. *)
Theorem group_animals_uppercase_keywords_dead
    (lex : list (string * list string)) (desc_col : string)
    (df df' : frame) (a : string) :
  lexicon_ok lex = true -> desc_col <> "animal" ->
  (forall kws, In (a, kws) lex -> forallb has_upper kws = true) ->
  group_animals df lex desc_col = Ok df' ->
  forall i r r',
    df !! i = Some r -> df' !! i = Some r' ->
    get r' "animal" = Str a -> get r "animal" = Str a.
Proof.
  intros Hok Hdc Hup Hres i r r' Hi Hi' Ha.
  apply group_animals_ok_rows in Hres as ->.
  change map with (@fmap list _) in Hi'.
  rewrite list_lookup_fmap, Hi in Hi'. injection Hi' as <-.
  destruct (tag_row_animal_matched lex desc_col r Hdc)
    as [H | (b & kws & Hin & Hm & H)]; [congruence|].
  rewrite Ha in H. injection H as <-.
  destruct (lexicon_ok_entry _ _ _ Hok Hin) as [Hne Hlit].
  rewrite (matches_uppercase_keywords kws _ Hne Hlit (Hup kws Hin)) in Hm.
  discriminate.
Qed.

End AnimalMore.

Lemma group_animals_frame_witness :
  exists df',
    group_animals [Examples.friday; Examples.catapult]
      Config.animal_keywords "Incident Detail" = Ok df' /\
    List.length df' = 2%nat.
Proof.
  assert (H : Forall (fun r => is_str (get r "Incident Detail") = true)
                [Examples.friday; Examples.catapult])
    by (repeat constructor).
  assert (Hdf : [Examples.friday; Examples.catapult] <> []) by discriminate.
  pose proof (group_animals_rowwise Config.animal_keywords "Incident Detail"
                _ Hdf H) as Hok.
  eexists. split; [exact Hok|].
  exact (proj1 (group_animals_frame Config.animal_keywords "Incident Detail"
                  _ _ Hok)).
Defined.


Lemma group_animals_uppercase_keywords_dead_witness :
  exists df',
    group_animals [Examples.cat_upper] [("Cat", ["Cat"; "Kitten"])]
      "Incident Detail" = Ok df' /\
    forall i r r',
      [Examples.cat_upper] !! i = Some r -> df' !! i = Some r' ->
      get r' "animal" = Str "Cat" -> get r "animal" = Str "Cat".
Proof.
  assert (H1 : lexicon_ok [("Cat", ["Cat"; "Kitten"])] = true)
    by (vm_compute; reflexivity).
  assert (H2 : "Incident Detail" <> "animal") by discriminate.
  assert (H3 : forall kws, In ("Cat", kws) [("Cat", ["Cat"; "Kitten"])] ->
                           forallb has_upper kws = true).
  { intros kws [E|[]]. injection E as <-. reflexivity. }
  assert (H : Forall (fun r => is_str (get r "Incident Detail") = true)
                [Examples.cat_upper])
    by (repeat constructor).
  assert (Hdf : [Examples.cat_upper] <> []) by discriminate.
  pose proof (group_animals_rowwise [("Cat", ["Cat"; "Kitten"])]
                "Incident Detail" _ Hdf H) as Hok.
  eexists. split; [exact Hok|].
  exact (group_animals_uppercase_keywords_dead [("Cat", ["Cat"; "Kitten"])]
           "Incident Detail" _ _ "Cat" H1 H2 H3 Hok).
Defined.

Section AnimalShadow.

Lemma prefix_trans a b s :
  String.prefix a b = true -> String.prefix b s = true ->
  String.prefix a s = true.
Proof.
  revert b s. induction a as [|x a IH]; intros [|y b] [|z s]; simpl;
    try done.
  destruct (ascii_dec x y) as [->|]; [|done].
  destruct (ascii_dec y z) as [->|]; [|done].
  destruct (ascii_dec z z); [|done]. apply IH.
Qed.

Lemma contains_cons_true p c s :
  Text.contains p s = true -> Text.contains p (String c s) = true.
Proof.
  intros H. cbn [Text.contains]. rewrite H.
  by destruct (String.prefix p (String c s)).
Qed.

Lemma contains_of_prefix a b s :
  Text.contains a b = true -> String.prefix b s = true ->
  Text.contains a s = true.
Proof.
  revert s. induction b as [|y b IH]; intros s Hab Hbs.
  - cbn [Text.contains] in Hab.
    destruct (String.prefix a "") eqn:E; [|done].
    destruct s; cbn [Text.contains];
      by rewrite (prefix_trans a "" _ E Hbs).
  - cbn [Text.contains] in Hab.
    destruct (String.prefix a (String y b)) eqn:E.
    + destruct s; cbn [Text.contains];
        by rewrite (prefix_trans _ _ _ E Hbs).
    + destruct s as [|z s]; [done|]. simpl in Hbs.
      destruct (ascii_dec y z) as [->|]; [|done].
      apply contains_cons_true. by apply IH.
Qed.

(** Containment of texts is transitive. *)
Lemma contains_trans a b s :
  Text.contains a b = true -> Text.contains b s = true ->
  Text.contains a s = true.
Proof.
  intros Hab. induction s as [|c s IH]; cbn [Text.contains].
  - destruct (String.prefix b "") eqn:E; [|done].
    intros _. by apply (contains_of_prefix a b "").
  - destruct (String.prefix b (String c s)) eqn:E.
    + intros _. by apply (contains_of_prefix a b (String c s)).
    + intros H. fold (Text.contains a (String c s)).
      apply contains_cons_true. by apply IH.
Qed.

(** X9: a keyword that contains a keyword of a later category is dead: on
    a table of at least one record, a description that mentions it is never
    given its own category, because the later category (or one after it)
    overwrites it. *)
Theorem group_animals_shadowed_keyword
    (lex l1 l2 l3 : list (string * list string)) (desc_col : string)
    (df : frame) (a b k k' : string) (kws kws' : list string) :
  lexicon_ok lex = true -> desc_col <> "animal" ->
  List.NoDup (map fst lex) ->
  lex = (l1 ++ (a, kws) :: l2 ++ (b, kws') :: l3)%list ->
  In k kws -> In k' kws' -> Text.contains k' k = true ->
  df <> [] -> Forall (fun r => is_str (get r desc_col) = true) df ->
  exists df',
    group_animals df lex desc_col = Ok df' /\
    forall i r s,
      df !! i = Some r -> get r desc_col = Str s ->
      Text.contains k (Text.lower s) = true ->
      exists r', df' !! i = Some r' /\ get r' "animal" <> Str a.
Proof.
  intros Hok Hdc Hnd Hlex Hk Hk' Hsub Hdf Hstr.
  exists (map (tag_row lex desc_col) df).
  split; [by apply group_animals_rowwise|].
  intros i r s Hi Hs Hc. exists (tag_row lex desc_col r). split.
  { change map with (@fmap list _). by rewrite list_lookup_fmap, Hi. }
  assert (Hb : In (b, kws') lex).
  { rewrite Hlex. apply in_or_app. right. right.
    apply in_or_app. right. by left. }
  assert (Hm : matches kws' (Str s) = true).
  { apply (matches_entry lex (b, kws') s Hok Hb). exists k'.
    split; [done|]. by apply (contains_trans k' k). }
  rewrite Hlex in Hnd. rewrite map_app in Hnd. cbn [map fst] in Hnd.
  apply List.NoDup_remove_2 in Hnd.
  rewrite map_app in Hnd. cbn [map fst] in Hnd.
  assert (Hab : a <> b /\ ~ In a (map fst l3)).
  { split; intros H; apply Hnd; apply in_or_app; right;
      apply in_or_app; right; [left; by symmetry | by right]. }
  destruct Hab as [Hab Hal3].
  replace lex with ((l1 ++ (a, kws) :: l2) ++ [(b, kws')] ++ l3)%list
    by (rewrite Hlex; by rewrite <- !app_assoc).
  rewrite (tag_row_app (l1 ++ (a, kws) :: l2)).
  rewrite (tag_row_app [(b, kws')] l3).
  set (r1 := tag_row (l1 ++ (a, kws) :: l2) desc_col r).
  assert (Hr1 : get r1 desc_col = Str s)
    by (unfold r1; by rewrite tag_row_desc).
  set (r2 := tag_row [(b, kws')] desc_col r1).
  assert (Hr2 : get r2 "animal" = Str b).
  { unfold r2, tag_row. cbn [fold_left fst snd]. unfold row_step.
    by rewrite get_set_where, Hr1, Hm. }
  destruct (tag_row_animal l3 desc_col r2) as [H | (c & kwsc & Hin & H)];
    rewrite H.
  - rewrite Hr2. congruence.
  - intros [= ->]. apply Hal3. apply in_map_iff. by exists (a, kwsc).
Qed.

End AnimalShadow.

(** The configured lexicon: "pigeon" is a keyword of "bird" and contains
    "pig", the keyword of the later category "pig". *)
Lemma group_animals_shadowed_keyword_witness :
  exists df',
    group_animals [Examples.friday; Examples.pigeon]
      Config.animal_keywords "Incident Detail" = Ok df' /\
    forall i r s,
      [Examples.friday; Examples.pigeon] !! i = Some r ->
      get r "Incident Detail" = Str s ->
      Text.contains "pigeon" (Text.lower s) = true ->
      exists r', df' !! i = Some r' /\ get r' "animal" <> Str "bird".
Proof.
  assert (H1 : lexicon_ok Config.animal_keywords = true)
    by (vm_compute; reflexivity).
  assert (H2 : "Incident Detail" <> "animal") by discriminate.
  assert (H3 : List.NoDup (map fst Config.animal_keywords)).
  { repeat (constructor; [simpl; intuition discriminate|]). constructor. }
  assert (H4 : Forall (fun r => is_str (get r "Incident Detail") = true)
                 [Examples.friday; Examples.pigeon])
    by (repeat constructor).
  assert (H5 : [Examples.friday; Examples.pigeon] <> []) by discriminate.
  refine (group_animals_shadowed_keyword Config.animal_keywords
            (take 2 Config.animal_keywords)
            (take 2 (drop 3 Config.animal_keywords))
            (drop 6 Config.animal_keywords)
            "Incident Detail" [Examples.friday; Examples.pigeon]
            "bird" "pig" "pigeon" "pig" _ ["pig"]
            H1 H2 H3 eq_refl _ _ eq_refl H5 H4).
  - right. left. reflexivity.
  - left. reflexivity.
Defined.

(** A trapped pigeon is recorded as a pig. *)
Example group_animals_pigeon :
  match group_animals [Examples.pigeon] Config.animal_keywords
          "Incident Detail" with
  | Ok df' => map (fun r => get r "animal") df' = [Str "pig"]
  | Raise _ => False
  end.
Proof. vm_compute. reflexivity. Qed.

(** ** [modify_wards]: one rule per name, and the ward column argument *)

Section WardMore.

Lemma find_rule_other (rules : list (list string * string)) s :
  ~ In s (sources rules) ->
  List.find (fun e => existsb (String.eqb s) (fst e)) rules = None.
Proof.
  induction rules as [|e rules IH]; [done|]. unfold sources. simpl.
  rewrite in_app_iff. intros H.
  destruct (existsb (String.eqb s) e.1) eqn:E.
  - apply existsb_exists in E as (n & Hn & ->%String.eqb_eq). tauto.
  - apply IH. unfold sources. tauto.
Qed.

(** On the names that a rule mentions, applying the statements in sequence
    gives the new name of that one rule. *)
Lemma sources_renamed_once :
  forallb
    (fun s =>
       String.eqb (rename_names ward_rules s) (default s (lookup_rule s))
       && negb (Text.contains " Ward" s)
       && bool_decide (last_rule ward_rules (Str s) = lookup_rule s))
    (sources ward_rules) = true.
Proof. vm_compute. reflexivity. Qed.

Lemma rename_names_lookup y :
  rename_names ward_rules y = default y (lookup_rule y).
Proof.
  destruct (in_dec string_dec y (sources ward_rules)) as [Hin|Hout].
  - pose proof sources_renamed_once as H. rewrite forallb_forall in H.
    specialize (H y Hin).
    apply andb_true_iff in H as [[H _]%andb_true_iff _].
    by apply String.eqb_eq.
  - rewrite (rename_names_other _ _ Hout). unfold lookup_rule.
    by rewrite (find_rule_other _ _ Hout).
Qed.

(** X10: the renaming statements of [modify_wards] never chain: with the
    default ward column, on a table whose Ward column holds at least one
    string (the text accessor raises on a column without any), every ward
    name comes out as the new name of the one rule that names it once
    " Ward" is removed, or as that shortened name itself when no rule names
    it; a ward that is not a string comes out missing, and no record is
    added or dropped. *)
Theorem modify_wards_one_rule (df : frame) (i : nat) (r : row) :
  Exists (fun c => is_str c = true) (col df "Ward") ->
  df !! i = Some r ->
  List.length (modify_wards df "Ward") = List.length df /\
  exists r',
    modify_wards df "Ward" !! i = Some r' /\
    (forall s, get r "Ward" = Str s ->
       get r' "Ward"
       = Str (default (Text.replace " Ward" "" s)
                (lookup_rule (Text.replace " Ward" "" s)))) /\
    (is_str (get r "Ward") = false -> get r' "Ward" = NaN).
Proof.
  intros _ Hi. rewrite modify_wards_rowwise. split; [apply length_map|].
  exists (modify_row r). split.
  { change map with (@fmap list _). by rewrite list_lookup_fmap, Hi. }
  rewrite get_modify_row_ward. split.
  - intros s ->. by rewrite normalize_str, rename_names_lookup.
  - apply normalize_not_str.
Qed.

Lemma row_step_into names wc new c (r : row) :
  wc <> "Ward" ->
  row_step (isin_str names) "Ward" wc (Str new) (<[wc := c]> r)
  = <[wc := if isin_str names (get r "Ward") then Str new else c]> r.
Proof.
  intros Hwc. unfold row_step, set_where. rewrite get_insert_ne by done.
  destruct (isin_str names (get r "Ward")).
  - apply insert_insert_eq.
  - by rewrite lookup_insert_eq.
Qed.

(** [modify_wards] with another ward column, row by row. *)
Lemma modify_wards_into_rowwise (df : frame) wc :
  wc <> "Ward" -> modify_wards df wc = map (modify_row_into wc) df.
Proof.
  intros Hwc. unfold modify_wards. cbv zeta.
  rewrite loc_set_rowwise.
  repeat (rewrite rename_eq_rowwise || rewrite rename_in_rowwise).
  unfold strip_ward. rewrite set_col_rowwise.
  rewrite !map_map. apply map_ext. intros r. cbv beta.
  repeat rewrite row_step_into by done.
  unfold modify_row_into, row_step, apply_rules_on, ward_rules.
  cbv zeta. cbn [fold_left fst snd]. reflexivity.
Qed.

Lemma apply_rules_on_last rules w0 c acc :
  fold_left (fun c e => if isin_str (fst e) w0 then Str (snd e) else c)
    rules (match acc with Some t => Str t | None => c end)
  = match fold_left
            (fun acc e => if isin_str (fst e) w0 then Some (snd e) else acc)
            rules acc with
    | Some t => Str t
    | None => c
    end.
Proof.
  revert acc. induction rules as [|e rules IH]; intros acc; [done|].
  simpl. rewrite <- IH. by destruct (isin_str e.1 w0).
Qed.

Lemma isin_str_In names s : isin_str names (Str s) = true -> In s names.
Proof.
  unfold isin_str. intros (n & Hn & E)%existsb_exists.
  unfold eq_str in E. apply String.eqb_eq in E. by subst.
Qed.

Lemma last_rule_other rules s :
  ~ In s (sources rules) -> last_rule rules (Str s) = None.
Proof.
  unfold last_rule.
  enough (forall acc, ~ In s (sources rules) ->
            fold_left
              (fun acc e =>
                 if isin_str (fst e) (Str s) then Some (snd e) else acc)
              rules acc = acc) as H by apply H.
  induction rules as [|e rules IH]; intros acc Hs; simpl; [done|].
  unfold sources in Hs. simpl in Hs. rewrite in_app_iff in Hs.
  destruct (isin_str e.1 (Str s)) eqn:E.
  - apply isin_str_In in E. tauto.
  - apply IH. unfold sources. tauto.
Qed.

Lemma last_rule_lookup s : last_rule ward_rules (Str s) = lookup_rule s.
Proof.
  destruct (in_dec string_dec s (sources ward_rules)) as [Hin|Hout].
  - pose proof sources_renamed_once as H. rewrite forallb_forall in H.
    specialize (H s Hin).
    apply andb_true_iff in H as [_ H]. by apply bool_decide_eq_true in H.
  - rewrite (last_rule_other _ _ Hout). unfold lookup_rule.
    by rewrite (find_rule_other _ _ Hout).
Qed.

Lemma lookup_rule_ward_suffix s :
  Text.contains " Ward" s = true -> lookup_rule s = None.
Proof.
  intros Hc.
  destruct (in_dec string_dec s (sources ward_rules)) as [Hin|Hout].
  - pose proof sources_renamed_once as H. rewrite forallb_forall in H.
    specialize (H s Hin).
    apply andb_true_iff in H as [[_ H]%andb_true_iff _].
    rewrite Hc in H. discriminate.
  - unfold lookup_rule. by rewrite (find_rule_other _ _ Hout).
Qed.

Lemma apply_rules_on_lookup s c :
  apply_rules_on ward_rules (Str s) c
  = match lookup_rule s with Some t => Str t | None => c end.
Proof.
  rewrite <- last_rule_lookup. unfold apply_rules_on, last_rule.
  apply (apply_rules_on_last ward_rules (Str s) c None).
Qed.

(** X11: with a ward column other than "Ward" (and "District") the
    function leaves the Ward column alone and tests its rules on the
    original Ward, not on the shortened name: the ward column receives the
    new name of the rule that names the original ward, and otherwise the
    ward with " Ward" removed, so a name that contains " Ward" is shortened
    but never renamed; the district is forced to Sandwell exactly for the
    original ward "Tipton Green". *)
Theorem modify_wards_other_column
    (df : frame) (ward_col : string) (i : nat) (r : row) (s : string) :
  ward_col <> "Ward" -> ward_col <> "District" ->
  df !! i = Some r -> get r "Ward" = Str s ->
  exists r',
    modify_wards df ward_col !! i = Some r' /\
    r' !! "Ward" = r !! "Ward" /\
    (get r' ward_col
     = Str (default (Text.replace " Ward" "" s) (lookup_rule s))) /\
    (Text.contains " Ward" s = true ->
     get r' ward_col = Str (Text.replace " Ward" "" s)) /\
    (get r' "District"
     = if String.eqb s "Tipton Green" then Str "Sandwell"
       else get r "District") /\
    forall c, c <> ward_col -> c <> "District" -> r' !! c = r !! c.
Proof.
  intros Hw Hd Hi Hs. rewrite modify_wards_into_rowwise by done.
  exists (modify_row_into ward_col r). split.
  { change map with (@fmap list _). by rewrite list_lookup_fmap, Hi. }
  unfold modify_row_into. cbv zeta. rewrite Hs.
  rewrite get_insert_ne by done. rewrite Hs.
  rewrite apply_rules_on_lookup. cbn [str_replace eq_str].
  assert (Hcell : match lookup_rule s with
                  | Some t => Str t
                  | None => Str (Text.replace " Ward" "" s)
                  end = Str (default (Text.replace " Ward" "" s)
                               (lookup_rule s)))
    by (by destruct (lookup_rule s)).
  rewrite Hcell. repeat split.
  - rewrite lookup_set_where_ne by done. by rewrite lookup_insert_ne.
  - rewrite get_set_where_ne by done. by rewrite get_insert_eq.
  - intros Hc. rewrite get_set_where_ne by done. rewrite get_insert_eq.
    by rewrite (lookup_rule_ward_suffix _ Hc).
  - rewrite get_set_where. destruct (String.eqb s "Tipton Green"); [done|].
    by rewrite get_insert_ne.
  - intros c Hc1 Hc2. rewrite lookup_set_where_ne by done.
    by rewrite lookup_insert_ne.
Qed.

End WardMore.

Lemma modify_wards_one_rule_witness :
  List.length (modify_wards Examples.wards "Ward")
  = List.length Examples.wards /\
  exists r',
    modify_wards Examples.wards "Ward" !! 2%nat = Some r' /\
    (forall s, get {[ "Ward" := NaN; "District" := Str "Walsall" ]} "Ward"
               = Str s ->
       get r' "Ward"
       = Str (default (Text.replace " Ward" "" s)
                (lookup_rule (Text.replace " Ward" "" s)))) /\
    (is_str (get {[ "Ward" := NaN; "District" := Str "Walsall" ]} "Ward")
     = false -> get r' "Ward" = NaN).
Proof.
  assert (H : Exists (fun c => is_str c = true) (col Examples.wards "Ward"))
    by (left; reflexivity).
  exact (modify_wards_one_rule Examples.wards 2
           {[ "Ward" := NaN; "District" := Str "Walsall" ]} H eq_refl).
Defined.

Lemma modify_wards_other_column_witness :
  exists r',
    modify_wards [Examples.bournville_ward] "Area" !! 0%nat = Some r' /\
    get r' "Area" = Str "Bournville".
Proof.
  destruct (modify_wards_other_column [Examples.bournville_ward] "Area" 0
              Examples.bournville_ward "Bournville Ward")
    as (r' & H & _ & _ & Hs & _); [done|done|reflexivity|reflexivity|].
  exists r'. split; [exact H|]. exact (Hs eq_refl).
Defined.

(** ** [combine_maps_w_data]: wards, counts and districts of the output *)

Section OrderFacts.

Context {A : Type} (cmp : A -> A -> comparison).
Hypothesis cmp_eq : forall a b, cmp a b = Eq -> a = b.
Hypothesis cmp_antisym : forall a b, cmp a b = CompOpp (cmp b a).
Hypothesis cmp_trans :
  forall a b c, cmp a b = Lt -> cmp b c = Lt -> cmp a c = Lt.

Lemma cmp_irrefl a : cmp a a <> Lt.
Proof. intros H. pose proof (cmp_antisym a a) as E. rewrite H in E. done. Qed.

Lemma ascending_cons x l :
  ascending cmp (x :: l) = true
  <-> (forall y, In y l -> cmp x y = Lt) /\ ascending cmp l = true.
Proof.
  cbn [ascending]. rewrite andb_true_iff, forallb_forall.
  split; intros [H1 H2]; (split; [|done]); intros y Hy.
  - specialize (H1 y Hy). by destruct (cmp x y).
  - by rewrite (H1 y Hy).
Qed.

Lemma insert_sorted_ascending a l :
  ascending cmp l = true -> ascending cmp (insert_sorted cmp a l) = true.
Proof.
  induction l as [|y l IH]; intros Hl; [done|].
  pose proof Hl as [Hy Hl']%ascending_cons.
  cbn [insert_sorted]. destruct (cmp a y) eqn:E.
  - exact Hl.
  - apply ascending_cons. split; [|exact Hl].
    intros z [<-|Hz]; [done|]. eapply cmp_trans; eauto.
  - apply ascending_cons. split; [|by apply IH].
    intros z [->|Hz]%(insert_sorted_In cmp cmp_eq); [|by apply Hy].
    rewrite cmp_antisym, E. done.
Qed.

(** The index built by sorting without repetitions is strictly increasing. *)
Lemma sorted_unique_ascending l : ascending cmp (sorted_unique cmp l) = true.
Proof.
  induction l as [|a l IH]; [done|]. by apply insert_sorted_ascending.
Qed.

Lemma ascending_NoDup l : ascending cmp l = true -> List.NoDup l.
Proof.
  induction l as [|x l IH]; [constructor|].
  intros [Hx Hl]%ascending_cons. constructor; [|by apply IH].
  intros Hin. by apply (cmp_irrefl x), Hx.
Qed.

Lemma sorted_unique_NoDup l : List.NoDup (sorted_unique cmp l).
Proof. apply ascending_NoDup, sorted_unique_ascending. Qed.

End OrderFacts.

Section StringOrder.

Lemma ascii_compare_trans a b c :
  Ascii.compare a b = Lt -> Ascii.compare b c = Lt -> Ascii.compare a c = Lt.
Proof.
  unfold Ascii.compare. rewrite !N.compare_lt_iff. lia.
Qed.

Lemma string_compare_trans a b c :
  String.compare a b = Lt -> String.compare b c = Lt ->
  String.compare a c = Lt.
Proof.
  revert b c. induction a as [|x a IH]; intros [|y b] [|z c]; simpl;
    try done.
  destruct (Ascii.compare x y) eqn:E1; try done;
    destruct (Ascii.compare y z) eqn:E2; try done; intros H1 H2.
  - apply Ascii.compare_eq_iff in E1 as ->. rewrite E2.
    apply Ascii.compare_eq_iff in E2 as ->. eauto.
  - apply Ascii.compare_eq_iff in E1 as ->. by rewrite E2.
  - apply Ascii.compare_eq_iff in E2 as <-. by rewrite E1.
  - by rewrite (ascii_compare_trans _ _ _ E1 E2).
Qed.

Lemma lexico_antisym {A B} (ca : A -> A -> comparison)
    (cb : B -> B -> comparison) :
  (forall a b, ca a b = CompOpp (ca b a)) ->
  (forall a b, cb a b = CompOpp (cb b a)) ->
  forall x y, lexico ca cb x y = CompOpp (lexico ca cb y x).
Proof.
  intros Ha Hb [a b] [a' b']. unfold lexico. simpl.
  rewrite (Ha a a'). destruct (ca a' a); simpl; auto.
Qed.

Lemma lexico_trans {A B} (ca : A -> A -> comparison)
    (cb : B -> B -> comparison) :
  (forall a b, ca a b = Eq -> a = b) ->
  (forall a b c, ca a b = Lt -> ca b c = Lt -> ca a c = Lt) ->
  (forall a b c, cb a b = Lt -> cb b c = Lt -> cb a c = Lt) ->
  forall x y z,
    lexico ca cb x y = Lt -> lexico ca cb y z = Lt -> lexico ca cb x z = Lt.
Proof.
  intros Heq Ha Hb [a b] [a' b'] [a'' b'']. unfold lexico. simpl.
  destruct (ca a a') eqn:E1; try done;
    destruct (ca a' a'') eqn:E2; try done; intros H1 H2.
  - apply Heq in E1 as ->. rewrite E2. eauto.
  - apply Heq in E1 as ->. by rewrite E2.
  - apply Heq in E2 as <-. by rewrite E1.
  - by rewrite (Ha _ _ _ E1 E2).
Qed.

Lemma key_compare_antisym a b : key_compare a b = CompOpp (key_compare b a).
Proof.
  apply lexico_antisym; [apply lexico_antisym|];
    auto using String.compare_antisym.
  intros x y. apply Z.compare_antisym.
Qed.

Lemma key_compare_trans a b c :
  key_compare a b = Lt -> key_compare b c = Lt -> key_compare a c = Lt.
Proof.
  apply lexico_trans.
  - apply lexico_eq; auto using Z.compare_eq, string_compare_eq.
  - apply lexico_trans.
    + apply Z.compare_eq.
    + intros x y z Hxy Hyz. change (x < y) in Hxy. change (y < z) in Hyz.
      change (x < z). lia.
    + apply string_compare_trans.
  - apply string_compare_trans.
Qed.

Lemma pivot_index_NoDup (inc_data : frame) :
  List.NoDup (pivot_index inc_data).
Proof.
  apply sorted_unique_NoDup.
  - apply lexico_eq; apply string_compare_eq.
  - apply lexico_antisym; apply String.compare_antisym.
  - apply lexico_trans;
      [apply string_compare_eq | apply string_compare_trans ..].
Qed.

End StringOrder.

Section CountFacts.

Lemma count_cons {A} (P : A -> bool) x l :
  Z.of_nat (List.length (List.filter P (x :: l)))
  = (if P x then 1 else 0) + Z.of_nat (List.length (List.filter P l)).
Proof. simpl. destruct (P x); simpl; lia. Qed.

Lemma sum_app l1 l2 : sum (l1 ++ l2) = sum l1 + sum l2.
Proof. induction l1 as [|x l1 IH]; simpl; [done|]. rewrite IH. lia. Qed.

Lemma sum_map_ext_in {A} (f g : A -> Z) l :
  (forall x, In x l -> f x = g x) -> sum (map f l) = sum (map g l).
Proof. intros H. f_equal. by apply map_ext_in. Qed.

Lemma filter_map_comm {A B} (P : B -> bool) (F : A -> B) l :
  List.filter P (map F l) = map F (List.filter (fun a => P (F a)) l).
Proof.
  induction l as [|x l IH]; simpl; [done|].
  destruct (P (F x)); simpl; by rewrite IH.
Qed.

Section Classes.

Context {A C : Type} (eqb : C -> C -> bool).
Hypothesis eqb_eq : forall a b, eqb a b = true <-> a = b.

(** Among classes without repetition exactly one is the class of [a]. *)
Lemma sum_indicator a cs :
  List.NoDup cs ->
  sum (map (fun c => if eqb a c then 1 else 0) cs)
  = if existsb (eqb a) cs then 1 else 0.
Proof.
  induction 1 as [|c cs Hc Hcs IH]; simpl; [done|].
  rewrite IH. destruct (eqb a c) eqn:E; simpl; [|done].
  apply eqb_eq in E as ->.
  destruct (existsb (eqb c) cs) eqn:E'; [|done].
  apply existsb_exists in E' as (c' & Hc' & ->%eqb_eq). done.
Qed.

(** Counting the elements with [P] class by class. *)
Lemma count_partition (f : A -> C) (P : A -> bool) cs l :
  List.NoDup cs ->
  (forall x, In x l -> P x = true -> In (f x) cs) ->
  Z.of_nat (List.length (List.filter P l))
  = sum (map (fun c =>
                Z.of_nat (List.length
                            (List.filter (fun x => P x && eqb (f x) c) l)))
           cs).
Proof.
  intros Hcs. induction l as [|x l IH]; intros Hin.
  - simpl. symmetry. apply sum_zero.
  - rewrite count_cons.
    rewrite (sum_map_ext_in _
               (fun c =>
                  (if P x && eqb (f x) c then 1 else 0)
                  + Z.of_nat
                      (List.length
                         (List.filter (fun x => P x && eqb (f x) c) l))) cs)
      by (intros c _;
          exact (count_cons (fun x0 => P x0 && eqb (f x0) c) x l)).
    rewrite (sum_add (fun c => if P x && eqb (f x) c then 1 else 0)).
    rewrite <- IH by (intros; apply Hin; simpl; auto). f_equal.
    destruct (P x) eqn:E; simpl.
    + rewrite (sum_indicator _ _ Hcs).
      destruct (existsb (eqb (f x)) cs) eqn:E'; [done|].
      assert (Hx : In (f x) cs) by (apply Hin; simpl; auto).
      assert (existsb (eqb (f x)) cs = true)
        by (apply existsb_exists; exists (f x); split; [done|];
            by apply eqb_eq).
      congruence.
    + symmetry. apply sum_zero.
Qed.

Lemma assoc_map_keyed {V} (g : C -> V) k l :
  assoc eqb k (map (fun k' => (k', g k')) l)
  = if existsb (eqb k) l then Some (g k) else None.
Proof.
  induction l as [|k' l IH]; simpl; [done|].
  destruct (eqb k k') eqn:E; simpl; [|exact IH].
  by apply eqb_eq in E as ->.
Qed.

End Classes.

Lemma count_omap {A B} (f : A -> option B) (P : B -> bool) l :
  List.length (List.filter P (omap f l))
  = List.length
      (List.filter
         (fun a => match f a with Some b => P b | None => false end) l).
Proof.
  induction l as [|a l IH]; [done|].
  change (omap f (a :: l))
    with (match f a with Some b => b :: omap f l | None => omap f l end).
  cbn [List.filter]. destruct (f a) as [b|]; [|exact IH].
  cbn [List.filter]. destruct (P b); cbn [List.length]; by rewrite IH.
Qed.

Lemma key_eqb_eq a b : key_eqb a b = true <-> a = b.
Proof.
  destruct a as [[y d] w], b as [[y' d'] w']. unfold key_eqb.
  rewrite !andb_true_iff, Z.eqb_eq, !String.eqb_eq.
  split; [intros [[-> ->] ->]; done | intros [= -> -> ->]; done].
Qed.

Lemma pair_eqb_eq (a b : string * string) :
  String.eqb (fst a) (fst b) && String.eqb (snd a) (snd b) = true <-> a = b.
Proof.
  destruct a, b. simpl. rewrite andb_true_iff, !String.eqb_eq.
  split; [intros [-> ->]; done | intros [= -> ->]; done].
Qed.

(** A cell of the grouped sizes, a missing one read as 0, is the number of
    incidents with that key. *)
Lemma groupby_size_count (inc_data : frame) k :
  default 0 (assoc key_eqb k (groupby_size inc_data))
  = Z.of_nat (List.length
                (List.filter (key_eqb k) (omap group_key inc_data))).
Proof.
  unfold groupby_size. cbv zeta.
  rewrite (assoc_map_keyed key_eqb key_eqb_eq).
  destruct (existsb _ _) eqn:E; [done|]. simpl.
  destruct (List.filter (key_eqb k) (omap group_key inc_data))
    as [|k' l] eqn:F; [done|].
  assert (Hk : In k' (List.filter (key_eqb k) (omap group_key inc_data)))
    by (rewrite F; by left).
  apply filter_In in Hk as [Hin <-%key_eqb_eq].
  assert (existsb (key_eqb k)
            (sorted_unique key_compare (omap group_key inc_data)) = true).
  { apply existsb_exists. exists k. split; [|by apply key_eqb_eq].
    by apply (sorted_unique_In _ key_compare_eq). }
  congruence.
Qed.

(** The fiscal years of the pivot are those of the grouped incidents. *)
Lemma fin_years_keys (inc_data : frame) y :
  In y (fin_years (groupby_size inc_data))
  <-> exists d w, In (y, d, w) (omap group_key inc_data).
Proof.
  unfold fin_years, groupby_size. cbv zeta. rewrite map_map. cbn [fst].
  rewrite (sorted_unique_In _ Z.compare_eq), in_map_iff. split.
  - intros ([[y' d] w] & <- & Hk).
    apply (proj1 (sorted_unique_In _ key_compare_eq _ _)) in Hk.
    simpl. by exists d, w.
  - intros (d & w & Hk). exists (y, d, w). split; [done|].
    by apply (sorted_unique_In _ key_compare_eq).
Qed.

Lemma fin_years_has_year (inc_data : frame) y :
  In y (fin_years (groupby_size inc_data)) <-> has_year y inc_data = true.
Proof.
  rewrite fin_years_keys. unfold has_year. rewrite existsb_exists. split.
  - intros (d & w & Hk). apply list_elem_of_In, list_elem_of_omap in Hk
      as (r & Hr & E).
    exists r. split; [by apply list_elem_of_In|]. rewrite E.
    apply Z.eqb_refl.
  - intros (r & Hr & Hk).
    destruct (group_key r) as [[[y' d] w]|] eqn:E; [|discriminate].
    apply Z.eqb_eq in Hk as ->. exists d, w.
    apply list_elem_of_In, list_elem_of_omap. exists r.
    split; [by apply list_elem_of_In | done].
Qed.

End CountFacts.

Section MapMore.

Variable geometry : Type.
Variable unary_union : list geometry -> geometry.

(** The pivot, row by row over its index. *)
Lemma pivot_rows (inc_data : frame) :
  pivot (groupby_size inc_data)
  = map (fun dw =>
           PivotRow (snd dw) (fst dw)
             (map (fun y =>
                     (y, default 0
                           (assoc key_eqb (y, fst dw, snd dw)
                              (groupby_size inc_data))))
                (fin_years (groupby_size inc_data)))
             (sum (map (fun y =>
                          default 0
                            (assoc key_eqb (y, fst dw, snd dw)
                               (groupby_size inc_data)))
                     (fin_years (groupby_size inc_data)))))
      (pivot_index inc_data).
Proof.
  unfold pivot, pivot_index. cbv zeta. apply map_ext. intros dw.
  by rewrite !map_map.
Qed.

Lemma pivot_matches (inc_data : frame) w :
  List.filter (fun p => String.eqb (pv_Ward p) w)
    (pivot (groupby_size inc_data))
  = map (fun dw =>
           PivotRow (snd dw) (fst dw)
             (map (fun y =>
                     (y, default 0
                           (assoc key_eqb (y, fst dw, snd dw)
                              (groupby_size inc_data))))
                (fin_years (groupby_size inc_data)))
             (sum (map (fun y =>
                          default 0
                            (assoc key_eqb (y, fst dw, snd dw)
                               (groupby_size inc_data)))
                     (fin_years (groupby_size inc_data)))))
      (List.filter (fun dw => String.eqb (snd dw) w) (pivot_index inc_data)).
Proof. rewrite pivot_rows. apply filter_map_comm. Qed.

Lemma assoc_map_Some y (l : list (Z * Z)) :
  mjoin (assoc Z.eqb y (map (fun yc => (fst yc, Some (snd yc))) l))
  = assoc Z.eqb y l.
Proof.
  induction l as [|[y' c] l IH]; simpl; [done|].
  destruct (y =? y'); [done | exact IH].
Qed.

(** The incidents of fiscal year [y] and ward [w], district by district. *)
Lemma incidents_by_district (inc_data : frame) y w :
  sum (map (fun dw =>
              default 0
                (assoc key_eqb (y, fst dw, snd dw) (groupby_size inc_data)))
         (List.filter (fun dw => String.eqb (snd dw) w)
            (pivot_index inc_data)))
  = incidents_in inc_data y w.
Proof.
  set (P := fun k : Z * string * string =>
              (fst (fst k) =? y) && String.eqb (snd k) w).
  transitivity
    (Z.of_nat (List.length (List.filter P (omap group_key inc_data)))).
  2: { unfold incidents_in. rewrite count_omap. do 2 f_equal.
       apply filter_ext. intros r.
       by destruct (group_key r) as [[[y' d] w']|]. }
  rewrite (count_partition
             (fun a b : string * string =>
                String.eqb (fst a) (fst b) && String.eqb (snd a) (snd b))
             pair_eqb_eq (fun k => (snd (fst k), snd k)) P
             (List.filter (fun dw => String.eqb (snd dw) w)
                (pivot_index inc_data))).
  - apply sum_map_ext_in. intros [d0 w0] [_ Hw%String.eqb_eq]%filter_In.
    simpl in Hw. subst w0. rewrite groupby_size_count. do 2 f_equal.
    apply filter_ext. intros [[y' d'] w']. unfold P, key_eqb. simpl.
    apply Bool.eq_iff_eq_true.
    rewrite !andb_true_iff, !Z.eqb_eq, !String.eqb_eq.
    intuition congruence.
  - apply List.NoDup_filter, pivot_index_NoDup.
  - intros [[y' d'] w'] Hin [_ Hw]%andb_true_iff. simpl in *.
    apply filter_In. split; [|done].
    apply (sorted_unique_In _
             (lexico_eq _ _ string_compare_eq string_compare_eq)).
    apply in_map_iff. eexists (y', d', w', _). split; [reflexivity|].
    unfold groupby_size. cbv zeta. apply in_map_iff. exists (y', d', w').
    split; [reflexivity|].
    by apply (sorted_unique_In _ key_compare_eq).
Qed.

Lemma join_pivot_cons years (k : kml_row geometry) kml_data pv :
  join_pivot years (k :: kml_data) pv
  = (join_pivot years [k] pv ++ join_pivot years kml_data pv)%list.
Proof. unfold join_pivot. cbn [flat_map]. by rewrite app_nil_r. Qed.

Lemma join_pivot_nil years pv :
  join_pivot (geometry := geometry) years [] pv = [].
Proof. done. Qed.

(** The rows that the left join makes of one boundary row all carry its
    name, and there is at least one. *)
Lemma join_one_ward years (k : kml_row geometry) pv :
  join_pivot years [k] pv <> [] /\
  Forall (fun r => j_Ward r = kml_Ward k) (join_pivot years [k] pv).
Proof.
  unfold join_pivot. cbn [flat_map]. rewrite app_nil_r.
  destruct (List.filter _ pv) as [|p ps]; split; try done.
  - by repeat constructor.
  - apply List.Forall_forall. by intros r (p' & <- & _)%in_map_iff.
Qed.

(** The cells of fiscal year [y] in the rows that the left join makes of
    one boundary row add up to the incidents recorded under its name. *)
Lemma join_one_cells (inc_data : frame) (k : kml_row geometry) y :
  sum (map (fun r => cell_value r y)
         (join_pivot (fin_years (groupby_size inc_data)) [k]
            (pivot (groupby_size inc_data))))
  = incidents_in inc_data y (kml_Ward k).
Proof.
  rewrite <- incidents_by_district.
  unfold join_pivot. cbn [flat_map]. rewrite app_nil_r, pivot_matches.
  assert (Hcell : forall (dw : string * string) w g d t,
            cell_value
              (JoinedRow (geometry := geometry) w g d
                 (map (fun yc => (fst yc, Some (snd yc)))
                    (map (fun y =>
                            (y, default 0
                                  (assoc key_eqb (y, fst dw, snd dw)
                                     (groupby_size inc_data))))
                       (fin_years (groupby_size inc_data)))) t) y
            = default 0
                (assoc key_eqb (y, fst dw, snd dw) (groupby_size inc_data))).
  { intros dw w g d t.
    rewrite (cell_value_matched _ _
               (fun y => default 0
                           (assoc key_eqb (y, fst dw, snd dw)
                              (groupby_size inc_data)))).
    destruct (existsb _ _) eqn:E; [done|].
    rewrite groupby_size_count.
    destruct (List.filter _ (omap group_key inc_data)) as [|k' l] eqn:F;
      [done|].
    assert (Hk : In k' (List.filter (key_eqb (y, fst dw, snd dw))
                          (omap group_key inc_data)))
      by (rewrite F; by left).
    apply filter_In in Hk as [Hin <-%key_eqb_eq].
    assert (existsb (Z.eqb y) (fin_years (groupby_size inc_data)) = true).
    { apply existsb_In, fin_years_keys. by exists (fst dw), (snd dw). }
    congruence. }
  destruct (List.filter _ (pivot_index inc_data)) as [|dw0 dws].
  - cbn [map sum fold_right]. by rewrite cell_value_missing.
  - cbn [map]. cbn [sum fold_right pv_years]. rewrite Hcell. f_equal.
    rewrite !map_map. apply sum_map_ext_in. intros dw _.
    cbn [pv_years]. apply Hcell.
Qed.

(** The districts in the rows that the left join makes of one boundary
    row are those in which its name has incidents. *)
Lemma join_one_districts (inc_data : frame) (k : kml_row geometry) :
  omap id
    (map j_District
       (join_pivot (fin_years (groupby_size inc_data)) [k]
          (pivot (groupby_size inc_data))))
  = districts_of inc_data (kml_Ward k).
Proof.
  unfold join_pivot, districts_of. cbn [flat_map].
  rewrite app_nil_r, pivot_matches.
  destruct (List.filter _ (pivot_index inc_data)) as [|dw0 dws]; [done|].
  cbn [map j_District pv_District]. rewrite !map_map.
  cbn [j_District pv_District].
  change (omap id (Some (fst dw0) :: ?l)) with (fst dw0 :: omap id l).
  f_equal. induction dws as [|dw l IH]; [done|].
  cbn [map]. change (omap id (Some (fst dw) :: ?l)) with (fst dw :: omap id l).
  by rewrite IH.
Qed.

(** The two renaming statements on the joined table, as one. *)
Lemma collapse_rows (rows : list (joined_row geometry)) :
  map (fun r =>
         if Text.re_search "Ettingshall" (j_Ward r)
         then set_j_Ward "Ettingshall" r else r)
    (map (fun r => set_j_Ward (Text.replace "'" "" (j_Ward r)) r) rows)
  = map (fun r => set_j_Ward (collapse_ward (j_Ward r)) r) rows.
Proof.
  rewrite map_map. apply map_ext. intros r. unfold collapse_ward.
  cbv zeta. cbn [j_Ward set_j_Ward].
  by destruct (Text.re_search _ _).
Qed.

(** The rows dissolved into ward [w] are the joined rows of the boundary
    rows merged into [w]. *)
Lemma group_pieces years (kml_data : list (kml_row geometry)) pv w :
  List.filter (fun r => String.eqb (j_Ward r) w)
    (map (fun r => set_j_Ward (collapse_ward (j_Ward r)) r)
       (join_pivot years kml_data pv))
  = map (fun r => set_j_Ward (collapse_ward (j_Ward r)) r)
      (join_pivot years (pieces kml_data w) pv).
Proof.
  induction kml_data as [|k kml_data IH]; [done|].
  rewrite join_pivot_cons, map_app, List.filter_app, IH.
  unfold pieces. cbn [List.filter]. fold (pieces kml_data w).
  destruct (join_one_ward years k pv) as [_ Hw].
  destruct (String.eqb (collapse_ward (kml_Ward k)) w) eqn:E.
  - rewrite (join_pivot_cons years k (pieces kml_data w)), map_app. f_equal.
    apply forallb_filter_id, forallb_forall.
    intros r (r0 & <- & Hr0)%in_map_iff. cbn [j_Ward set_j_Ward].
    rewrite List.Forall_forall in Hw. by rewrite (Hw r0 Hr0).
  - rewrite <- (app_nil_l (map _ (join_pivot years (pieces kml_data w) pv)))
      at 2.
    f_equal.
    induction (join_pivot years [k] pv) as [|r0 rs IHr]; [done|].
    apply Forall_cons in Hw as [Hr0 Hrs]. cbn [map List.filter].
    cbn [j_Ward set_j_Ward]. rewrite Hr0, E. by apply IHr.
Qed.

(** The cells of fiscal year [y] over the joined rows of a list of
    boundary rows. *)
Lemma join_cells (inc_data : frame) (kml_data : list (kml_row geometry)) y :
  sum (map (fun r => cell_value r y)
         (join_pivot (fin_years (groupby_size inc_data)) kml_data
            (pivot (groupby_size inc_data))))
  = sum (map (fun k => incidents_in inc_data y (kml_Ward k)) kml_data).
Proof.
  induction kml_data as [|k kml_data IH]; [done|].
  rewrite join_pivot_cons, map_app, sum_app, IH, join_one_cells. done.
Qed.

Lemma join_districts (inc_data : frame) (kml_data : list (kml_row geometry)) :
  omap id
    (map j_District
       (join_pivot (fin_years (groupby_size inc_data)) kml_data
          (pivot (groupby_size inc_data))))
  = flat_map (fun k => districts_of inc_data (kml_Ward k)) kml_data.
Proof.
  induction kml_data as [|k kml_data IH]; [done|].
  rewrite join_pivot_cons, map_app, omap_app, IH, join_one_districts. done.
Qed.

Lemma join_ward_In years (kml_data : list (kml_row geometry)) pv w :
  In w (map j_Ward (join_pivot years kml_data pv))
  <-> In w (map kml_Ward kml_data).
Proof.
  induction kml_data as [|k kml_data IH]; [done|].
  rewrite join_pivot_cons, map_app, in_app_iff, IH. cbn [map In].
  destruct (join_one_ward years k pv) as [Hne Hw].
  rewrite List.Forall_forall in Hw.
  enough (In w (map j_Ward (join_pivot years [k] pv)) <-> kml_Ward k = w)
    by tauto.
  split.
  - intros (r & <- & Hr)%in_map_iff. symmetry. by apply Hw.
  - intros <-. destruct (join_pivot years [k] pv) as [|r rs]; [done|].
    left. apply Hw. by left.
Qed.

(** The rows of the dissolved table: one ward of the boundaries each, with
    the counts, the total and the districts of the boundary rows merged
    into it. *)
Lemma dissolve_rows (inc_data : frame) (kml_data : list (kml_row geometry))
    m :
  In m (dissolve unary_union (fin_years (groupby_size inc_data))
          (map (fun r => set_j_Ward (collapse_ward (j_Ward r)) r)
             (join_pivot (fin_years (groupby_size inc_data)) kml_data
                (pivot (groupby_size inc_data))))) ->
  In (m_Ward m) (map (fun k => collapse_ward (kml_Ward k)) kml_data) /\
  m_years m
  = map (fun y => (y, ward_count kml_data inc_data (m_Ward m) y))
      (fin_years (groupby_size inc_data)) /\
  m_Total_Incidents m
  = sum (map (ward_count kml_data inc_data (m_Ward m))
           (fin_years (groupby_size inc_data))) /\
  m_District m
  = match flat_map (fun k => districts_of inc_data (kml_Ward k))
            (pieces kml_data (m_Ward m)) with
    | [] => Int 0
    | d :: ds => Str (fold_left String.append ds d)
    end.
Proof.
  unfold dissolve. intros (w & <- & Hw)%in_map_iff.
  cbn [m_Ward m_years m_Total_Incidents m_District].
  rewrite group_pieces.
  apply (proj1 (sorted_unique_In _ string_compare_eq _ _)) in Hw.
  rewrite map_map in Hw. cbn [j_Ward set_j_Ward] in Hw.
  split; [|split; [|split]].
  - apply in_map_iff in Hw as (r & <- & Hr).
    assert (Hr' : In (j_Ward r) (map j_Ward (join_pivot
                     (fin_years (groupby_size inc_data)) kml_data
                     (pivot (groupby_size inc_data)))))
      by (by apply in_map).
    apply join_ward_In, in_map_iff in Hr' as (k & <- & Hk).
    apply in_map_iff. by exists k.
  - apply map_ext. intros y.
    rewrite map_map. cbn [j_years set_j_Ward].
    rewrite (nansum_sum (fun r => mjoin (assoc Z.eqb y (j_years r)))).
    f_equal. apply (join_cells inc_data (pieces kml_data w) y).
  - rewrite map_map. cbn [j_Total_Incidents set_j_Ward].
    rewrite (nansum_sum j_Total_Incidents).
    erewrite sum_map_ext_in.
    2: { intros r Hr.
         exact (proj1 (join_pivot_ok geometry (groupby_size inc_data)
                         (pieces kml_data w) r
                         (groupby_size_nonneg inc_data) Hr)). }
    rewrite <- (sum_exchange (fun r y => cell_value r y)).
    apply sum_map_ext_in. intros y _.
    apply (join_cells inc_data (pieces kml_data w) y).
  - unfold sum_str. rewrite map_map. cbn [j_District set_j_Ward].
    by rewrite join_districts.
Qed.

(** Every ward of the boundaries has its row in the dissolved table. *)
Lemma dissolve_wards (years : list Z) (rows : list (joined_row geometry)) w :
  In w (map m_Ward (dissolve unary_union years rows))
  <-> In w (map j_Ward rows).
Proof.
  unfold dissolve. rewrite map_map. cbn [m_Ward]. rewrite map_id.
  apply (sorted_unique_In _ string_compare_eq).
Qed.

(** The value returned by [combine_maps_w_data], over the dissolved
    table. *)
Lemma combine_ok (kml_data : list (kml_row geometry)) (inc_data : frame)
    (census_data : list (string * option Z)) out :
  combine_maps_w_data unary_union kml_data inc_data census_data = Ok out ->
  exists is_int64,
  out
  = map (fun '(r, observation) =>
           OutRow (m_Ward r) (m_geometry r) (m_District r)
             (map (fun yc => (rename_year (fst yc), snd yc)) (m_years r))
             (m_Total_Incidents r)
             observation
             (inc_per_pop is_int64
                (default 0 (assoc Z.eqb 2021 (m_years r)))
                (default 0 (assoc Z.eqb 2022 (m_years r)))
                observation))
      (flat_map
         (fun r =>
            match List.filter (fun c => String.eqb (fst c) (m_Ward r))
                    census_data with
            | [] => [(r, 0)]
            | matches => map (fun c => (r, default 0 (snd c))) matches
            end)
         (map (fun r =>
                 if String.eqb (m_Ward r) "Ettingshall"
                 then set_m_District (Str "Wolverhampton") r else r)
            (map (fun r =>
                    if existsb (String.eqb (m_Ward r))
                         ["Castle Vale"; "Allens Cross"]
                    then set_m_District (Str "Birmingham") r else r)
               (dissolve unary_union (fin_years (groupby_size inc_data))
                  (map (fun r => set_j_Ward (collapse_ward (j_Ward r)) r)
                     (join_pivot (fin_years (groupby_size inc_data))
                        kml_data (pivot (groupby_size inc_data)))))))).
Proof.
  unfold combine_maps_w_data. cbv zeta. rewrite collapse_rows.
  destruct (existsb (Z.eqb 2021) _ && existsb (Z.eqb 2022) _);
    [|discriminate].
  intros [= <-]. eexists. reflexivity.
Qed.

(** A row of the output comes from one row of the dissolved table, with
    the two district corrections applied and a population attached. *)
Lemma combine_out_row (kml_data : list (kml_row geometry))
    (inc_data : frame) (census_data : list (string * option Z)) out r :
  combine_maps_w_data unary_union kml_data inc_data census_data = Ok out ->
  In r out ->
  exists m,
    In m (dissolve unary_union (fin_years (groupby_size inc_data))
            (map (fun r => set_j_Ward (collapse_ward (j_Ward r)) r)
               (join_pivot (fin_years (groupby_size inc_data))
                  kml_data (pivot (groupby_size inc_data))))) /\
    Ward r = m_Ward m /\
    year_columns r
    = map (fun yc => (rename_year (fst yc), snd yc)) (m_years m) /\
    Total_Incidents r = m_Total_Incidents m /\
    District r
    = (if String.eqb (m_Ward m) "Ettingshall" then Str "Wolverhampton"
       else if existsb (String.eqb (m_Ward m))
                 ["Castle Vale"; "Allens Cross"]
            then Str "Birmingham" else m_District m) /\
    (exists is_int64,
       Incidents_per_10000 r
       = inc_per_pop is_int64 (default 0 (assoc Z.eqb 2021 (m_years m)))
           (default 0 (assoc Z.eqb 2022 (m_years m)))
           (Population_Census_2021 r)) /\
    ((List.filter (fun c => String.eqb (fst c) (Ward r)) census_data = [] /\
      Population_Census_2021 r = 0) \/
     exists c, In c census_data /\ fst c = Ward r /\
               Population_Census_2021 r = default 0 (snd c)).
Proof.
  intros Hok Hr. destruct (combine_ok _ _ _ _ Hok) as [b Hout].
  rewrite Hout in Hr.
  apply in_map_iff in Hr as ([m2 obs] & <- & Hmo).
  apply in_flat_map in Hmo as (m2' & Hm2 & Hobs).
  apply in_map_iff in Hm2 as (m1 & <- & Hm1).
  apply in_map_iff in Hm1 as (m & <- & Hm).
  exists m. split; [exact Hm|].
  set (m1 := if existsb (String.eqb (m_Ward m))
                  ["Castle Vale"; "Allens Cross"]
             then set_m_District (Str "Birmingham") m else m) in *.
  set (m2' := if String.eqb (m_Ward m1) "Ettingshall"
              then set_m_District (Str "Wolverhampton") m1 else m1) in *.
  assert (H1 : m_Ward m1 = m_Ward m /\ m_years m1 = m_years m /\
               m_Total_Incidents m1 = m_Total_Incidents m)
    by (unfold m1; by destruct (existsb _ _)).
  destruct H1 as (Hw1 & Hy1 & Ht1).
  assert (H2 : m_Ward m2' = m_Ward m /\ m_years m2' = m_years m /\
               m_Total_Incidents m2' = m_Total_Incidents m /\
               m_District m2'
               = (if String.eqb (m_Ward m) "Ettingshall"
                  then Str "Wolverhampton"
                  else if existsb (String.eqb (m_Ward m))
                            ["Castle Vale"; "Allens Cross"]
                       then Str "Birmingham" else m_District m)).
  { unfold m2'. rewrite Hw1.
    destruct (String.eqb (m_Ward m) "Ettingshall"); cbn [m_Ward m_years
      m_Total_Incidents m_District set_m_District];
      (repeat split; try done).
    unfold m1. by destruct (existsb _ _). }
  destruct H2 as (Hw2 & Hy2 & Ht2 & Hd2).
  assert (Hm2 : m2 = m2' /\
                ((List.filter (fun c => String.eqb (fst c) (m_Ward m2'))
                    census_data = [] /\ obs = 0) \/
                 exists c, In c census_data /\ fst c = m_Ward m2' /\
                           obs = default 0 (snd c))).
  { destruct (List.filter _ census_data) as [|c0 cs] eqn:E.
    - destruct Hobs as [[= <- <-]|[]]. split; [done|]. by left.
    - apply in_map_iff in Hobs as (c & [= <- <-] & Hc). split; [done|].
      right. exists c. rewrite <- E in Hc.
      by apply filter_In in Hc as [Hc Heq%String.eqb_eq]. }
  destruct Hm2 as [-> Hcensus].
  cbn [Ward year_columns Total_Incidents District Incidents_per_10000
       Population_Census_2021].
  rewrite Hw2, Hy2, Ht2, Hd2 in *.
  repeat (split; [done|]). split; [by exists b | done].
Qed.

(** Every row of the dissolved table reaches the output. *)
Lemma combine_out_ward (kml_data : list (kml_row geometry))
    (inc_data : frame) (census_data : list (string * option Z)) out m :
  combine_maps_w_data unary_union kml_data inc_data census_data = Ok out ->
  In m (dissolve unary_union (fin_years (groupby_size inc_data))
          (map (fun r => set_j_Ward (collapse_ward (j_Ward r)) r)
             (join_pivot (fin_years (groupby_size inc_data))
                kml_data (pivot (groupby_size inc_data))))) ->
  In (m_Ward m) (map Ward out).
Proof.
  intros Hok Hm. destruct (combine_ok _ _ _ _ Hok) as [b ->].
  rewrite map_map. apply in_map_iff.
  set (m1 := if existsb (String.eqb (m_Ward m))
                  ["Castle Vale"; "Allens Cross"]
             then set_m_District (Str "Birmingham") m else m).
  set (m2 := if String.eqb (m_Ward m1) "Ettingshall"
             then set_m_District (Str "Wolverhampton") m1 else m1).
  assert (Hw : m_Ward m2 = m_Ward m).
  { unfold m2, m1.
    by destruct (existsb _ _), (String.eqb _ "Ettingshall"). }
  assert (Hex : exists obs,
            In (m2, obs)
              (match List.filter (fun c => String.eqb (fst c) (m_Ward m2))
                       census_data with
               | [] => [(m2, 0)]
               | matches => map (fun c => (m2, default 0 (snd c))) matches
               end)).
  { destruct (List.filter _ census_data) as [|c0 cs].
    - exists 0. by left.
    - exists (default 0 (snd c0)). by left. }
  destruct Hex as [obs Hobs]. exists (m2, obs). split; [exact Hw|].
  apply in_flat_map. exists m2. split; [|exact Hobs].
  apply in_map_iff. exists m1. split; [done|].
  apply in_map_iff. by exists m.
Qed.

(** Replacing a one-character text by nothing leaves no occurrence. *)
Lemma replace_char_absent a s :
  Text.contains (String a "") (Text.replace (String a "") "" s) = false.
Proof.
  unfold Text.replace. induction s as [|c s IH]; [done|].
  cbn [Text.replace_from String.prefix].
  destruct (ascii_dec a c) as [->|Hne].
  - assert (Hp : String.prefix "" s = true) by (by destruct s).
    rewrite Hp. exact IH.
  - cbn [Text.contains String.prefix].
    destruct (ascii_dec a c); [done|]. exact IH.
Qed.

Lemma collapse_ward_cases w :
  (collapse_ward w = "Ettingshall" /\
   Text.contains "Ettingshall" (Text.replace "'" "" w) = true) \/
  (collapse_ward w = Text.replace "'" "" w /\
   Text.contains "Ettingshall" (Text.replace "'" "" w) = false).
Proof.
  unfold collapse_ward, Text.re_search. cbv zeta.
  change (Text.alternatives "Ettingshall") with ["Ettingshall"].
  cbn [existsb]. rewrite orb_false_r.
  destruct (Text.contains "Ettingshall" _); [by left | by right].
Qed.

(** A ward name as the function keys it holds no apostrophe, and holds
    "Ettingshall" only when it is "Ettingshall". *)
Lemma collapse_ward_normal w :
  Text.contains "'" (collapse_ward w) = false /\
  (Text.contains "Ettingshall" (collapse_ward w) = true ->
   collapse_ward w = "Ettingshall").
Proof.
  destruct (collapse_ward_cases w) as [[-> _]|[-> Hno]].
  - split; [by vm_compute | done].
  - split; [apply replace_char_absent | congruence].
Qed.

Lemma inc_per_pop_no_incidents b p :
  0 < p < 2 ^ 62 -> inc_per_pop b 0 0 p = S754_zero false.
Proof.
  intros Hp. unfold inc_per_pop.
  rewrite double_observation_small by lia.
  change (Z2F (0 + 0)) with (S754_zero false).
  assert (H10 : exists m e, Z2F 10000 = S754_finite false m e)
    by (vm_compute; eauto).
  destruct H10 as (m1 & e1 & ->).
  destruct (Z2F_pos (p * 2)) as [(m & e & ->)| ->]; [lia|..]; reflexivity.
Qed.


Lemma districts_of_spec (inc_data : frame) d w :
  In d (districts_of inc_data w)
  <-> exists r y, In r inc_data /\ group_key r = Some (y, d, w).
Proof.
  unfold districts_of, pivot_index. rewrite in_map_iff. split.
  - intros ([d' w'] & <- & [Hin Hw%String.eqb_eq]%filter_In).
    simpl in Hw. subst w'.
    apply (proj1 (sorted_unique_In _
                    (lexico_eq _ _ string_compare_eq string_compare_eq)
                    _ _)) in Hin.
    apply in_map_iff in Hin as ([[[y d0] w0] n] & [= -> ->] & Hk).
    unfold groupby_size in Hk. cbv zeta in Hk.
    apply in_map_iff in Hk as (k & [= -> _] & Hk).
    apply (proj1 (sorted_unique_In _ key_compare_eq _ _)) in Hk.
    apply list_elem_of_In, list_elem_of_omap in Hk as (r & Hr & E).
    exists r, y. split; [by apply list_elem_of_In | done].
  - intros (r & y & Hr & E). exists (d, w). split; [done|].
    apply filter_In. split; [|apply String.eqb_refl].
    apply (sorted_unique_In _
             (lexico_eq _ _ string_compare_eq string_compare_eq)).
    apply in_map_iff. eexists (y, d, w, _). split; [reflexivity|].
    unfold groupby_size. cbv zeta. apply in_map_iff. exists (y, d, w).
    split; [reflexivity|].
    apply (sorted_unique_In _ key_compare_eq).
    apply list_elem_of_In, list_elem_of_omap. exists r.
    split; [by apply list_elem_of_In | done].
Qed.


(** X13: the wards of the output are the names of the boundary rows with
    the apostrophes removed and every name that holds "Ettingshall"
    replaced by "Ettingshall": no boundary is lost, and neither the
    incidents nor the census add a ward. *)
Theorem combine_maps_wards (kml_data : list (kml_row geometry))
    (inc_data : frame) (census_data : list (string * option Z)) :
  has_year 2021 inc_data = true -> has_year 2022 inc_data = true ->
  exists out,
    combine_maps_w_data unary_union kml_data inc_data census_data = Ok out /\
    forall w,
      In w (map Ward out)
      <-> exists k, In k kml_data /\ collapse_ward (kml_Ward k) = w.
Proof.
  intros H21 H22.
  destruct (combine_rows geometry unary_union kml_data inc_data
              census_data H21 H22) as (out & Hok & _).
  exists out. split; [exact Hok|]. intros w. split.
  - intros (r & <- & Hr)%in_map_iff.
    destruct (combine_out_row _ _ _ _ _ Hok Hr) as (m & Hm & -> & _).
    destruct (dissolve_rows _ _ _ Hm) as (HW & _).
    apply in_map_iff in HW as (k & <- & Hk). by exists k.
  - intros (k & Hk & <-).
    assert (HW : In (collapse_ward (kml_Ward k))
                   (map m_Ward
                      (dissolve unary_union
                         (fin_years (groupby_size inc_data))
                         (map (fun r =>
                                 set_j_Ward (collapse_ward (j_Ward r)) r)
                            (join_pivot (fin_years (groupby_size inc_data))
                               kml_data (pivot (groupby_size inc_data))))))).
    { apply dissolve_wards. rewrite map_map. cbn [j_Ward set_j_Ward].
      rewrite <- (map_map j_Ward collapse_ward). apply in_map.
      apply join_ward_In. by apply in_map. }
    apply in_map_iff in HW as (m & <- & Hm).
    exact (combine_out_ward _ _ _ _ _ Hok Hm).
Qed.

(** X14: no ward of the output holds an apostrophe; a ward of the output
    that holds "Ettingshall" is "Ettingshall" and its district is
    "Wolverhampton"; the district of "Castle Vale" and of "Allens Cross" is
    "Birmingham", whatever the incidents say. *)
Theorem combine_maps_special_wards (kml_data : list (kml_row geometry))
    (inc_data : frame) (census_data : list (string * option Z)) :
  has_year 2021 inc_data = true -> has_year 2022 inc_data = true ->
  exists out,
    combine_maps_w_data unary_union kml_data inc_data census_data = Ok out /\
    Forall
      (fun r =>
         Text.contains "'" (Ward r) = false /\
         (Text.contains "Ettingshall" (Ward r) = true ->
          Ward r = "Ettingshall" /\ District r = Str "Wolverhampton") /\
         (Ward r = "Castle Vale" \/ Ward r = "Allens Cross" ->
          District r = Str "Birmingham"))
      out.
Proof.
  intros H21 H22.
  destruct (combine_rows geometry unary_union kml_data inc_data
              census_data H21 H22) as (out & Hok & _).
  exists out. split; [exact Hok|]. apply List.Forall_forall. intros r Hr.
  destruct (combine_out_row _ _ _ _ _ Hok Hr)
    as (m & Hm & Hw & _ & _ & Hd & _).
  destruct (dissolve_rows _ _ _ Hm) as (HW & _).
  apply in_map_iff in HW as (k & HW & _).
  rewrite Hd, Hw, <- HW.
  destruct (collapse_ward_normal (kml_Ward k)) as [Hap Het].
  split; [exact Hap|]. split.
  - intros ->%Het. by split.
  - by intros [-> | ->].
Qed.

Lemma district_fix_wards (md : list (map_row geometry)) :
  map m_Ward
    (map (fun r =>
            if String.eqb (m_Ward r) "Ettingshall"
            then set_m_District (Str "Wolverhampton") r else r)
       (map (fun r =>
               if existsb (String.eqb (m_Ward r))
                    ["Castle Vale"; "Allens Cross"]
               then set_m_District (Str "Birmingham") r else r) md))
  = map m_Ward md.
Proof.
  rewrite !map_map. apply map_ext. intros m.
  by destruct (existsb _ _), (String.eqb _ "Ettingshall").
Qed.

Lemma census_unique (census_data : list (string * option Z)) w :
  List.NoDup (map fst census_data) ->
  (List.length
     (List.filter (fun c => String.eqb (fst c) w) census_data) <= 1)%nat.
Proof.
  induction census_data as [|c cs IH]; intros Hnd; [simpl; lia|].
  apply List.NoDup_cons_iff in Hnd as [Hc Hcs]. cbn [List.filter].
  destruct (String.eqb_spec (fst c) w) as [<-|]; [|by apply IH].
  destruct (List.filter (fun c' => String.eqb (fst c') (fst c)) cs)
    as [|c' l] eqn:F; [simpl; lia|].
  assert (Hc' : In c' (List.filter
                         (fun c' => String.eqb (fst c') (fst c)) cs))
    by (rewrite F; by left).
  apply filter_In in Hc' as [Hin Heq%String.eqb_eq].
  destruct Hc. rewrite <- Heq. by apply in_map.
Qed.

Lemma census_join_wards (census_data : list (string * option Z))
    (md : list (map_row geometry)) :
  List.NoDup (map fst census_data) ->
  map (fun x : map_row geometry * Z => m_Ward (fst x))
    (flat_map
       (fun r =>
          match List.filter (fun c => String.eqb (fst c) (m_Ward r))
                  census_data with
          | [] => [(r, 0)]
          | matches => map (fun c => (r, default 0 (snd c))) matches
          end) md)
  = map m_Ward md.
Proof.
  intros Hnd. induction md as [|m md IH]; [done|].
  cbn [flat_map]. rewrite map_app, IH. cbn [map].
  pose proof (census_unique census_data (m_Ward m) Hnd) as Hone.
  destruct (List.filter _ census_data) as [|c [|c' l]]; simpl in *;
    [done | done | lia].
Qed.

(** X15: when no ward occurs twice in the census, the output has exactly
    one row per ward, in increasing order of the ward names. *)
Theorem combine_maps_one_row_per_ward (kml_data : list (kml_row geometry))
    (inc_data : frame) (census_data : list (string * option Z)) :
  has_year 2021 inc_data = true -> has_year 2022 inc_data = true ->
  List.NoDup (map fst census_data) ->
  exists out,
    combine_maps_w_data unary_union kml_data inc_data census_data = Ok out /\
    ascending String.compare (map Ward out) = true.
Proof.
  intros H21 H22 Hnd.
  destruct (combine_rows geometry unary_union kml_data inc_data
              census_data H21 H22) as (out & Hok & _).
  exists out. split; [exact Hok|].
  destruct (combine_ok _ _ _ _ Hok) as [b ->].
  rewrite map_map.
  erewrite map_ext; [rewrite (census_join_wards census_data _ Hnd)|].
  2: { by intros [m obs]. }
  rewrite district_fix_wards.
  unfold dissolve. rewrite map_map. cbn [m_Ward]. rewrite map_id.
  apply sorted_unique_ascending.
  - apply string_compare_eq.
  - apply String.compare_antisym.
  - apply string_compare_trans.
Qed.

(** X16: the count of a ward in the column of a fiscal year is the
    number of grouped incidents of that year recorded under the names of
    the boundary rows merged into the ward, each boundary row bringing all
    the incidents of its name; the total is the sum of these counts over
    the fiscal years, which are the years with a grouped incident. *)
Theorem combine_maps_counts (kml_data : list (kml_row geometry))
    (inc_data : frame) (census_data : list (string * option Z)) :
  has_year 2021 inc_data = true -> has_year 2022 inc_data = true ->
  exists out,
    combine_maps_w_data unary_union kml_data inc_data census_data = Ok out /\
    (forall y, In y (fin_years (groupby_size inc_data))
               <-> has_year y inc_data = true) /\
    Forall
      (fun r =>
         year_columns r
         = map (fun y =>
                  (rename_year y, ward_count kml_data inc_data (Ward r) y))
             (fin_years (groupby_size inc_data)) /\
         Total_Incidents r
         = sum (map (ward_count kml_data inc_data (Ward r))
                  (fin_years (groupby_size inc_data))))
      out.
Proof.
  intros H21 H22.
  destruct (combine_rows geometry unary_union kml_data inc_data
              census_data H21 H22) as (out & Hok & _).
  exists out. split; [exact Hok|].
  split; [apply fin_years_has_year|].
  apply List.Forall_forall. intros r Hr.
  destruct (combine_out_row _ _ _ _ _ Hok Hr)
    as (m & Hm & Hw & Hy & Ht & _).
  destruct (dissolve_rows _ _ _ Hm) as (_ & Hyears & Htot & _).
  rewrite Hy, Ht, Hw, Hyears, Htot. by rewrite map_map.
Qed.

(** X17: a ward drawn as several boundary rows of its own name has every
    incident counted once per boundary row: its count of a fiscal year is
    the number of its boundary rows times the number of its incidents. *)
Theorem combine_maps_repeated_boundary (kml_data : list (kml_row geometry))
    (inc_data : frame) (census_data : list (string * option Z)) :
  has_year 2021 inc_data = true -> has_year 2022 inc_data = true ->
  exists out,
    combine_maps_w_data unary_union kml_data inc_data census_data = Ok out /\
    Forall
      (fun r =>
         (forall k, In k (pieces kml_data (Ward r)) ->
                    kml_Ward k = Ward r) ->
         year_columns r
         = map (fun y =>
                  (rename_year y,
                   Z.of_nat (List.length (pieces kml_data (Ward r)))
                   * incidents_in inc_data y (Ward r)))
             (fin_years (groupby_size inc_data)))
      out.
Proof.
  intros H21 H22.
  destruct (combine_rows geometry unary_union kml_data inc_data
              census_data H21 H22) as (out & Hok & _).
  exists out. split; [exact Hok|].
  apply List.Forall_forall. intros r Hr Hown.
  destruct (combine_out_row _ _ _ _ _ Hok Hr)
    as (m & Hm & Hw & Hy & _).
  destruct (dissolve_rows _ _ _ Hm) as (_ & Hyears & _).
  rewrite Hy, Hyears, map_map, <- Hw. apply map_ext. intros y.
  cbn [fst snd]. f_equal. unfold ward_count.
  induction (pieces kml_data (Ward r)) as [|k ks IH]; [done|].
  cbn [map sum fold_right List.length].
  rewrite (Hown k) by (by left).
  fold (sum (map (fun k => incidents_in inc_data y (kml_Ward k)) ks)).
  rewrite IH by (intros; apply Hown; by right). lia.
Qed.

(** X18: apart from "Ettingshall", "Castle Vale" and "Allens Cross", the
    district of a ward is the text obtained by writing one after the other
    the districts in which the names of its boundary rows have grouped
    incidents, boundary row by boundary row, and the number 0 when there is
    none; a district is listed for a name exactly when an incident of that
    district is grouped under the name. *)
Theorem combine_maps_district (kml_data : list (kml_row geometry))
    (inc_data : frame) (census_data : list (string * option Z)) :
  has_year 2021 inc_data = true -> has_year 2022 inc_data = true ->
  exists out,
    combine_maps_w_data unary_union kml_data inc_data census_data = Ok out /\
    (forall d w,
       In d (districts_of inc_data w)
       <-> exists r y, In r inc_data /\ group_key r = Some (y, d, w)) /\
    Forall
      (fun r =>
         Ward r <> "Ettingshall" -> Ward r <> "Castle Vale" ->
         Ward r <> "Allens Cross" ->
         District r
         = match flat_map (fun k => districts_of inc_data (kml_Ward k))
                   (pieces kml_data (Ward r)) with
           | [] => Int 0
           | d :: ds => Str (fold_left String.append ds d)
           end)
      out.
Proof.
  intros H21 H22.
  destruct (combine_rows geometry unary_union kml_data inc_data
              census_data H21 H22) as (out & Hok & _).
  exists out. split; [exact Hok|].
  split; [apply districts_of_spec|].
  apply List.Forall_forall. intros r Hr He Hc Ha.
  destruct (combine_out_row _ _ _ _ _ Hok Hr)
    as (m & Hm & Hw & _ & _ & Hd & _).
  destruct (dissolve_rows _ _ _ Hm) as (_ & _ & _ & Hdist).
  rewrite Hd, Hw, <- Hdist. rewrite Hw in He, Hc, Ha.
  destruct (String.eqb_spec (m_Ward m) "Ettingshall"); [done|].
  cbn [existsb].
  destruct (String.eqb_spec (m_Ward m) "Castle Vale"); [done|].
  by destruct (String.eqb_spec (m_Ward m) "Allens Cross").
Qed.


(** X20: a ward with a positive population below 2^62 (so that its double
    is the int64 the code computes) and no incident of the fiscal years 2021
    and 2022 under the names of its boundary rows has the rate +0. *)
Theorem combine_maps_rate_zero (kml_data : list (kml_row geometry))
    (inc_data : frame) (census_data : list (string * option Z)) :
  has_year 2021 inc_data = true -> has_year 2022 inc_data = true ->
  exists out,
    combine_maps_w_data unary_union kml_data inc_data census_data = Ok out /\
    Forall
      (fun r =>
         ward_count kml_data inc_data (Ward r) 2021 = 0 ->
         ward_count kml_data inc_data (Ward r) 2022 = 0 ->
         0 < Population_Census_2021 r < 2 ^ 62 ->
         Incidents_per_10000 r = S754_zero false)
      out.
Proof.
  intros H21 H22.
  destruct (combine_rows geometry unary_union kml_data inc_data
              census_data H21 H22) as (out & Hok & _).
  exists out. split; [exact Hok|].
  apply List.Forall_forall. intros r Hr Hc21 Hc22 Hp.
  destruct (combine_out_row _ _ _ _ _ Hok Hr)
    as (m & Hm & Hw & _ & _ & _ & [b Hrate] & _).
  destruct (dissolve_rows _ _ _ Hm) as (_ & Hyears & _).
  rewrite Hrate, Hyears, !assoc_keyed.
  rewrite (has_year_column _ _ H21), (has_year_column _ _ H22).
  cbn [default]. rewrite <- Hw, Hc21, Hc22.
  by apply inc_per_pop_no_incidents.
Qed.

End MapMore.

Lemma combine_maps_wards_witness :
  exists out,
    combine_maps_w_data (@concat nat) Examples.boundaries
      Examples.incidents Examples.census = Ok out /\
    forall w,
      In w (map Ward out)
      <-> exists k, In k Examples.boundaries /\
                    collapse_ward (kml_Ward k) = w.
Proof.
  assert (H21 : has_year 2021 Examples.incidents = true)
    by (vm_compute; reflexivity).
  assert (H22 : has_year 2022 Examples.incidents = true)
    by (vm_compute; reflexivity).
  exact (combine_maps_wards (list nat) (@concat nat) Examples.boundaries
           Examples.incidents Examples.census H21 H22).
Defined.

Lemma combine_maps_special_wards_witness :
  exists out,
    combine_maps_w_data (@concat nat) Examples.boundaries
      Examples.incidents Examples.census = Ok out /\
    Forall
      (fun r =>
         Text.contains "'" (Ward r) = false /\
         (Text.contains "Ettingshall" (Ward r) = true ->
          Ward r = "Ettingshall" /\ District r = Str "Wolverhampton") /\
         (Ward r = "Castle Vale" \/ Ward r = "Allens Cross" ->
          District r = Str "Birmingham"))
      out.
Proof.
  assert (H21 : has_year 2021 Examples.incidents = true)
    by (vm_compute; reflexivity).
  assert (H22 : has_year 2022 Examples.incidents = true)
    by (vm_compute; reflexivity).
  exact (combine_maps_special_wards (list nat) (@concat nat)
           Examples.boundaries Examples.incidents Examples.census H21 H22).
Defined.

Lemma combine_maps_one_row_per_ward_witness :
  exists out,
    combine_maps_w_data (@concat nat) Examples.boundaries
      Examples.incidents Examples.census = Ok out /\
    ascending String.compare (map Ward out) = true.
Proof.
  assert (H21 : has_year 2021 Examples.incidents = true)
    by (vm_compute; reflexivity).
  assert (H22 : has_year 2022 Examples.incidents = true)
    by (vm_compute; reflexivity).
  assert (Hnd : List.NoDup (map fst Examples.census))
    by (repeat constructor; simpl; tauto).
  exact (combine_maps_one_row_per_ward (list nat) (@concat nat)
           Examples.boundaries Examples.incidents Examples.census
           H21 H22 Hnd).
Defined.

Lemma combine_maps_counts_witness :
  exists out,
    combine_maps_w_data (@concat nat) Examples.boundaries
      Examples.incidents Examples.census = Ok out /\
    (forall y, In y (fin_years (groupby_size Examples.incidents))
               <-> has_year y Examples.incidents = true) /\
    Forall
      (fun r =>
         year_columns r
         = map (fun y =>
                  (rename_year y,
                   ward_count Examples.boundaries Examples.incidents
                     (Ward r) y))
             (fin_years (groupby_size Examples.incidents)) /\
         Total_Incidents r
         = sum (map (ward_count Examples.boundaries Examples.incidents
                       (Ward r))
                  (fin_years (groupby_size Examples.incidents))))
      out.
Proof.
  assert (H21 : has_year 2021 Examples.incidents = true)
    by (vm_compute; reflexivity).
  assert (H22 : has_year 2022 Examples.incidents = true)
    by (vm_compute; reflexivity).
  exact (combine_maps_counts (list nat) (@concat nat) Examples.boundaries
           Examples.incidents Examples.census H21 H22).
Defined.

Lemma combine_maps_repeated_boundary_witness :
  exists out,
    combine_maps_w_data (@concat nat) Examples.two_pieces
      Examples.incidents Examples.census = Ok out /\
    Forall
      (fun r =>
         (forall k, In k (pieces Examples.two_pieces (Ward r)) ->
                    kml_Ward k = Ward r) ->
         year_columns r
         = map (fun y =>
                  (rename_year y,
                   Z.of_nat
                     (List.length (pieces Examples.two_pieces (Ward r)))
                   * incidents_in Examples.incidents y (Ward r)))
             (fin_years (groupby_size Examples.incidents)))
      out.
Proof.
  assert (H21 : has_year 2021 Examples.incidents = true)
    by (vm_compute; reflexivity).
  assert (H22 : has_year 2022 Examples.incidents = true)
    by (vm_compute; reflexivity).
  exact (combine_maps_repeated_boundary (list nat) (@concat nat)
           Examples.two_pieces Examples.incidents Examples.census H21 H22).
Defined.

(** The ward drawn twice: one incident in each of 2021 and 2022 is counted
    twice, and the district is written twice. *)
Example combine_maps_two_pieces :
  match combine_maps_w_data (@concat nat) Examples.two_pieces
          Examples.incidents Examples.census with
  | Ok out =>
      map (fun r => (Ward r, geometry_ r, District r, year_columns r,
                     Total_Incidents r)) out
      = [ ("Tipton Green", [1; 5]%nat, Str "SandwellSandwell",
           [(LStr "2013", 0); (LStr "2021", 2); (LStr "2022", 2)], 4) ]
  | Raise _ => False
  end.
Proof. vm_compute. reflexivity. Qed.

Lemma combine_maps_district_witness :
  exists out,
    combine_maps_w_data (@concat nat) Examples.two_pieces
      Examples.incidents Examples.census = Ok out /\
    (forall d w,
       In d (districts_of Examples.incidents w)
       <-> exists r y, In r Examples.incidents /\
                       group_key r = Some (y, d, w)) /\
    Forall
      (fun r =>
         Ward r <> "Ettingshall" -> Ward r <> "Castle Vale" ->
         Ward r <> "Allens Cross" ->
         District r
         = match flat_map
                   (fun k => districts_of Examples.incidents (kml_Ward k))
                   (pieces Examples.two_pieces (Ward r)) with
           | [] => Int 0
           | d :: ds => Str (fold_left String.append ds d)
           end)
      out.
Proof.
  assert (H21 : has_year 2021 Examples.incidents = true)
    by (vm_compute; reflexivity).
  assert (H22 : has_year 2022 Examples.incidents = true)
    by (vm_compute; reflexivity).
  exact (combine_maps_district (list nat) (@concat nat)
           Examples.two_pieces Examples.incidents Examples.census H21 H22).
Defined.


Lemma combine_maps_rate_zero_witness :
  exists out,
    combine_maps_w_data (@concat nat) Examples.boundaries
      Examples.incidents [("Kings Norton South", Some 25000)] = Ok out /\
    Forall
      (fun r =>
         ward_count Examples.boundaries Examples.incidents (Ward r) 2021
         = 0 ->
         ward_count Examples.boundaries Examples.incidents (Ward r) 2022
         = 0 ->
         0 < Population_Census_2021 r < 2 ^ 62 ->
         Incidents_per_10000 r = S754_zero false)
      out.
Proof.
  assert (H21 : has_year 2021 Examples.incidents = true)
    by (vm_compute; reflexivity).
  assert (H22 : has_year 2022 Examples.incidents = true)
    by (vm_compute; reflexivity).
  exact (combine_maps_rate_zero (list nat) (@concat nat)
           Examples.boundaries Examples.incidents
           [("Kings Norton South", Some 25000)] H21 H22).
Defined.

(** A census that covers every ward keeps its populations in int64: the
    double of the population 2^62 wraps around to -2^63 and the rate comes
    out negative. *)
Example combine_maps_population_wraps :
  match combine_maps_w_data (@concat nat) Examples.two_pieces
          Examples.incidents [("Tipton Green", Some (2 ^ 62))] with
  | Ok out =>
      map (fun r => (Population_Census_2021 r, Incidents_per_10000 r)) out
      = [ (2 ^ 62, S754_finite true 5497558138880000 (-100)) ]
  | Raise _ => False
  end.
Proof. vm_compute. reflexivity. Qed.

(** ** N-grams: windows, stop words and the order of the counts *)

Section NgramMore.

Variable word_tokenize : string -> list string.
Variable stopwords_english : list string.

(** X21: for a positive [n] the n-grams of a token list are its windows
    of [n] consecutive tokens, from left to right, one for every start
    position that leaves room for [n] tokens: a list of fewer than [n]
    tokens has none, every window has exactly [n] tokens, and their number
    is the number of tokens plus 1 minus [n]. *)
Theorem get_ngrams_windows (s : list string) (n : nat) :
  (0 < n)%nat ->
  get_ngrams s n
  = map (fun i => take n (drop i s)) (seq 0 (List.length s + 1 - n)) /\
  List.length (get_ngrams s n) = (List.length s + 1 - n)%nat /\
  Forall (fun g => List.length g = n) (get_ngrams s n).
Proof.
  intros Hn. destruct n as [|n]; [lia|]. unfold get_ngrams.
  rewrite ngrams_windows. split; [done|]. split.
  - by rewrite length_map, length_seq.
  - apply List.Forall_forall. intros g (i & <- & Hi)%in_map_iff.
    apply in_seq in Hi. rewrite length_take, length_drop. lia.
Qed.

(** X22: [filter_stopwords] keeps, in their order and with their
    repetitions, exactly the tokens whose casefolded form is not in the
    stop list: no kept token is a stop word up to letter case, and no other
    token is dropped. *)
Theorem filter_stopwords_keeps (q : string) :
  filter_stopwords word_tokenize stopwords_english q
  = List.filter
      (fun word =>
         negb (existsb (String.eqb (Text.casefold word)) stopwords_english))
      (word_tokenize q) /\
  forall word,
    In word (filter_stopwords word_tokenize stopwords_english q)
    <-> In word (word_tokenize q) /\
        ~ In (Text.casefold word) stopwords_english.
Proof.
  rewrite filter_stopwords_filter. split; [done|].
  intros word. rewrite filter_In. unfold kept.
  rewrite negb_true_iff, <- not_true_iff_false, existsb_exists.
  split; intros [Hin Hno]; (split; [done|]).
  - intros Hs. apply Hno. exists (Text.casefold word).
    split; [done | apply String.eqb_refl].
  - intros (w & Hw & Heq%String.eqb_eq). apply Hno. by rewrite Heq.
Qed.

Lemma apply_filter_stopwords_ok (values : list cell) tokens :
  apply_filter_stopwords word_tokenize stopwords_english values = Ok tokens ->
  Forall (fun c => is_str c = true) values.
Proof.
  revert tokens. induction values as [|c values IH]; intros tokens H;
    [constructor|].
  destruct c; try discriminate. cbn [apply_filter_stopwords] in H.
  destruct (apply_filter_stopwords word_tokenize stopwords_english values)
    as [t|e] eqn:E; [|discriminate].
  constructor; [done|]. by apply (IH t).
Qed.

(** X23: [ngram_counts] returns exactly when every description of the
    table is a string; a missing description stops it, as the tokenizer
    accepts text only. *)
Theorem ngram_counts_returns_iff (data : frame) (n : nat) (col_ : string) :
  (exists counts,
     ngram_counts word_tokenize stopwords_english data n col_ = Ok counts)
  <-> Forall (fun c => is_str c = true) (col data col_).
Proof.
  split.
  - intros [counts H]. unfold ngram_counts in H.
    destruct (apply_filter_stopwords word_tokenize stopwords_english
                (col data col_)) as [t|e] eqn:E; [|discriminate].
    by apply (apply_filter_stopwords_ok _ t).
  - intros H. eexists. by apply ngram_counts_total.
Qed.

Lemma descending_cons x l :
  descending (x :: l) = true
  <-> (forall y, In y l -> (y <= x)%nat) /\ descending l = true.
Proof.
  cbn [descending]. rewrite andb_true_iff, forallb_forall.
  split; intros [H1 H2]; (split; [|done]); intros y Hy.
  - by apply Nat.leb_le, H1.
  - by apply Nat.leb_le, H1.
Qed.

Lemma insert_desc_descending x l :
  descending (map snd l) = true ->
  descending (map snd (insert_desc x l)) = true.
Proof.
  induction l as [|y l IH]; [done|].
  intros [Hy Hl]%descending_cons. cbn [insert_desc].
  destruct (Nat.leb_spec (snd y) (snd x)) as [Hle|Hgt].
  - cbn [map]. apply descending_cons. split.
    + intros z [<-|Hz]; [done|]. specialize (Hy z Hz). lia.
    + cbn [map] in *. by apply descending_cons.
  - cbn [map]. apply descending_cons. split; [|by apply IH].
    intros z (e & <- & He)%in_map_iff.
    apply (Permutation_in _ (insert_desc_perm x l)) in He as [<-|He];
      [lia|].
    apply Hy. by apply in_map.
Qed.

Lemma value_counts_descending l :
  descending (map snd (value_counts l)) = true.
Proof.
  unfold value_counts. induction (tally l) as [|x t IH]; [done|].
  by apply insert_desc_descending.
Qed.

Lemma list_sum_perm l1 l2 :
  Permutation l1 l2 -> list_sum l1 = list_sum l2.
Proof. induction 1; simpl; lia. Qed.

Lemma list_sum_bump x acc :
  list_sum (map snd (bump x acc)) = S (list_sum (map snd acc)).
Proof.
  induction acc as [|[y c] acc IH]; [done|]. cbn [bump].
  destruct (gram_eqb x y); cbn [map snd];
    repeat match goal with
           | |- context [list_sum (?a :: ?l)] =>
               change (list_sum (a :: l)) with (a + list_sum l)%nat
           end; [|rewrite IH]; lia.
Qed.

Lemma list_sum_tally l acc :
  list_sum (map snd (fold_left (fun acc x => bump x acc) l acc))
  = (List.length l + list_sum (map snd acc))%nat.
Proof.
  revert acc. induction l as [|x l IH]; intros acc; [done|].
  cbn [fold_left List.length]. rewrite IH, list_sum_bump. lia.
Qed.

Lemma value_counts_total l :
  list_sum (map snd (value_counts l)) = List.length l.
Proof.
  rewrite (list_sum_perm _ (map snd (tally l)))
    by (apply Permutation_map, value_counts_perm).
  unfold tally. rewrite list_sum_tally. simpl. lia.
Qed.

Lemma all_ngrams_length n (values : list cell) :
  List.length (all_ngrams word_tokenize stopwords_english (S n) values)
  = list_sum
      (map (fun c =>
              match c with
              | Str q =>
                  (List.length
                     (filter_stopwords word_tokenize stopwords_english q)
                   + 1 - S n)%nat
              | _ => O
              end) values).
Proof.
  unfold all_ngrams. induction values as [|c values IH]; [done|].
  cbn [map concat list_sum fold_right]. rewrite length_app, IH.
  f_equal. destruct c; try done. unfold get_ngrams.
  by rewrite ngrams_windows, length_map, length_seq.
Qed.

(** X24: the counts returned by [ngram_counts] come in non-increasing
    order and add up to the number of windows of all descriptions: for a
    positive [n], the sum over the descriptions of the number of kept tokens
    plus 1 minus [n]. *)
Theorem ngram_counts_ordered (data : frame) (n : nat) (col_ : string)
    (counts : list (list string * nat)) :
  (0 < n)%nat ->
  ngram_counts word_tokenize stopwords_english data n col_ = Ok counts ->
  descending (map snd counts) = true /\
  list_sum (map snd counts)
  = list_sum
      (map (fun c =>
              match c with
              | Str q =>
                  (List.length
                     (filter_stopwords word_tokenize stopwords_english q)
                   + 1 - n)%nat
              | _ => O
              end) (col data col_)).
Proof.
  intros Hn Hok. destruct n as [|n]; [lia|].
  assert (Hstr : Forall (fun c => is_str c = true) (col data col_)).
  { unfold ngram_counts in Hok.
    destruct (apply_filter_stopwords word_tokenize stopwords_english
                (col data col_)) as [t|e] eqn:E; [|discriminate].
    by apply (apply_filter_stopwords_ok _ t). }
  rewrite (ngram_counts_total _ _ data (S n) col_ Hstr) in Hok.
  injection Hok as <-. split.
  - apply value_counts_descending.
  - by rewrite value_counts_total, all_ngrams_length.
Qed.

End NgramMore.

Lemma get_ngrams_windows_witness :
  get_ngrams ["cat"; "stuck"; "tree"] 2
  = map (fun i => take 2 (drop i ["cat"; "stuck"; "tree"]))
      (seq 0 (List.length ["cat"; "stuck"; "tree"] + 1 - 2)) /\
  List.length (get_ngrams ["cat"; "stuck"; "tree"] 2)
  = (List.length ["cat"; "stuck"; "tree"] + 1 - 2)%nat /\
  Forall (fun g => List.length g = 2%nat)
    (get_ngrams ["cat"; "stuck"; "tree"] 2).
Proof.
  assert (H : (0 < 2)%nat) by lia.
  exact (get_ngrams_windows ["cat"; "stuck"; "tree"] 2 H).
Defined.

Lemma ngram_counts_ordered_witness :
  descending (map snd [(["Cat"; "stuck"], 1%nat); (["stuck"; "Tree"], 1%nat)])
  = true /\
  list_sum (map snd [(["Cat"; "stuck"], 1%nat); (["stuck"; "Tree"], 1%nat)])
  = list_sum
      (map (fun c =>
              match c with
              | Str q =>
                  (List.length
                     (filter_stopwords Nltk.split_blank
                        Nltk.english_stopwords q)
                   + 1 - 2)%nat
              | _ => O
              end) (col [Examples.cat_upper] "Incident Detail")).
Proof.
  assert (Hn : (0 < 2)%nat) by lia.
  assert (Hok : ngram_counts Nltk.split_blank Nltk.english_stopwords
                  [Examples.cat_upper] 2 "Incident Detail"
                = Ok [(["Cat"; "stuck"], 1%nat); (["stuck"; "Tree"], 1%nat)])
    by (vm_compute; reflexivity).
  exact (ngram_counts_ordered Nltk.split_blank Nltk.english_stopwords
           [Examples.cat_upper] 2 "Incident Detail" _ Hn Hok).
Defined.

(** ** [download_district_kml]: what is requested and what is written *)

Section DownloadFacts.

Context {P : Type} `{Countable P}.
Variable exception : Type.
Variable urlopen_read : nat -> string -> exception + list Byte.byte.
Variable placemark_text : list Byte.byte -> exception + option string.
Variable Path : string -> P.
Variable write_error : nat -> P -> option exception.

Local Notation "'outcome_at'" :=
  (outcome urlopen_read placemark_text Path write_error) (only parsing).
Local Notation "'range_from'" :=
  (download_range exception urlopen_read placemark_text Path write_error)
  (only parsing).

Lemma download_ward_outcome k id (w : world) :
  download_ward exception urlopen_read placemark_text Path write_error k id w
  = match outcome_at k id with
    | inl e => inl e
    | inr (f, kml) =>
        inr (World (stdout w ++ [id]) (<[f := kml]> (files w)))
    end.
Proof.
  unfold download_ward, outcome. cbv zeta.
  destruct (urlopen_read k (url id)) as [e|kml]; [done|].
  destruct (placemark_text kml) as [e|t]; [done|].
  by destruct (write_error k (Path (kml_path t))).
Qed.

Lemma download_range_app k l1 l2 (w : world) :
  range_from k (l1 ++ l2)%list w
  = match range_from k l1 w with
    | inl e => inl e
    | inr (k', w') => range_from k' l2 w'
    end.
Proof.
  revert k w. induction l1 as [|id l1 IH]; intros k w; [done|].
  cbn [app download_range].
  destruct (download_ward _ _ _ _ _ k id w) as [e|w']; [done|]. apply IH.
Qed.

(** The two nested loops are one loop over the identifiers of all ranges. *)
Lemma download_districts_flat k doogal_dict (w : world) :
  download_districts exception urlopen_read placemark_text Path write_error
    k doogal_dict w
  = range_from k (ward_ids doogal_dict) w.
Proof.
  revert k w.
  induction doogal_dict as [|[district [kml_start kml_end]] rest IH];
    intros k w; [done|].
  cbn [download_districts]. unfold ward_ids. cbn [flat_map fst snd].
  rewrite download_range_app.
  destruct (range_from k (range kml_start (kml_end + 1)) w) as [e|[k' w']];
    [done|].
  apply IH.
Qed.

(** When every iteration succeeds, the loop prints the identifiers, leaves
    alone the files no iteration writes, and leaves in each written file
    what the last iteration writing it wrote. *)
Lemma download_range_ok ids k (w : world) :
  (forall j id, ids !! j = Some id ->
                exists f kml, outcome_at (k + j) id = inr (f, kml)) ->
  exists w',
    range_from k ids w = inr ((k + List.length ids)%nat, w') /\
    stdout w' = (stdout w ++ ids)%list /\
    (forall p,
       (forall j id f kml,
          ids !! j = Some id -> outcome_at (k + j) id = inr (f, kml) ->
          f <> p) ->
       files w' !! p = files w !! p) /\
    (forall j id f kml,
       ids !! j = Some id -> outcome_at (k + j) id = inr (f, kml) ->
       (forall j' id' f' kml',
          (j < j')%nat -> ids !! j' = Some id' ->
          outcome_at (k + j') id' = inr (f', kml') -> f' <> f) ->
       files w' !! f = Some kml).
Proof.
  revert k w. induction ids as [|id0 ids IH]; intros k w Hall.
  - exists w. rewrite Nat.add_0_r, app_nil_r. repeat split; try done.
  - destruct (Hall O id0 eq_refl) as (f0 & kml0 & H0).
    rewrite Nat.add_0_r in H0.
    cbn [download_range]. rewrite download_ward_outcome, H0.
    set (w1 := World (stdout w ++ [id0]) (<[f0 := kml0]> (files w))).
    destruct (IH (S k) w1) as (w' & Hrun & Hout & Hkeep & Hlast).
    { intros j id Hj. replace (S k + j)%nat with (k + S j)%nat by lia.
      by apply (Hall (S j)). }
    exists w'. split; [|split; [|split]].
    + rewrite Hrun. cbn [List.length]. do 2 f_equal. lia.
    + rewrite Hout. unfold w1. cbn [stdout]. by rewrite <- app_assoc.
    + intros p Hp. rewrite Hkeep.
      * unfold w1. cbn [files]. apply lookup_insert_ne.
        apply (Hp O id0 f0 kml0 eq_refl). by rewrite Nat.add_0_r.
      * intros j id f kml Hj Hf. apply (Hp (S j) id f kml Hj).
        by replace (k + S j)%nat with (S k + j)%nat by lia.
    + intros [|j] id f kml Hj Hf Hlater.
      * injection Hj as <-. rewrite Nat.add_0_r, H0 in Hf.
        injection Hf as <- <-. rewrite Hkeep.
        -- unfold w1. cbn [files]. apply lookup_insert_eq.
        -- intros j' id' f' kml' Hj' Hf'.
           apply (Hlater (S j') id' f' kml'); [lia | done |].
           by replace (k + S j')%nat with (S k + j')%nat by lia.
      * apply (Hlast j id f kml Hj).
        -- by replace (S k + j)%nat with (k + S j)%nat by lia.
        -- intros j' id' f' kml' Hlt Hj' Hf'.
           apply (Hlater (S j') id' f' kml'); [lia | done |].
           by replace (k + S j')%nat with (S k + j')%nat by lia.
Qed.

Lemma download_range_fails ids k (w : world) j id e :
  ids !! j = Some id ->
  (forall j' id', (j' < j)%nat -> ids !! j' = Some id' ->
                  exists f kml, outcome_at (k + j') id' = inr (f, kml)) ->
  outcome_at (k + j) id = inl e ->
  range_from k ids w = inl e.
Proof.
  revert k w j. induction ids as [|id0 ids IH]; intros k w j Hj Hbefore He;
    [done|].
  cbn [download_range]. rewrite download_ward_outcome.
  destruct j as [|j].
  - injection Hj as ->. rewrite Nat.add_0_r in He. by rewrite He.
  - destruct (Hbefore O id0) as (f0 & kml0 & H0); [lia | done |].
    rewrite Nat.add_0_r in H0. rewrite H0.
    apply (IH (S k) _ j); [done| |].
    + intros j' id' Hlt Hj'.
      replace (S k + j')%nat with (k + S j')%nat by lia.
      apply (Hbefore (S j') id'); [lia | done].
    + by replace (S k + j)%nat with (k + S j)%nat by lia.
Qed.

Lemma In_range a b x : In x (range a b) <-> a <= x < b.
Proof.
  unfold range. rewrite in_map_iff. split.
  - intros (i & <- & Hi%in_seq). lia.
  - intros Hx. exists (Z.to_nat (x - a)). split; [lia|].
    apply in_seq. lia.
Qed.

Lemma In_ward_ids doogal_dict id :
  In id (ward_ids doogal_dict)
  <-> exists district kml_start kml_end,
        In (district, (kml_start, kml_end)) doogal_dict /\
        kml_start <= id <= kml_end.
Proof.
  unfold ward_ids. rewrite in_flat_map. split.
  - intros ([district [s e]] & Hin & Hid%In_range). cbn [fst snd] in Hid.
    exists district, s, e. split; [done | lia].
  - intros (district & s & e & Hin & Hid). exists (district, (s, e)).
    split; [done|]. apply In_range. cbn [fst snd]. lia.
Qed.

(** X25: when every request, every parse and every write succeeds,
    [download_district_kml] returns after printing, in the order of the
    dictionary and in increasing order within a range, the identifiers of
    every range with both of its bounds; a range whose end is below its
    start contributes nothing, and the names of the districts play no
    part. *)
Theorem download_district_kml_prints
    (doogal_dict : list (string * (Z * Z))) (w : world) :
  (forall j id, ward_ids doogal_dict !! j = Some id ->
                exists f kml, outcome_at j id = inr (f, kml)) ->
  exists w',
    download_district_kml exception urlopen_read placemark_text Path
      write_error doogal_dict w = inr w' /\
    stdout w' = (stdout w ++ ward_ids doogal_dict)%list /\
    forall id,
      In id (ward_ids doogal_dict)
      <-> exists district kml_start kml_end,
            In (district, (kml_start, kml_end)) doogal_dict /\
            kml_start <= id <= kml_end.
Proof.
  intros Hall.
  destruct (download_range_ok (ward_ids doogal_dict) O w Hall)
    as (w' & Hrun & Hout & _).
  exists w'. unfold download_district_kml.
  rewrite download_districts_flat, Hrun.
  split; [done|]. split; [done|]. apply In_ward_ids.
Qed.

(** X26: when every iteration succeeds, a file that no iteration writes
    is left as it was, and a written file holds what the last iteration
    that wrote it downloaded: two identifiers whose boundary has the same
    name share one file, and the later one overwrites the earlier. *)
Theorem download_district_kml_files
    (doogal_dict : list (string * (Z * Z))) (w : world) :
  (forall j id, ward_ids doogal_dict !! j = Some id ->
                exists f kml, outcome_at j id = inr (f, kml)) ->
  exists w',
    download_district_kml exception urlopen_read placemark_text Path
      write_error doogal_dict w = inr w' /\
    (forall p,
       (forall j id f kml,
          ward_ids doogal_dict !! j = Some id ->
          outcome_at j id = inr (f, kml) -> f <> p) ->
       files w' !! p = files w !! p) /\
    (forall j id f kml,
       ward_ids doogal_dict !! j = Some id ->
       outcome_at j id = inr (f, kml) ->
       (forall j' id' f' kml',
          (j < j')%nat -> ward_ids doogal_dict !! j' = Some id' ->
          outcome_at j' id' = inr (f', kml') -> f' <> f) ->
       files w' !! f = Some kml).
Proof.
  intros Hall.
  destruct (download_range_ok (ward_ids doogal_dict) O w Hall)
    as (w' & Hrun & _ & Hkeep & Hlast).
  exists w'. unfold download_district_kml.
  rewrite download_districts_flat, Hrun. by repeat split.
Qed.

(** X27: the first iteration that fails (its request, its parse or its
    write raises) ends the function with that exception, whatever the
    following iterations would have done. *)
Theorem download_district_kml_fails
    (doogal_dict : list (string * (Z * Z))) (w : world) (j : nat) (id : Z)
    (e : exception) :
  ward_ids doogal_dict !! j = Some id ->
  (forall j' id', (j' < j)%nat -> ward_ids doogal_dict !! j' = Some id' ->
                  exists f kml, outcome_at j' id' = inr (f, kml)) ->
  outcome_at j id = inl e ->
  download_district_kml exception urlopen_read placemark_text Path
    write_error doogal_dict w = inl e.
Proof.
  intros Hj Hbefore He. unfold download_district_kml.
  rewrite download_districts_flat.
  by rewrite (download_range_fails _ O w j id e Hj Hbefore He).
Qed.

End DownloadFacts.

(** The extras of this part on one district of two identifiers, with a
    network that answers every request with an empty body (or fails at the
    second request), a parser that finds the name "Ladywood" and a file
    system that accepts every write; paths are their own text. *)

Lemma download_district_kml_prints_witness :
  exists w',
    download_district_kml string (fun _ _ => inr [])
      (fun _ => inr (Some "Ladywood")) (fun p => p) (fun _ _ => None)
      Examples.coventry (World [] ∅)
    = inr w' /\
    stdout w' = [5001218; 5001219].
Proof.
  destruct (download_district_kml_prints string (fun _ _ => inr [])
              (fun _ => inr (Some "Ladywood")) (fun p => p)
              (fun _ _ => None) Examples.coventry (World [] ∅))
    as (w' & Hrun & Hout & _).
  { intros j id _. eexists _, _. reflexivity. }
  exists w'. split; [exact Hrun | exact Hout].
Defined.

Lemma download_district_kml_files_witness :
  exists w',
    download_district_kml string (fun _ _ => inr [])
      (fun _ => inr (Some "Ladywood")) (fun p => p) (fun _ _ => None)
      Examples.coventry (World [] ∅)
    = inr w' /\
    files w' !! "kml/Ladywood.kml" = Some [].
Proof.
  destruct (download_district_kml_files string (fun _ _ => inr [])
              (fun _ => inr (Some "Ladywood")) (fun p => p)
              (fun _ _ => None) Examples.coventry (World [] ∅))
    as (w' & Hrun & _ & Hlast).
  { intros j id _. eexists _, _. reflexivity. }
  exists w'. split; [exact Hrun|].
  apply (Hlast 1%nat 5001219 "kml/Ladywood.kml" []);
    [reflexivity | reflexivity |].
  intros [|[|j']] id' f' kml' Hlt Hj'; [lia | lia | discriminate].
Defined.

Lemma download_district_kml_fails_witness :
  download_district_kml string
    (fun k _ => if Nat.eqb k 1 then inl "HTTP Error 404" else inr [])
    (fun _ => inr (Some "Ladywood")) (fun p => p) (fun _ _ => None)
    Examples.coventry (World [] ∅)
  = inl "HTTP Error 404".
Proof.
  apply (download_district_kml_fails string
           (fun k _ => if Nat.eqb k 1 then inl "HTTP Error 404" else inr [])
           (fun _ => inr (Some "Ladywood")) (fun p => p) (fun _ _ => None)
           Examples.coventry (World [] ∅) 1%nat 5001219 "HTTP Error 404").
  - reflexivity.
  - intros [|j'] id' Hlt _; [|lia]. eexists _, _. reflexivity.
  - reflexivity.
Defined.
